(** * ecsy: entity / component lifecycle, query index and deferred removal

    A shallow embedding of [PropTypes.js], [Entity.js] and [World.js].
    Objects that the JavaScript code shares by reference (entities) live in
    a store inside the world and are passed around as references; arrays are
    lists, objects used as dictionaries are finite maps or, where the code
    enumerates them with [for ... in], insertion-ordered association lists. *)

From stdpp Require Import base list gmap strings pretty.
From Stdlib Require Import ZArith Lia.

Local Open Scope Z_scope.

(** ** JavaScript array and object primitives *)

Section Arrays.
Context {A : Type} `{EqDecision A}.

(** [Array.prototype.indexOf]: first index holding [x], or [-1]. *)
Fixpoint indexOf_from (l : list A) (x : A) (i : Z) : Z :=
  match l with
  | [] => -1
  | y :: l' => if decide (y = x) then i else indexOf_from l' x (i + 1)
  end.

Definition indexOf (l : list A) (x : A) : Z := indexOf_from l x 0.

(** [~l.indexOf(x)] as a condition. *)
Definition includes (l : list A) (x : A) : bool :=
  negb (indexOf l x =? -1).

(** [l.splice(index, 1)]: a negative [index] counts from the end of the
    array, so [splice(-1, 1)] deletes the last element. *)
Definition splice1 (l : list A) (index : Z) : list A :=
  let len := Z.of_nat (length l) in
  let start := if index <? 0 then Z.max (len + index) 0 else Z.min index len in
  delete (Z.to_nat start) l.

Definition push (l : list A) (x : A) : list A := l ++ [x].

(** [l.pop()]: the last element (or undefined) and the shortened array. *)
Definition pop (l : list A) : option A * list A :=
  (last l, removelast l).

End Arrays.

(** Objects enumerated with [for ... in]: keys in insertion order. *)
Section Objects.
Context {V : Type}.

Fixpoint obj_get (o : list (string * V)) (k : string) : option V :=
  match o with
  | [] => None
  | (k', v) :: o' => if decide (k' = k) then Some v else obj_get o' k
  end.

Fixpoint obj_set (o : list (string * V)) (k : string) (v : V) : list (string * V) :=
  match o with
  | [] => [(k, v)]
  | (k', v') :: o' =>
      if decide (k' = k) then (k, v) :: o' else (k', v') :: obj_set o' k v
  end.

Fixpoint obj_delete (o : list (string * V)) (k : string) : list (string * V) :=
  match o with
  | [] => []
  | (k', v') :: o' =>
      if decide (k' = k) then obj_delete o' k else (k', v') :: obj_delete o' k
  end.

End Objects.

(** A property that may hold [undefined]: truthiness of [o[k]]. *)
Definition prop_get {V : Type} (o : gmap string (option V)) (k : string) : option V :=
  match o !! k with
  | Some v => v
  | None => None
  end.

(** ** PropTypes.js *)

(** JavaScript values. Numbers are restricted to integers; [VRef] is a
    reference to an array or object in the heap. *)
Inductive value :=
  | VUndefined
  | VNull
  | VBool (b : bool)
  | VNumber (n : Z)
  | VString (s : string)
  | VRef (a : nat).

#[global] Instance value_eq_dec : EqDecision value.
Proof. solve_decision. Defined.

(** The clone and copy functions of the built-in types, by name; what
    each does is defined with the heap below. ([cloneClonable] and
    [copyCopyable], which no built-in type uses, call methods of the
    values and are not modelled.) *)
Inductive CloneFn := FcloneValue | FcloneArray | FcloneJSON.
Inductive CopyFn := FcopyValue | FcopyArray | FcopyJSON.

#[global] Instance CloneFn_eq_dec : EqDecision CloneFn.
Proof. solve_decision. Defined.
#[global] Instance CopyFn_eq_dec : EqDecision CopyFn.
Proof. solve_decision. Defined.

(** A type descriptor [{ name, default, clone, copy }]; a field that is
    [None] is a property the descriptor object does not have. *)
Module PT.
Record t := mk {
  name : option string;
  default : option value;
  clone : option CloneFn;
  copy : option CopyFn
}.
End PT.

#[global] Instance PT_eq_dec : EqDecision PT.t.
Proof. solve_decision. Defined.

(** [createType(name, defaultValue, clone, copy)]: the object has the four
    properties whatever the call passes. An argument that is left out is
    undefined: [None] for the name, the [clone] and the [copy], and
    [VUndefined] for the default, which is an own property all the same. *)
Definition createType (name : option string) (defaultValue : value)
    (clone : option CloneFn) (copy : option CopyFn) : PT.t :=
  PT.mk name (Some defaultValue) clone copy.

(** The shared empty array that is [PropTypes.Array.default]. *)
Definition arrayDefaultRef : nat := 0%nat.

Module PropTypes.
Definition Number := PT.mk (Some "Number"%string) (Some (VNumber 0)) (Some FcloneValue) (Some FcopyValue).
Definition Boolean := PT.mk (Some "Boolean"%string) (Some (VBool false)) (Some FcloneValue) (Some FcopyValue).
Definition String := PT.mk (Some "String"%string) (Some (VString "")) (Some FcloneValue) (Some FcopyValue).
Definition Object := PT.mk (Some "Object"%string) (Some VUndefined) (Some FcloneValue) (Some FcopyValue).
Definition Array := PT.mk (Some "Array"%string) (Some (VRef arrayDefaultRef)) (Some FcloneArray) (Some FcopyArray).
Definition JSON := PT.mk (Some "JSON"%string) (Some VNull) (Some FcloneJSON) (Some FcopyJSON).
End PropTypes.

(** ** Component types and component instances *)

(** One entry of a component schema; [type] is [None] when the entry has
    no (or a falsy) [type] property. *)
Module SP.
Record t := mk { type : option PT.t }.
End SP.

#[global] Instance SP_eq_dec : EqDecision SP.t.
Proof. solve_decision. Defined.

(** A component class. [id] stands for the identity of the class object:
    [indexOf] compares classes by identity, while the dictionaries of an
    entity and of the world are keyed by [name]. *)
Module CT.
Record t := mk {
  id : nat;
  name : string;
  isSystemStateComponent : bool;
  schema : option (list (string * SP.t))
}.
End CT.

#[global] Instance CT_eq_dec : EqDecision CT.t.
Proof. solve_decision. Defined.

(** A component instance, by identity. [_pool] tells whether the instance
    belongs to the pool of its type. The values of its fields are not part
    of the lifecycle state; in the heap further down they are the
    properties of the object at address [ref]. *)
Module C.
Record t := mk {
  ref : nat;
  constructor : CT.t;
  _pool : bool
}.
End C.

#[global] Instance C_eq_dec : EqDecision C.t.
Proof. solve_decision. Defined.

(** ** Entity.js, World.js: the data *)

(** An entity object (the fields set by the constructor of [Entity], and
    [_pool], which the entity pool sets on the instances it creates).
    [queries] holds the keys of the queries the entity is listed in. *)
Module E.
Record t := mk {
  _id : nat;
  componentTypes : list CT.t;
  components : list (string * C.t);
  _componentsToRemove : gmap string (option C.t);
  queries : list string;
  _componentTypesToRemove : list CT.t;
  _alive : bool;
  _numSystemStateComponents : Z;
  _pool : bool
}.

Definition set__id v e :=
  mk v (componentTypes e) (components e) (_componentsToRemove e) (queries e)
     (_componentTypesToRemove e) (_alive e) (_numSystemStateComponents e) (_pool e).
Definition set_componentTypes v e :=
  mk (_id e) v (components e) (_componentsToRemove e) (queries e)
     (_componentTypesToRemove e) (_alive e) (_numSystemStateComponents e) (_pool e).
Definition set_components v e :=
  mk (_id e) (componentTypes e) v (_componentsToRemove e) (queries e)
     (_componentTypesToRemove e) (_alive e) (_numSystemStateComponents e) (_pool e).
Definition set__componentsToRemove v e :=
  mk (_id e) (componentTypes e) (components e) v (queries e)
     (_componentTypesToRemove e) (_alive e) (_numSystemStateComponents e) (_pool e).
Definition set_queries v e :=
  mk (_id e) (componentTypes e) (components e) (_componentsToRemove e) v
     (_componentTypesToRemove e) (_alive e) (_numSystemStateComponents e) (_pool e).
Definition set__componentTypesToRemove v e :=
  mk (_id e) (componentTypes e) (components e) (_componentsToRemove e) (queries e)
     v (_alive e) (_numSystemStateComponents e) (_pool e).
Definition set__alive v e :=
  mk (_id e) (componentTypes e) (components e) (_componentsToRemove e) (queries e)
     (_componentTypesToRemove e) v (_numSystemStateComponents e) (_pool e).
Definition set__numSystemStateComponents v e :=
  mk (_id e) (componentTypes e) (components e) (_componentsToRemove e) (queries e)
     (_componentTypesToRemove e) (_alive e) v (_pool e).
Definition set__pool v e :=
  mk (_id e) (componentTypes e) (components e) (_componentsToRemove e) (queries e)
     (_componentTypesToRemove e) (_alive e) (_numSystemStateComponents e) v.

(** The object built by [new Entity(world)] when the world's next id is [id]. *)
Definition fresh (id : nat) : t :=
  mk id [] [] ∅ [] [] false 0 false.
End E.

(** A cached query: its key in [world.queries], the two type lists of its
    predicate and the entities currently listed. *)
Module Q.
Record t := mk {
  key : string;
  Components : list CT.t;
  NotComponents : list CT.t;
  entities : list nat;
  reactive : bool
}.

Definition set_entities v q :=
  mk (key q) (Components q) (NotComponents q) v (reactive q).
End Q.

(** An object pool: the free list and the number of instances created. *)
Module OP.
Record t (A : Type) := mk { freeList : list A; count : nat }.
Arguments mk {A} _ _.
Arguments freeList {A} _.
Arguments count {A} _.
End OP.

(** The world. [store] holds the entity objects, an entity reference being
    a key of it; [nextObject] numbers the objects (entities and component
    instances) created so far and gives each its identity; [console]
    collects the texts passed to [console.warn]. The other fields are those
    of the constructor of [World]. *)
Module W.
Record t := mk {
  store : gmap nat E.t;
  nextObject : nat;
  console : list string;
  entityPool : OP.t nat;
  entities : list nat;
  entitiesById : gmap nat nat;
  nextEntityId : nat;
  entitiesWithComponentsToRemove : list nat;
  entitiesToRemove : list nat;
  deferredRemovalEnabled : bool;
  componentTypes : gmap string CT.t;
  componentPools : gmap string (option (OP.t C.t));
  componentCounts : gmap string (option Z);
  queries : list Q.t;
  enabled : bool
}.

Definition set_store v w :=
  mk v (nextObject w) (console w) (entityPool w) (entities w) (entitiesById w)
     (nextEntityId w) (entitiesWithComponentsToRemove w) (entitiesToRemove w)
     (deferredRemovalEnabled w) (componentTypes w) (componentPools w)
     (componentCounts w) (queries w) (enabled w).
Definition set_nextObject v w :=
  mk (store w) v (console w) (entityPool w) (entities w) (entitiesById w)
     (nextEntityId w) (entitiesWithComponentsToRemove w) (entitiesToRemove w)
     (deferredRemovalEnabled w) (componentTypes w) (componentPools w)
     (componentCounts w) (queries w) (enabled w).
Definition set_console v w :=
  mk (store w) (nextObject w) v (entityPool w) (entities w) (entitiesById w)
     (nextEntityId w) (entitiesWithComponentsToRemove w) (entitiesToRemove w)
     (deferredRemovalEnabled w) (componentTypes w) (componentPools w)
     (componentCounts w) (queries w) (enabled w).
Definition set_entityPool v w :=
  mk (store w) (nextObject w) (console w) v (entities w) (entitiesById w)
     (nextEntityId w) (entitiesWithComponentsToRemove w) (entitiesToRemove w)
     (deferredRemovalEnabled w) (componentTypes w) (componentPools w)
     (componentCounts w) (queries w) (enabled w).
Definition set_entities v w :=
  mk (store w) (nextObject w) (console w) (entityPool w) v (entitiesById w)
     (nextEntityId w) (entitiesWithComponentsToRemove w) (entitiesToRemove w)
     (deferredRemovalEnabled w) (componentTypes w) (componentPools w)
     (componentCounts w) (queries w) (enabled w).
Definition set_entitiesById v w :=
  mk (store w) (nextObject w) (console w) (entityPool w) (entities w) v
     (nextEntityId w) (entitiesWithComponentsToRemove w) (entitiesToRemove w)
     (deferredRemovalEnabled w) (componentTypes w) (componentPools w)
     (componentCounts w) (queries w) (enabled w).
Definition set_nextEntityId v w :=
  mk (store w) (nextObject w) (console w) (entityPool w) (entities w) (entitiesById w)
     v (entitiesWithComponentsToRemove w) (entitiesToRemove w)
     (deferredRemovalEnabled w) (componentTypes w) (componentPools w)
     (componentCounts w) (queries w) (enabled w).
Definition set_entitiesWithComponentsToRemove v w :=
  mk (store w) (nextObject w) (console w) (entityPool w) (entities w) (entitiesById w)
     (nextEntityId w) v (entitiesToRemove w)
     (deferredRemovalEnabled w) (componentTypes w) (componentPools w)
     (componentCounts w) (queries w) (enabled w).
Definition set_entitiesToRemove v w :=
  mk (store w) (nextObject w) (console w) (entityPool w) (entities w) (entitiesById w)
     (nextEntityId w) (entitiesWithComponentsToRemove w) v
     (deferredRemovalEnabled w) (componentTypes w) (componentPools w)
     (componentCounts w) (queries w) (enabled w).
Definition set_componentTypes v w :=
  mk (store w) (nextObject w) (console w) (entityPool w) (entities w) (entitiesById w)
     (nextEntityId w) (entitiesWithComponentsToRemove w) (entitiesToRemove w)
     (deferredRemovalEnabled w) v (componentPools w)
     (componentCounts w) (queries w) (enabled w).
Definition set_componentPools v w :=
  mk (store w) (nextObject w) (console w) (entityPool w) (entities w) (entitiesById w)
     (nextEntityId w) (entitiesWithComponentsToRemove w) (entitiesToRemove w)
     (deferredRemovalEnabled w) (componentTypes w) v
     (componentCounts w) (queries w) (enabled w).
Definition set_componentCounts v w :=
  mk (store w) (nextObject w) (console w) (entityPool w) (entities w) (entitiesById w)
     (nextEntityId w) (entitiesWithComponentsToRemove w) (entitiesToRemove w)
     (deferredRemovalEnabled w) (componentTypes w) (componentPools w)
     v (queries w) (enabled w).
Definition set_queries v w :=
  mk (store w) (nextObject w) (console w) (entityPool w) (entities w) (entitiesById w)
     (nextEntityId w) (entitiesWithComponentsToRemove w) (entitiesToRemove w)
     (deferredRemovalEnabled w) (componentTypes w) (componentPools w)
     (componentCounts w) v (enabled w).
Definition set_enabled v w :=
  mk (store w) (nextObject w) (console w) (entityPool w) (entities w) (entitiesById w)
     (nextEntityId w) (entitiesWithComponentsToRemove w) (entitiesToRemove w)
     (deferredRemovalEnabled w) (componentTypes w) (componentPools w)
     (componentCounts w) (queries w) v.

(** The fields set by [new World()]. *)
Definition new : t :=
  mk ∅ 0 [] (OP.mk [] 0) [] ∅ 0 [] [] true ∅ ∅ ∅ [] true.
End W.

(** Reading and writing the entity object behind a reference. The code
    only holds references to objects it has created; a reference the store
    does not hold reads as a blank object. *)
Definition getE (w : W.t) (r : nat) : E.t :=
  default (E.fresh 0) (W.store w !! r).

Definition updE (w : W.t) (r : nat) (f : E.t → E.t) : W.t :=
  W.set_store (<[r := f (getE w r)]> (W.store w)) w.

Definition warn (w : W.t) (msg : string) : W.t :=
  W.set_console (push (W.console w) msg) w.

(** ** Entity.js: readers *)

(** [getComponent(Component, includeRemoved)], with [DEBUG = false]. *)
Definition Entity_getComponent (e : E.t) (Component : CT.t) (includeRemoved : bool)
    : option C.t :=
  let component := obj_get (E.components e) (CT.name Component) in
  match component with
  | None =>
      if includeRemoved then prop_get (E._componentsToRemove e) (CT.name Component)
      else component
  | Some _ => component
  end.

Definition Entity_getRemovedComponent (e : E.t) (Component : CT.t) : option C.t :=
  prop_get (E._componentsToRemove e) (CT.name Component).

Definition Entity_hasRemovedComponent (e : E.t) (Component : CT.t) : bool :=
  includes (E._componentTypesToRemove e) Component.

Definition Entity_hasComponent (e : E.t) (Component : CT.t) (includeRemoved : bool)
    : bool :=
  includes (E.componentTypes e) Component
  || (includeRemoved && Entity_hasRemovedComponent e Component).

Fixpoint Entity_hasAllComponents (e : E.t) (Components : list CT.t) : bool :=
  match Components with
  | [] => true
  | Component :: rest =>
      if negb (Entity_hasComponent e Component false) then false
      else Entity_hasAllComponents e rest
  end.

Fixpoint Entity_hasAnyComponents (e : E.t) (Components : list CT.t) : bool :=
  match Components with
  | [] => false
  | Component :: rest =>
      if Entity_hasComponent e Component false then true
      else Entity_hasAnyComponents e rest
  end.

(** ** Query.js, ObjectPool.js, Component.js: the parts the core calls *)

(** Modelled from the spec: [Query.match] (Query.js is not among the
    sources). An entity matches iff it holds every type of [Components]
    and none of [NotComponents]. *)
Definition Query_match (q : Q.t) (e : E.t) : bool :=
  Entity_hasAllComponents e (Q.Components q)
  && negb (Entity_hasAnyComponents e (Q.NotComponents q)).

Definition updQ (w : W.t) (i : nat) (f : Q.t → Q.t) : W.t :=
  W.set_queries (alter f i (W.queries w)) w.

(** Modelled from the spec: [Query.addEntity] (Query.js is not among the
    sources). Pushes the query into the entity's back-reference list and
    the entity into the query's [entities]. *)
Definition Query_addEntity (w : W.t) (i : nat) (entity : nat) : W.t :=
  match W.queries w !! i with
  | None => w
  | Some query =>
      let w := updE w entity (fun e => E.set_queries (push (E.queries e) (Q.key query)) e) in
      updQ w i (fun q => Q.set_entities (push (Q.entities q) entity) q)
  end.

(** Modelled from the spec: [Query.removeEntity] (Query.js is not among
    the sources). Takes the entity out of the query's [entities] and the
    query out of the entity's back-reference list; nothing happens when the
    entity is not listed. *)
Definition Query_removeEntity (w : W.t) (i : nat) (entity : nat) : W.t :=
  match W.queries w !! i with
  | None => w
  | Some query =>
      let index := indexOf (Q.entities query) entity in
      if index =? -1 then w
      else
        let w := updQ w i (fun q => Q.set_entities (splice1 (Q.entities q) index) q) in
        updE w entity (fun e =>
          let index := indexOf (E.queries e) (Q.key query) in
          if index =? -1 then e
          else E.set_queries (splice1 (E.queries e) index) e)
  end.

(** Modelled from the spec: [ObjectPool.release] (ObjectPool.js is not
    among the sources). The instance is pushed onto the free list. *)
Definition ObjectPool_release {A : Type} (p : OP.t A) (item : A) : OP.t A :=
  OP.mk (push (OP.freeList p) item) (OP.count p).

(** Modelled from the spec: [Component.dispose] (Component.js is not among
    the sources). The instance returns to its pool, which is the pool the
    world keeps for its type. *)
Definition Component_dispose (w : W.t) (component : C.t) : W.t :=
  if C._pool component then
    W.set_componentPools
      (alter (fmap (fun p => ObjectPool_release p component))
             (CT.name (C.constructor component)) (W.componentPools w)) w
  else w.

(** ** World.js: the indexing core *)

Definition counts_incr (m : gmap string (option Z)) (k : string) (d : Z)
    : gmap string (option Z) :=
  <[k := match m !! k with
         | Some (Some n) => Some (n + d)
         | _ => None
         end]> m.

(** Body of the loop of [onComponentAdded] for the query at position [i]. *)
Definition onComponentAdded_query (entity : nat) (Component : CT.t)
    (w : W.t) (i : nat) : W.t :=
  match W.queries w !! i with
  | None => w
  | Some query =>
      if includes (Q.NotComponents query) Component
         && includes (Q.entities query) entity
      then Query_removeEntity w i entity
      else if negb (includes (Q.Components query) Component)
              || negb (Query_match query (getE w entity))
              || includes (Q.entities query) entity
      then w
      else Query_addEntity w i entity
  end.

Definition World_onComponentAdded (w : W.t) (entity : nat) (Component : CT.t) : W.t :=
  let w :=
    match W.componentTypes w !! CT.name Component with
    | None => warn w ("Component " +:+ CT.name Component +:+ " not registered.")
    | Some _ => w
    end in
  let w := W.set_componentCounts (counts_incr (W.componentCounts w) (CT.name Component) 1) w in
  foldl (onComponentAdded_query entity Component) w (seq 0 (length (W.queries w))).

Definition World_queueComponentRemoval (w : W.t) (entity : nat) : W.t :=
  let index := indexOf (W.entitiesWithComponentsToRemove w) entity in
  if index =? -1 then
    W.set_entitiesWithComponentsToRemove
      (push (W.entitiesWithComponentsToRemove w) entity) w
  else w.

(** Body of the loop of [onRemoveComponent] for the query at position [i]. *)
Definition onRemoveComponent_query (entity : nat) (Component : CT.t)
    (w : W.t) (i : nat) : W.t :=
  match W.queries w !! i with
  | None => w
  | Some query =>
      if includes (Q.NotComponents query) Component
         && negb (includes (Q.entities query) entity)
         && Query_match query (getE w entity)
      then Query_addEntity w i entity
      else if includes (Q.Components query) Component
              && includes (Q.entities query) entity
              && negb (Query_match query (getE w entity))
      then Query_removeEntity w i entity
      else w
  end.

Definition World_onRemoveComponent (w : W.t) (entity : nat) (Component : CT.t) : W.t :=
  let w := W.set_componentCounts (counts_incr (W.componentCounts w) (CT.name Component) (-1)) w in
  foldl (onRemoveComponent_query entity Component) w (seq 0 (length (W.queries w))).

Definition World_queueEntityDisposal (w : W.t) (entity : nat) : W.t :=
  W.set_entitiesToRemove (push (W.entitiesToRemove w) entity) w.

Definition World_onEntityDisposed (w : W.t) (entity : nat) : W.t :=
  match W.entitiesById w !! E._id (getE w entity) with
  | None => w
  | Some _ =>
      let w := W.set_entitiesById (delete (E._id (getE w entity)) (W.entitiesById w)) w in
      let index := indexOf (W.entities w) entity in
      if index =? -1 then w
      else W.set_entities (splice1 (W.entities w) index) w
  end.

Definition World_getComponentPool (w : W.t) (Component : CT.t) : option (OP.t C.t) :=
  match W.componentPools w !! CT.name Component with
  | Some p => p
  | None => None
  end.

(** ** Entity.js: attach, detach, dispose *)

(** The part of [dispose] after its [if (this._alive)] block. *)
Definition Entity_disposeDead (w : W.t) (this : nat) (immediately : bool) : W.t :=
  let w := updE w this (E.set__alive false) in
  if immediately then
    let id := W.nextEntityId w in
    let w := W.set_nextEntityId (S id) w in
    let w := updE w this (E.set__id id) in
    let w := World_onEntityDisposed w this in
    if E._pool (getE w this) then
      W.set_entityPool (ObjectPool_release (W.entityPool w) this) w
    else w
  else World_queueEntityDisposal w this.

(** [removeComponent(Component, immediately)]. Its call [this.dispose()]
    sits behind the test [!this._alive], so only the part of [dispose]
    after the [if (this._alive)] block runs there, in deferred mode. *)
Definition Entity_removeComponent (w : W.t) (this : nat) (Component : CT.t)
    (immediately : bool) : W.t :=
  let componentName := CT.name Component in
  let component := obj_get (E.components (getE w this)) componentName in
  let w :=
    match prop_get (E._componentsToRemove (getE w this)) componentName with
    | Some _ => w
    | None =>
        let w := updE w this (fun e =>
          E.set_components (obj_delete (E.components e) componentName) e) in
        let w := updE w this (fun e =>
          let index := indexOf (E.componentTypes e) Component in
          E.set_componentTypes (splice1 (E.componentTypes e) index) e) in
        if E._alive (getE w this) then World_onRemoveComponent w this Component
        else w
    end in
  let w :=
    if immediately then
      let w :=
        match component with
        | Some c => Component_dispose w c
        | None => w
        end in
      match prop_get (E._componentsToRemove (getE w this)) componentName with
      | Some _ =>
          updE w this (fun e =>
            let e := E.set__componentsToRemove
                       (delete componentName (E._componentsToRemove e)) e in
            let index := indexOf (E._componentTypesToRemove e) Component in
            if index =? -1 then e
            else E.set__componentTypesToRemove
                   (splice1 (E._componentTypesToRemove e) index) e)
      | None => w
      end
    else if E._alive (getE w this) then
      let w := updE w this (fun e =>
        E.set__componentTypesToRemove (push (E._componentTypesToRemove e) Component) e) in
      let w := updE w this (fun e =>
        E.set__componentsToRemove
          (<[componentName := component]> (E._componentsToRemove e)) e) in
      World_queueComponentRemoval w this
    else w in
  if CT.isSystemStateComponent Component then
    let w := updE w this (fun e =>
      E.set__numSystemStateComponents (E._numSystemStateComponents e - 1) e) in
    if (E._numSystemStateComponents (getE w this) =? 0)
       && negb (E._alive (getE w this))
    then Entity_disposeDead w this false
    else w
  else w.

(** The loop of [processRemovedComponents]; each round pops one type and
    [removeComponent(_, true)] pushes none, so the length of the list on
    entry is enough fuel (see [processRemovedComponents_drains]). *)
Fixpoint processRemovedComponents_loop (fuel : nat) (w : W.t) (this : nat) : W.t :=
  match fuel with
  | O => w
  | S fuel' =>
      match pop (E._componentTypesToRemove (getE w this)) with
      | (Some Component, rest) =>
          let w := updE w this (E.set__componentTypesToRemove rest) in
          processRemovedComponents_loop fuel' (Entity_removeComponent w this Component true) this
      | (None, _) => w
      end
  end.

Definition Entity_processRemovedComponents (w : W.t) (this : nat) : W.t :=
  processRemovedComponents_loop
    (length (E._componentTypesToRemove (getE w this))) w this.

(** The loop of [removeAllComponents], entered with [j1 = j + 1]. The
    array [Components] is the entity's own [componentTypes], read again at
    every round; [None] is the TypeError of reading [.name] of undefined. *)
Fixpoint removeAllComponents_from (j1 : nat) (w : W.t) (this : nat)
    (immediately : bool) : option W.t :=
  match j1 with
  | O => Some w
  | S j =>
      match E.componentTypes (getE w this) !! j with
      | None => None
      | Some Component =>
          removeAllComponents_from j
            (Entity_removeComponent w this Component immediately) this immediately
      end
  end.

Definition Entity_removeAllComponents (w : W.t) (this : nat) (immediately : bool)
    : option W.t :=
  removeAllComponents_from (length (E.componentTypes (getE w this))) w this immediately.

Definition Entity_dispose (w : W.t) (this : nat) (immediately : bool) : option W.t :=
  if E._alive (getE w this) then
    w ← Entity_removeAllComponents w this immediately;
    Some (Entity_disposeDead (updE w this (E.set_queries [])) this immediately)
  else Some (Entity_disposeDead w this immediately).

(** [attachComponent(component)]. The value returned ([this], or undefined
    on the early return) is not modelled. *)
Definition Entity_attachComponent (w : W.t) (this : nat) (component : C.t) : W.t :=
  let Component := C.constructor component in
  if includes (E.componentTypes (getE w this)) Component then w
  else
    let w := updE w this (fun e =>
      E.set_componentTypes (push (E.componentTypes e) Component) e) in
    let w :=
      if CT.isSystemStateComponent Component then
        updE w this (fun e =>
          E.set__numSystemStateComponents (E._numSystemStateComponents e + 1) e)
      else w in
    let w := updE w this (fun e =>
      E.set_components (obj_set (E.components e) (CT.name Component) component) e) in
    if E._alive (getE w this) then World_onComponentAdded w this Component
    else w.

(** ** Object pools *)

Section Pools.

(** The number of further instances a pool creates, beyond the one it hands
    out, when its free list is empty, from the number created so far. The
    policy is in ObjectPool.js, which is not among the sources. *)
Variable expansion : nat → nat.

Section Acquire.
Context {St A : Type} (factory : St → St * A).

Fixpoint ObjectPool_expand (n : nat) (s : St) (fl : list A) : St * list A :=
  match n with
  | O => (s, fl)
  | S n' => let '(s, a) := factory s in ObjectPool_expand n' s (push fl a)
  end.

(** Modelled from the spec: [ObjectPool.acquire] (ObjectPool.js is not
    among the sources). Pops from the free list if it is not empty;
    otherwise creates a batch of new instances, pushes all but one onto
    the free list and returns one. *)
Definition ObjectPool_acquire (s : St) (p : OP.t A) : St * OP.t A * A :=
  match pop (OP.freeList p) with
  | (Some item, rest) => (s, OP.mk rest (OP.count p), item)
  | (None, _) =>
      let n := expansion (OP.count p) in
      let '(s, fl) := ObjectPool_expand n s (OP.freeList p) in
      let '(s, item) := factory s in
      (s, OP.mk fl (OP.count p + S n)%nat, item)
  end.

End Acquire.

(** [new Entity(world)]: the object is allocated in the store and takes the
    world's next id. *)
Definition Entity_new (w : W.t) : W.t * nat :=
  let id := W.nextEntityId w in
  let r := W.nextObject w in
  let w := W.set_nextObject (S r) w in
  let w := W.set_nextEntityId (S id) w in
  (W.set_store (<[r := E.fresh id]> (W.store w)) w, r).

(** An entity created by the entity pool, which records itself in [_pool]. *)
Definition Entity_newPooled (w : W.t) : W.t * nat :=
  let '(w, r) := Entity_new w in
  (updE w r (E.set__pool true), r).

(** [new Component(props)], by identity. *)
Definition Component_new (Component : CT.t) (pooled : bool) (w : W.t) : W.t * C.t :=
  (W.set_nextObject (S (W.nextObject w)) w, C.mk (W.nextObject w) Component pooled).

Definition World_createDetachedEntity (w : W.t) : W.t * nat :=
  let '(w, p, entity) := ObjectPool_acquire Entity_newPooled w (W.entityPool w) in
  (W.set_entityPool p w, entity).

(** [addComponent(Component, props)]. [component.copy(props)] writes the
    fields of the instance only, which this state does not hold. *)
Definition Entity_addComponent (w : W.t) (this : nat) (Component : CT.t) : W.t :=
  if includes (E.componentTypes (getE w this)) Component then w
  else
    let w := updE w this (fun e =>
      E.set_componentTypes (push (E.componentTypes e) Component) e) in
    let w :=
      if CT.isSystemStateComponent Component then
        updE w this (fun e =>
          E.set__numSystemStateComponents (E._numSystemStateComponents e + 1) e)
      else w in
    let componentPool := World_getComponentPool w Component in
    let '(w, component) :=
      match componentPool with
      | None => Component_new Component false w
      | Some pool =>
          let '(w, p, c) := ObjectPool_acquire (Component_new Component true) w pool in
          (W.set_componentPools (<[CT.name Component := Some p]> (W.componentPools w)) w, c)
      end in
    let w := updE w this (fun e =>
      E.set_components (obj_set (E.components e) (CT.name Component) component) e) in
    if E._alive (getE w this) then World_onComponentAdded w this Component
    else w.

End Pools.

(** ** World.js: entities and the flush *)

(** [addEntity(entity)]. The loop over [entity.componentTypes] runs on the
    array as it is on entry: [onComponentAdded] does not write it. *)
Definition World_addEntity (w : W.t) (entity : nat) : W.t :=
  match W.entitiesById w !! E._id (getE w entity) with
  | Some _ =>
      warn w ("Entity " +:+ pretty (E._id (getE w entity)) +:+ " already added.")
  | None =>
      let w := W.set_entitiesById
                 (<[E._id (getE w entity) := entity]> (W.entitiesById w)) w in
      let w := W.set_entities (push (W.entities w) entity) w in
      let w := updE w entity (E.set__alive true) in
      foldl (fun w Component => World_onComponentAdded w entity Component)
            w (E.componentTypes (getE w entity))
  end.

Definition World_createEntity (expansion : nat → nat) (w : W.t) : W.t * nat :=
  let '(w, entity) := World_createDetachedEntity expansion w in
  (World_addEntity w entity, entity).

(** First loop of [processDeferredRemoval]: [dispose(true)] on the entity
    at each index of [entitiesToRemove]. *)
Fixpoint disposeQueued (fuel : nat) (i : nat) (w : W.t) : option W.t :=
  match fuel with
  | O => Some w
  | S fuel' =>
      match W.entitiesToRemove w !! i with
      | None => Some w
      | Some entity =>
          w ← Entity_dispose w entity true;
          disposeQueued fuel' (S i) w
      end
  end.

(** Second loop: [processRemovedComponents] on the entity at each index of
    [entitiesWithComponentsToRemove]. *)
Fixpoint flushQueued (fuel : nat) (i : nat) (w : W.t) : W.t :=
  match fuel with
  | O => w
  | S fuel' =>
      match W.entitiesWithComponentsToRemove w !! i with
      | None => w
      | Some entity => flushQueued fuel' (S i) (Entity_processRemovedComponents w entity)
      end
  end.

(** [processDeferredRemoval()]. Neither loop body lengthens the array its
    loop runs over, so the length on entry is enough fuel. *)
Definition World_processDeferredRemoval (w : W.t) : option W.t :=
  if negb (W.deferredRemovalEnabled w) then Some w
  else
    w ← disposeQueued (length (W.entitiesToRemove w)) 0 w;
    let w := W.set_entitiesToRemove [] w in
    let w := flushQueued (length (W.entitiesWithComponentsToRemove w)) 0 w in
    Some (W.set_entitiesWithComponentsToRemove [] w).

(** ** World.js: registerComponent *)

(** How a call ends: normally, or with [throw new Error(msg)]; either way
    with the world as the call left it. *)
Inductive outcome :=
  | Return (w : W.t)
  | Throw (w : W.t) (msg : string).

(** The second argument of [registerComponent]. *)
Inductive poolArg :=
  | PoolFalse
  | PoolUndefined
  | PoolGiven (p : OP.t C.t).

Definition dquote : string := String (Ascii.ascii_of_nat 34) EmptyString.

Definition quoted (s : string) : string := dquote +:+ s +:+ dquote.

(** [!prop.type.name]: the name is missing or empty. *)
Definition falsy_name (n : option string) : bool :=
  match n with
  | None => true
  | Some s => bool_decide (s = ""%string)
  end.

Definition type_name (n : option string) : string :=
  match n with
  | None => "undefined"
  | Some s => s
  end.

(** The loop of [registerComponent] over the properties of the schema. *)
Fixpoint validateSchema (w : W.t) (Component : CT.t)
    (schema : list (string * SP.t)) : outcome :=
  match schema with
  | [] => Return w
  | (propName, prop) :: rest =>
      let intro := "Invalid schema for component " +:+ quoted (CT.name Component) +:+ ". " in
      match SP.type prop with
      | None =>
          Throw w (intro +:+ "Missing type for " +:+ quoted propName +:+ " property.")
      | Some type =>
          let w :=
            if falsy_name (PT.name type) then
              warn w ("Schema for component " +:+ quoted (CT.name Component)
                      +:+ " has property " +:+ quoted propName
                      +:+ " which uses a type with no name.")
            else w in
          let uses := quoted propName +:+ " uses type "
                      +:+ quoted (type_name (PT.name type)) in
          match PT.default type with
          | None => Throw w (intro +:+ uses +:+ " with no default value.")
          | Some _ =>
              match PT.clone type with
              | None => Throw w (intro +:+ uses +:+ " with no clone method.")
              | Some _ =>
                  match PT.copy type with
                  | None => Throw w (intro +:+ uses +:+ " with no copy method.")
                  | Some _ => validateSchema w Component rest
                  end
              end
          end
      end
  end.

(** [new ObjectPool(new Component())]: an empty pool; the prototype
    instance it is built around takes the next object identity. *)
Definition ObjectPool_new (w : W.t) : W.t * OP.t C.t :=
  (W.set_nextObject (S (W.nextObject w)) w, OP.mk [] 0%nat).

Definition World_registerComponent (w : W.t) (Component : CT.t)
    (objectPool : poolArg) : outcome :=
  match W.componentTypes w !! CT.name Component with
  | Some _ =>
      Return (warn w ("Component type: '" +:+ CT.name Component
                      +:+ "' already registered."))
  | None =>
      match CT.schema Component with
      | None =>
          Throw w ("Component " +:+ quoted (CT.name Component)
                   +:+ " has no schema property.")
      | Some schema =>
          match validateSchema w Component schema with
          | Throw w msg => Throw w msg
          | Return w =>
              let w := W.set_componentTypes
                         (<[CT.name Component := Component]> (W.componentTypes w)) w in
              let w := W.set_componentCounts
                         (<[CT.name Component := Some 0]> (W.componentCounts w)) w in
              let '(w, objectPool) :=
                match objectPool with
                | PoolFalse => (w, None)
                | PoolUndefined =>
                    let '(w, p) := ObjectPool_new w in (w, Some p)
                | PoolGiven p => (w, Some p)
                end in
              Return (W.set_componentPools
                        (<[CT.name Component := objectPool]> (W.componentPools w)) w)
          end
      end
  end.

(** ** PropTypes.js on a heap of values *)

(** What a reference points to: an array or a plain object. *)
Inductive obj :=
  | OArray (elems : list value)
  | OObject (props : list (string * value)).

(** The heap: the object at address [a] is the [a]-th cell; [new] objects
    go to the end. *)
Abbreviation heap := (list obj).

Definition alloc (h : heap) (o : obj) : heap * value :=
  (h ++ [o], VRef (length h)).

(** [o[key]] on the plain object at address [a]. *)
Definition getProp (h : heap) (a : nat) (key : string) : option value :=
  match h !! a with
  | Some (OObject props) => Some (default VUndefined (obj_get props key))
  | _ => None
  end.

(** [o[key] = v] on the plain object at address [a]. *)
Definition setProp (h : heap) (a : nat) (key : string) (v : value) : option heap :=
  match h !! a with
  | Some (OObject props) => Some (<[a := OObject (obj_set props key v)]> h)
  | _ => None
  end.

(** JSON texts, as trees. The induction principle, with the items and
    members of arrays and objects covered, is [json_rect'] below. *)
#[local] Unset Elimination Schemes.
Inductive json :=
  | JNull
  | JBool (b : bool)
  | JNumber (n : Z)
  | JString (s : string)
  | JArray (items : list json)
  | JObject (members : list (string * json)).
#[local] Set Elimination Schemes.

(** The built-in [JSON.stringify], on the values of this model. The result
    is [None] for the TypeError on a cyclic structure, [Some None] for
    undefined. In an array undefined becomes null; in an object a property
    that is undefined is left out. *)
Fixpoint stringify (fuel : nat) (h : heap) (v : value) : option (option json) :=
  match v with
  | VUndefined => Some None
  | VNull => Some (Some JNull)
  | VBool b => Some (Some (JBool b))
  | VNumber n => Some (Some (JNumber n))
  | VString s => Some (Some (JString s))
  | VRef a =>
      match fuel with
      | O => None
      | S fuel' =>
          match h !! a with
          | Some (OArray elems) =>
              items ← mapM (λ v, default JNull <$> stringify fuel' h v) elems;
              Some (Some (JArray items))
          | Some (OObject props) =>
              members ← mapM (λ p, pair p.1 <$> stringify fuel' h p.2) props;
              Some (Some (JObject (omap (λ m, pair m.1 <$> m.2) members)))
          | None => None
          end
      end
  end.

(** A chain of distinct references is no longer than the heap, so the
    length of the heap is fuel enough for every structure without a
    cycle, and a cycle exhausts any fuel. *)
Definition JSON_stringify (h : heap) (v : value) : option (option json) :=
  stringify (length h) h v.

(** A list walked from left to right with the heap passed along. *)
Definition thread {A B : Type} (f : A → heap → heap * B)
    : list A → heap → heap * list B :=
  fix go (l : list A) (h : heap) : heap * list B :=
    match l with
    | [] => (h, [])
    | x :: l =>
        let '(h, y) := f x h in
        let '(h, ys) := go l h in
        (h, y :: ys)
    end.

(** The built-in [JSON.parse], on a text as a tree: every array and object
    of the text is a new object of the heap. *)
Fixpoint JSON_parse (j : json) (h : heap) : heap * value :=
  match j with
  | JNull => (h, VNull)
  | JBool b => (h, VBool b)
  | JNumber n => (h, VNumber n)
  | JString s => (h, VString s)
  | JArray items =>
      let '(h, elems) := thread JSON_parse items h in
      alloc h (OArray elems)
  | JObject members =>
      let '(h, props) :=
        thread (λ m h, let '(h, v) := JSON_parse m.2 h in (h, (m.1, v))) members h in
      alloc h (OObject props)
  end.

(** [cloneValue = src => src]. *)
Definition cloneValue (src : value) : value := src.

(** [copyValue = (src, dest, key) => (dest[key] = src[key])]. *)
Definition copyValue (h : heap) (src dest : nat) (key : string) : option (heap * value) :=
  v ← getProp h src key;
  h ← setProp h dest key v;
  Some (h, v).

(** [cloneArray = src => src.slice()]: a new array with the same elements
    (a string has [slice] too and is returned as it is); anything else has
    no [slice]. *)
Definition cloneArray (h : heap) (src : value) : option (heap * value) :=
  match src with
  | VRef a =>
      match h !! a with
      | Some (OArray elems) => Some (alloc h (OArray elems))
      | _ => None
      end
  | VString s => Some (h, VString s)
  | _ => None
  end.

(** [copyArray]: the destination array is emptied and then filled from the
    source array, read after the emptying; it keeps its identity. *)
Definition copyArray (h : heap) (src dest : nat) (key : string) : option (heap * value) :=
  srcArray ← getProp h src key;
  destArray ← getProp h dest key;
  match srcArray, destArray with
  | VRef sa, VRef da =>
      match h !! da with
      | Some (OArray _) =>
          let h := <[da := OArray []]> h in
          match h !! sa with
          | Some (OArray elems) => Some (<[da := OArray elems]> h, VRef da)
          | _ => None
          end
      | _ => None
      end
  | _, _ => None
  end.

(** [cloneJSON = src => JSON.parse(JSON.stringify(src))]; [JSON.parse]
    throws on undefined. *)
Definition cloneJSON (h : heap) (src : value) : option (heap * value) :=
  match JSON_stringify h src with
  | Some (Some j) => Some (JSON_parse j h)
  | _ => None
  end.

(** [copyJSON = (src, dest, key) =>
    (dest[key] = JSON.parse(JSON.stringify(src[key])))]. *)
Definition copyJSON (h : heap) (src dest : nat) (key : string) : option (heap * value) :=
  v ← getProp h src key;
  '(h, v') ← cloneJSON h v;
  h ← setProp h dest key v';
  Some (h, v').

(** Calling the [clone] and the [copy] of a type descriptor. *)
Definition call_clone (f : CloneFn) (h : heap) (src : value) : option (heap * value) :=
  match f with
  | FcloneValue => Some (h, cloneValue src)
  | FcloneArray => cloneArray h src
  | FcloneJSON => cloneJSON h src
  end.

Definition call_copy (f : CopyFn) (h : heap) (src dest : nat) (key : string)
    : option (heap * value) :=
  match f with
  | FcopyValue => copyValue h src dest key
  | FcopyArray => copyArray h src dest key
  | FcopyJSON => copyJSON h src dest key
  end.

(** ** Entity.js: copy *)

(** The loop of the model of [Component.clone] over the schema. *)
Fixpoint clone_fields (h : heap) (schema : list (string * SP.t))
    (fields : list (string * value)) : option (heap * list (string * value)) :=
  match schema with
  | [] => Some (h, [])
  | (key, prop) :: schema =>
      type ← SP.type prop;
      f ← PT.clone type;
      '(h, v) ← call_clone f h (default VUndefined (obj_get fields key));
      '(h, rest) ← clone_fields h schema fields;
      Some (h, (key, v) :: rest)
  end.

(** Modelled from the spec: [Component.clone] (Component.js is not among
    the sources). It produces an independent instance of the same type:
    a new object whose schema fields are the source's, each cloned by the
    [clone] of its type. *)
Definition Component_clone (h : heap) (c : C.t) : option (heap * C.t) :=
  match h !! C.ref c, CT.schema (C.constructor c) with
  | Some (OObject fields), Some schema =>
      '(h, fields') ← clone_fields h schema fields;
      Some (h ++ [OObject fields'], C.mk (length h) (C.constructor c) false)
  | _, _ => None
  end.

(** The loop of [copy(source)] over the entries of [source.components]. On
    [e.copy(e)] the loop assigns to the keys it enumerates and adds none,
    so the entries on entry are the entries it visits. *)
Fixpoint copy_loop (h : heap) (this : E.t) (entries : list (string * C.t))
    : option (heap * E.t) :=
  match entries with
  | [] => Some (h, this)
  | (componentName, sourceComponent) :: entries =>
      '(h, c) ← Component_clone h sourceComponent;
      let this := E.set_components (obj_set (E.components this) componentName c) this in
      let this := E.set_componentTypes
                    (push (E.componentTypes this) (C.constructor sourceComponent)) this in
      copy_loop h this entries
  end.

Definition Entity_copy (h : heap) (this source : E.t) : option (heap * E.t) :=
  copy_loop h this (E.components source).

(** [this.copy(source)] on references into the store of a world. *)
Definition Entity_copy_in (w : W.t) (h : heap) (this source : nat)
    : option (heap * W.t) :=
  '(h, e) ← Entity_copy h (getE w this) (getE w source);
  Some (h, updE w this (λ _, e)).

(** ** Predicates used in the statements *)

(** An entity object without its query back-references, and a world
    without the fields the notifications of the indexing core write. *)
Definition strip (e : E.t) : E.t := E.set_queries [] e.

Definition rest (w : W.t) : W.t :=
  W.set_store ∅ (W.set_queries [] (W.set_componentCounts ∅ (W.set_console [] w))).

(** [notified w w']: [w'] differs from [w] at most in what a notification
    of the indexing core writes: the [entities] of the cached queries, the
    [queries] back-references of the entities, the counts and the console. *)
Definition notified (w w' : W.t) : Prop :=
  rest w' = rest w
  ∧ (∀ r, strip (getE w' r) = strip (getE w r))
  ∧ (∀ i, Q.set_entities [] <$> W.queries w' !! i
          = Q.set_entities [] <$> W.queries w !! i).

(** [listed_once l x]: the array [l] holds [x] at exactly one index. *)
Definition listed_once {A : Type} (l : list A) (x : A) : Prop :=
  ∃ l1 l2, l = l1 ++ x :: l2 ∧ x ∉ l1 ∧ x ∉ l2.

(** Schema completeness in the words of the specification: the type has a
    schema, and every field of it has a type with a default, a [clone]
    and a [copy]. *)
Definition field_complete (prop : SP.t) : bool :=
  match SP.type prop with
  | None => false
  | Some type =>
      bool_decide (is_Some (PT.default type))
      && bool_decide (is_Some (PT.clone type))
      && bool_decide (is_Some (PT.copy type))
  end.

Definition schema_complete (Component : CT.t) : bool :=
  match CT.schema Component with
  | None => false
  | Some schema => forallb (λ p, field_complete p.2) schema
  end.

Definition throws (o : outcome) : Prop :=
  match o with
  | Throw _ _ => True
  | Return _ => False
  end.

(** The registry, the pools and the counts of a world. *)
Definition registry (w : W.t) :=
  (W.componentTypes w, W.componentPools w, W.componentCounts w).

(** ** Comparing the fields of components *)

(** [aliased v1 v2]: the two values are one and the same reference. *)
Definition aliased (v1 v2 : value) : Prop :=
  ∃ a, v1 = VRef a ∧ v2 = VRef a.

(** The value of the field [key] of a component instance. *)
Definition field (h : heap) (c : C.t) (key : string) : option value :=
  getProp h (C.ref c) key.

(** What a value of a type stands for: itself for the types cloned by
    [cloneValue], the elements for an array, the text for JSON. *)
Inductive datum :=
  | DValue (v : value)
  | DArray (elems : list value)
  | DJson (j : json).

Definition data_of (type : PT.t) (h : heap) (v : value) : option datum :=
  match PT.clone type with
  | Some FcloneArray =>
      match v with
      | VRef a =>
          match h !! a with
          | Some (OArray elems) => Some (DArray elems)
          | _ => None
          end
      | _ => None
      end
  | Some FcloneJSON =>
      match JSON_stringify h v with
      | Some (Some j) => Some (DJson j)
      | _ => None
      end
  | _ => Some (DValue v)
  end.

(** Two values of a type are value-equal when they stand for the same. *)
Definition value_equal (type : PT.t) (h : heap) (v1 v2 : value) : Prop :=
  ∃ d, data_of type h v1 = Some d ∧ data_of type h v2 = Some d.

(** The values a field of a built-in type holds. *)
Inductive has_type (h : heap) : PT.t → value → Prop :=
  | has_Number n : has_type h PropTypes.Number (VNumber n)
  | has_Boolean b : has_type h PropTypes.Boolean (VBool b)
  | has_String s : has_type h PropTypes.String (VString s)
  | has_Object v : has_type h PropTypes.Object v
  | has_Array a elems :
      h !! a = Some (OArray elems) → has_type h PropTypes.Array (VRef a)
  | has_JSON v j :
      JSON_stringify h v = Some (Some j) → has_type h PropTypes.JSON v.

(** A component instance whose schema fields are of built-in types and
    hold values of their types. *)
Definition well_typed (h : heap) (c : C.t) : Prop :=
  ∃ fields schema,
    h !! C.ref c = Some (OObject fields)
    ∧ CT.schema (C.constructor c) = Some schema
    ∧ NoDup schema.*1
    ∧ Forall (λ p, ∃ type, SP.type p.2 = Some type
                ∧ has_type h type (default VUndefined (obj_get fields p.1))) schema.

(** Two instances of one type whose fields stand for the same, field by
    field. *)
Definition akin (h : heap) (c1 c2 : C.t) : Prop :=
  C.constructor c1 = C.constructor c2
  ∧ well_typed h c1
  ∧ well_typed h c2
  ∧ ∀ schema key type,
      CT.schema (C.constructor c1) = Some schema →
      obj_get schema key = Some (SP.mk (Some type)) →
      ∃ v1 v2, field h c1 key = Some v1 ∧ field h c2 key = Some v2
               ∧ data_of type h v1 = data_of type h v2.

(** The built-in types other than Object. *)
Definition builtin_copying : list PT.t :=
  [PropTypes.JSON; PropTypes.Array; PropTypes.Number; PropTypes.Boolean;
   PropTypes.String].

(** ** Example worlds *)

(** A pool that, empty, creates a fifth of its count beyond the instance
    it hands out. *)
Definition policy (count : nat) : nat := (count / 5)%nat.

Definition numberField (k : string) : string * SP.t :=
  (k, SP.mk (Some PropTypes.Number)).

Definition Position : CT.t :=
  CT.mk 1 "Position" false (Some [numberField "x"; numberField "y"]).

Definition Velocity : CT.t :=
  CT.mk 2 "Velocity" false (Some [numberField "dx"; numberField "dy"]).

(** A system-state component type. *)
Definition Dying : CT.t := CT.mk 3 "Dying" true (Some []).

(** A second class that is also named Position and has no schema. *)
Definition PositionNoSchema : CT.t := CT.mk 4 "Position" false None.

Definition returned (o : outcome) : W.t :=
  match o with
  | Return w => w
  | Throw w _ => w
  end.

(** The world after registering the three types, with the cached query
    for [Position] that [getQuery([Position])] creates on it. *)
Definition world0 : W.t :=
  let w := returned (World_registerComponent W.new Position PoolUndefined) in
  let w := returned (World_registerComponent w Velocity PoolUndefined) in
  let w := returned (World_registerComponent w Dying PoolUndefined) in
  W.set_queries [Q.mk "Position" [Position] [] [] false] w.

(** [world.createEntity()] on [world0], and the entity it returns. *)
Definition created : W.t * nat := World_createEntity policy world0.

Definition hero : nat := created.2.

(** [hero.addComponent(Position)]. *)
Definition world1 : W.t := Entity_addComponent policy created.1 hero Position.

(** [hero.addComponent(Dying)] instead. *)
Definition world2 : W.t := Entity_addComponent policy created.1 hero Dying.

(** On [world1]: a deferred removal of Position, then Position added
    again, before any flush. *)
Definition world3 : W.t :=
  let w := Entity_removeComponent world1 hero Position false in
  Entity_addComponent policy w hero Position.


(** The world returned by an operation that can throw. *)
Definition run (o : option W.t) : W.t := default W.new o.

(** A component type with a field of each kind, an instance of it in a
    heap, and a world with two entities, the first of which holds it. *)
Definition Profile : CT.t :=
  CT.mk 5 "Profile" false
    (Some [("tags", SP.mk (Some PropTypes.Array));
           ("meta", SP.mk (Some PropTypes.JSON));
           ("score", SP.mk (Some PropTypes.Number));
           ("handle", SP.mk (Some PropTypes.Object))]).

Definition heapP : heap :=
  [OArray [];
   OArray [VNumber 1; VNumber 2];
   OObject [("a", VNumber 1); ("b", VRef 1)];
   OObject [];
   OObject [("tags", VRef 1); ("meta", VRef 2); ("score", VNumber 7);
            ("handle", VRef 3)]].

Definition profile : C.t := C.mk 4 Profile false.

Definition worldP : W.t :=
  let '(w, a) := World_createEntity policy W.new in
  let '(w, b) := World_createEntity policy w in
  Entity_attachComponent w a profile.

(** ** Entity.js, World.js: the remaining functions *)

Definition Entity_getComponents (e : E.t) : list (string * C.t) := E.components e.

Definition Entity_getComponentsToRemove (e : E.t) : gmap string (option C.t) :=
  E._componentsToRemove e.

Definition Entity_getComponentTypes (e : E.t) : list CT.t := E.componentTypes e.

(** [clone()]: [new this.constructor(this.world).copy(this)]. *)
Definition Entity_clone (w : W.t) (h : heap) (this : nat) : option (heap * W.t * nat) :=
  let '(w, r) := Entity_new w in
  '(h, w) ← Entity_copy_in w h r this;
  Some (h, w, r).

Definition World_stop (w : W.t) : W.t := W.set_enabled false w.

Definition World_play (w : W.t) : W.t := W.set_enabled true w.

(** ** Further predicates used in the statements *)

(** [indexed w r]: every cached query of [w] lists the entity [r] exactly
    when [r] matches it, and lists no entity twice. *)
Definition indexed (w : W.t) (r : nat) : Prop :=
  ∀ i q, W.queries w !! i = Some q →
    NoDup (Q.entities q)
    ∧ (r ∈ Q.entities q ↔ Query_match q (getE w r) = true).

(** [same_types w w']: the same cached queries, and on every entity the
    same component types. *)
Definition same_types (w w' : W.t) : Prop :=
  W.queries w' = W.queries w
  ∧ ∀ r, E.componentTypes (getE w' r) = E.componentTypes (getE w r).

(** No id from the world's next id upwards is in [entitiesById]. *)
Definition ids_fresh (w : W.t) : Prop :=
  ∀ id, (W.nextEntityId w ≤ id)%nat → W.entitiesById w !! id = None.

(** [listed_for w entity P]: no query lists an entity twice, and a query
    lists [entity] exactly when the entity matches it and one of the
    types of [P] is among those it requires. This is how far [addEntity]
    has got when it has gone through the types [P]. *)
Definition listed_for (w : W.t) (entity : nat) (P : list CT.t) : Prop :=
  ∀ i q, W.queries w !! i = Some q →
    NoDup (Q.entities q)
    ∧ (entity ∈ Q.entities q
       ↔ Query_match q (getE w entity) = true
         ∧ ∃ C, C ∈ P ∧ C ∈ Q.Components q).

(** A check of [indexed] that runs, for the entities that [P] selects:
    every query lists stored entities only, none twice, and a selected
    stored entity exactly when it matches; the blank object matches no
    query. *)
Definition index_ok_on (P : nat → bool) (w : W.t) : bool :=
  forallb (λ q,
    bool_decide (NoDup (Q.entities q))
    && forallb (λ r, bool_decide (is_Some (W.store w !! r))) (Q.entities q)
    && forallb (λ re, implb (P re.1)
                        (Bool.eqb (includes (Q.entities q) re.1) (Query_match q re.2)))
               (map_to_list (W.store w))
    && negb (Query_match q (E.fresh 0))) (W.queries w).

Definition index_ok (w : W.t) : bool := index_ok_on (λ _, true) w.

(** A check of [ids_fresh] that runs. *)
Definition ids_ok (w : W.t) : bool :=
  forallb (λ p, p.1 <? W.nextEntityId w)%nat (map_to_list (W.entitiesById w)).

(** ** Further example worlds *)

(** [world0] after [createDetachedEntity()], and the entity it returns,
    which the world does not list yet. *)
Definition detached : W.t * nat := World_createDetachedEntity policy world0.

(** The detached entity with a Position added before it joins the world. *)
Definition world5 : W.t := Entity_addComponent policy detached.1 detached.2 Position.

(** The entity of [worldP] that holds the profile. *)
Definition holder : nat := (World_createEntity policy W.new).2.

(** The world [removeAllComponents] leaves behind. *)
Definition stripped (w : W.t) (this : nat) (immediately : bool) : W.t :=
  run (Entity_removeAllComponents w this immediately).

(** The heap and the entity [copy] leaves behind. *)
Definition copied (h : heap) (this source : E.t) : heap * E.t :=
  default (h, this) (Entity_copy h this source).

(** [world1] after a deferred removal of Position from the hero, before
    any flush. *)
Definition world6 : W.t := Entity_removeComponent world1 hero Position false.

(** A component type whose one field uses [createType('T', 0)], a type
    built without [clone] and [copy]. *)
Definition Broken : CT.t :=
  CT.mk 6 "Broken" false
    (Some [("t", SP.mk (Some (createType (Some "T") (VNumber 0) None None)))]).

(** ** A query created late *)



(** * Basic facts *)

Section ArrayFacts.
Context {A : Type} `{EqDecision A}.

Lemma indexOf_from_ge (l : list A) (x : A) (i : Z) :
  indexOf_from l x i = -1 ∨ i ≤ indexOf_from l x i < i + Z.of_nat (length l).
Proof.
  revert i. induction l as [|y l IH]; intros i; simpl; [by left|].
  destruct (decide (y = x)); [right; lia|].
  destruct (IH (i + 1)) as [->|?]; [by left|right; lia].
Qed.

Lemma indexOf_from_absent (l : list A) (x : A) (i : Z) :
  0 ≤ i → (indexOf_from l x i = -1 ↔ x ∉ l).
Proof.
  revert i. induction l as [|y l IH]; intros i Hi; simpl.
  - split; [intros _; apply not_elem_of_nil|done].
  - destruct (decide (y = x)) as [->|Hne].
    + split; [lia|]. intros Hn. exfalso. apply Hn. left.
    + rewrite IH; [|lia]. rewrite not_elem_of_cons.
      split; [intros ?; split; [congruence|done]|by intros [_ ?]].
Qed.

Lemma includes_true (l : list A) (x : A) : includes l x = true ↔ x ∈ l.
Proof.
  unfold includes, indexOf. rewrite negb_true_iff, Z.eqb_neq.
  rewrite indexOf_from_absent by lia.
  split; [apply dec_stable|auto].
Qed.

Lemma includes_false (l : list A) (x : A) : includes l x = false ↔ x ∉ l.
Proof.
  rewrite <- includes_true. destruct (includes l x); naive_solver.
Qed.

Lemma indexOf_from_lookup (l : list A) (x : A) (i : Z) :
  x ∈ l → ∃ k : nat, indexOf_from l x i = i + Z.of_nat k ∧ l !! k = Some x
    ∧ x ∉ take k l.
Proof.
  revert i. induction l as [|y l IH]; intros i Hin; [by apply elem_of_nil in Hin|].
  simpl. destruct (decide (y = x)) as [->|Hne].
  - exists 0%nat. split; [lia|]. split; [done|]. simpl. apply not_elem_of_nil.
  - apply elem_of_cons in Hin as [?|Hin]; [congruence|].
    destruct (IH (i + 1) Hin) as (k & Hk & Hl & Ht).
    exists (S k). split; [lia|]. split; [done|]. simpl.
    rewrite not_elem_of_cons. split; [congruence|done].
Qed.

Lemma indexOf_lookup (l : list A) (x : A) :
  x ∈ l → ∃ k : nat, indexOf l x = Z.of_nat k ∧ l !! k = Some x ∧ x ∉ take k l.
Proof.
  intros Hin. destruct (indexOf_from_lookup l x 0 Hin) as (k & Hk & ?).
  exists k. unfold indexOf. rewrite Hk. split; [lia|done].
Qed.

Lemma splice1_nat (l : list A) (k : nat) :
  (k < length l)%nat → splice1 l (Z.of_nat k) = delete k l.
Proof.
  intros Hk. unfold splice1.
  destruct (Z.ltb_spec (Z.of_nat k) 0); [lia|].
  rewrite Z.min_l by lia. by rewrite Nat2Z.id.
Qed.

Lemma splice1_absent (l : list A) (x : A) :
  splice1 (l ++ [x]) (-1) = l.
Proof.
  unfold splice1. simpl. rewrite length_app. simpl.
  rewrite Z.max_l by lia.
  replace (Z.to_nat (Z.of_nat (length l + 1) + -1)) with (length l) by lia.
  induction l as [|y l IH]; simpl; [done|]. by rewrite IH.
Qed.
End ArrayFacts.

(** * What the notifications leave alone *)

Lemma notified_refl (w : W.t) : notified w w.
Proof. by split. Qed.

Lemma notified_trans (w1 w2 w3 : W.t) :
  notified w1 w2 → notified w2 w3 → notified w1 w3.
Proof.
  intros (Hr & Hs & Hq) (Hr' & Hs' & Hq'). split; [|split].
  - by rewrite Hr'.
  - intros r. by rewrite Hs'.
  - intros i. by rewrite Hq'.
Qed.

Lemma notified_foldl {X : Type} (body : W.t → X → W.t) (l : list X) (w : W.t) :
  (∀ w x, notified w (body w x)) → notified w (foldl body w l).
Proof.
  intros Hb. revert w. induction l as [|x l IH]; intros w; simpl.
  - apply notified_refl.
  - eapply notified_trans; [apply Hb|apply IH].
Qed.

Lemma notified_updE (w : W.t) (r : nat) (f : E.t → E.t) :
  (∀ e, strip (f e) = strip e) → notified w (updE w r f).
Proof.
  intros Hf. split; [done|]. split; [|done]. intros r'. unfold getE, updE. simpl.
  destruct (decide (r = r')) as [->|Hne].
  - rewrite lookup_insert_eq. simpl. by rewrite Hf.
  - by rewrite lookup_insert_ne.
Qed.

Lemma notified_updQ (w : W.t) (i : nat) (f : Q.t → Q.t) :
  (∀ q, Q.set_entities [] (f q) = Q.set_entities [] q) → notified w (updQ w i f).
Proof.
  intros Hf. split; [done|]. split; [done|]. intros j. unfold updQ. simpl.
  destruct (decide (i = j)) as [->|Hne].
  - rewrite list_lookup_alter_eq. destruct (W.queries w !! j); simpl; [|done].
    by rewrite Hf.
  - by rewrite list_lookup_alter_ne.
Qed.

Lemma Query_addEntity_notified (w : W.t) (i entity : nat) :
  notified w (Query_addEntity w i entity).
Proof.
  unfold Query_addEntity. destruct (W.queries w !! i); [|apply notified_refl].
  eapply notified_trans; [apply notified_updE|apply notified_updQ]; done.
Qed.

Lemma Query_removeEntity_notified (w : W.t) (i entity : nat) :
  notified w (Query_removeEntity w i entity).
Proof.
  unfold Query_removeEntity. destruct (W.queries w !! i); [|apply notified_refl].
  case_match; [apply notified_refl|].
  eapply notified_trans; [apply notified_updQ|apply notified_updE]; [done|].
  intros e. by case_match.
Qed.

Lemma onComponentAdded_query_notified (entity : nat) (Component : CT.t)
    (w : W.t) (i : nat) :
  notified w (onComponentAdded_query entity Component w i).
Proof.
  unfold onComponentAdded_query.
  repeat case_match; auto using notified_refl, Query_addEntity_notified,
    Query_removeEntity_notified.
Qed.

Lemma onRemoveComponent_query_notified (entity : nat) (Component : CT.t)
    (w : W.t) (i : nat) :
  notified w (onRemoveComponent_query entity Component w i).
Proof.
  unfold onRemoveComponent_query.
  repeat case_match; auto using notified_refl, Query_addEntity_notified,
    Query_removeEntity_notified.
Qed.

Lemma World_onComponentAdded_notified (w : W.t) (entity : nat) (Component : CT.t) :
  notified w (World_onComponentAdded w entity Component).
Proof.
  unfold World_onComponentAdded.
  eapply notified_trans; [|apply notified_foldl, onComponentAdded_query_notified].
  case_match; by split.
Qed.

Lemma World_onRemoveComponent_notified (w : W.t) (entity : nat) (Component : CT.t) :
  notified w (World_onRemoveComponent w entity Component).
Proof.
  unfold World_onRemoveComponent.
  eapply notified_trans; [|apply notified_foldl, onRemoveComponent_query_notified].
  by split.
Qed.

Lemma notified_getE (w w' : W.t) (r : nat) :
  notified w w' → strip (getE w' r) = strip (getE w r).
Proof.
  by intros (_ & Hs & _).
Qed.

Lemma notified_rest (w w' : W.t) : notified w w' → rest w' = rest w.
Proof. by intros (? & _). Qed.

(** * The query index under notifications *)

Lemma delete_index_spec {A : Type} (l : list A) (k : nat) (x : A) :
  l !! k = Some x → NoDup l →
  (x ∉ delete k l) ∧ (∀ y, y ≠ x → (y ∈ delete k l ↔ y ∈ l)).
Proof.
  intros Hk Hnd. rewrite delete_take_drop.
  rewrite <- (take_drop_middle l k x Hk) in Hnd at 1.
  apply NoDup_app in Hnd as (_ & Hdis & Hnd).
  apply NoDup_cons in Hnd as [Hx _].
  split.
  - rewrite elem_of_app. intros [Hin|Hin]; [|done].
    apply (Hdis x Hin). left.
  - intros y Hy. rewrite <- (take_drop_middle l k x Hk) at 3.
    rewrite !elem_of_app, elem_of_cons. tauto.
Qed.

Lemma onComponentAdded_query_other (entity : nat) (Component : CT.t)
    (w : W.t) (i j : nat) :
  i ≠ j →
  W.queries (onComponentAdded_query entity Component w j) !! i = W.queries w !! i.
Proof.
  intros Hne. unfold onComponentAdded_query, Query_removeEntity, Query_addEntity.
  repeat case_match; simpl; try done; by rewrite list_lookup_alter_ne.
Qed.

Lemma onRemoveComponent_query_other (entity : nat) (Component : CT.t)
    (w : W.t) (i j : nat) :
  i ≠ j →
  W.queries (onRemoveComponent_query entity Component w j) !! i = W.queries w !! i.
Proof.
  intros Hne. unfold onRemoveComponent_query, Query_removeEntity, Query_addEntity.
  repeat case_match; simpl; try done; by rewrite list_lookup_alter_ne.
Qed.

Lemma foldl_query_other (body : W.t → nat → W.t) (l : list nat) (w : W.t) (i : nat) :
  (∀ w j, i ≠ j → W.queries (body w j) !! i = W.queries w !! i) →
  i ∉ l → W.queries (foldl body w l) !! i = W.queries w !! i.
Proof.
  intros Hb. revert w. induction l as [|j l IH]; intros w Hi; simpl; [done|].
  apply not_elem_of_cons in Hi as [Hij Hi]. rewrite IH by done. by apply Hb.
Qed.

Lemma seq_split_at (n i : nat) :
  (i < n)%nat → seq 0 n = seq 0 i ++ i :: seq (S i) (n - S i).
Proof.
  intros Hi. replace n with (i + S (n - S i))%nat at 1 by lia.
  by rewrite seq_app.
Qed.

(** The loop over the cached queries acts on the query at position [i]
    exactly once, by its body at [i]. *)
Lemma foldl_query_at (body : W.t → nat → W.t) (w : W.t) (i : nat) :
  (∀ w j, i ≠ j → W.queries (body w j) !! i = W.queries w !! i) →
  (i < length (W.queries w))%nat →
  ∃ w', W.queries w' !! i = W.queries w !! i
    ∧ w' = foldl body w (seq 0 i)
    ∧ W.queries (foldl body w (seq 0 (length (W.queries w)))) !! i
      = W.queries (body w' i) !! i.
Proof.
  intros Hb Hi. exists (foldl body w (seq 0 i)). split; [|split; [done|]].
  - apply foldl_query_other; [done|]. rewrite elem_of_seq. lia.
  - rewrite (seq_split_at _ i Hi), foldl_app. simpl.
    apply foldl_query_other; [done|]. rewrite elem_of_seq. lia.
Qed.

(** * Reading an entity after a write *)

Lemma getE_updE_eq (w : W.t) (r : nat) (f : E.t → E.t) :
  getE (updE w r f) r = f (getE w r).
Proof. unfold getE, updE. simpl. by rewrite lookup_insert_eq. Qed.

Lemma getE_updE_ne (w : W.t) (r r' : nat) (f : E.t → E.t) :
  r ≠ r' → getE (updE w r f) r' = getE w r'.
Proof. intros Hr. unfold getE, updE. simpl. by rewrite lookup_insert_ne. Qed.

Lemma notified_componentTypes (w w' : W.t) (r : nat) :
  notified w w' → E.componentTypes (getE w' r) = E.componentTypes (getE w r).
Proof.
  intros H. apply (notified_getE _ _ r) in H.
  by apply (f_equal E.componentTypes) in H.
Qed.

(** * Attaching a type the entity already holds *)

Lemma attachComponent_held (w : W.t) (this : nat) (component : C.t) :
  C.constructor component ∈ E.componentTypes (getE w this) →
  Entity_attachComponent w this component = w.
Proof.
  intros Hin. apply includes_true in Hin.
  unfold Entity_attachComponent. by rewrite Hin.
Qed.

(** C7. On an entity that already holds the type, attaching an instance of
    it and adding the type both return at once and leave the whole world
    as it was: the type list and its length, the stored instance, the
    system-state counter, the pools and the object count. *)
Theorem attach_held_type_is_noop (expansion : nat → nat) (w : W.t) (this : nat)
    (Component : CT.t) (component : C.t) :
  Component ∈ E.componentTypes (getE w this) →
  C.constructor component = Component →
  Entity_attachComponent w this component = w
  ∧ Entity_addComponent expansion w this Component = w.
Proof.
  intros Hin <-. split; [by apply attachComponent_held|].
  apply includes_true in Hin. unfold Entity_addComponent. by rewrite Hin.
Qed.

(** After [attachComponent] the entity holds the type of the instance, so
    that a second attach of that type meets the previous theorem. *)
Lemma attachComponent_holds (w : W.t) (this : nat) (component : C.t) :
  C.constructor component
    ∈ E.componentTypes (getE (Entity_attachComponent w this component) this).
Proof.
  unfold Entity_attachComponent.
  destruct (includes _ _) eqn:Hinc; [by apply includes_true|].
  assert (Hin : ∀ l : list CT.t, C.constructor component ∈ push l (C.constructor component)).
  { intros l. unfold push. rewrite elem_of_app, list_elem_of_singleton. by right. }
  repeat case_match;
    rewrite ?(notified_componentTypes _ _ _ (World_onComponentAdded_notified _ _ _));
    rewrite !getE_updE_eq; simpl; apply Hin.
Qed.

Lemma attachComponent_twice (w : W.t) (this : nat) (c1 c2 : C.t) :
  C.constructor c2 = C.constructor c1 →
  Entity_attachComponent (Entity_attachComponent w this c1) this c2
  = Entity_attachComponent w this c1.
Proof.
  intros Hc.
  apply attachComponent_held. rewrite Hc. by apply attachComponent_holds.
Qed.

(** * The entity as [removeComponent] leaves it *)

Lemma notified_field {X : Type} (F : E.t → X) (w w' : W.t) (r : nat) :
  (∀ e, F (strip e) = F e) → notified w w' → F (getE w' r) = F (getE w r).
Proof.
  intros HF H. apply (notified_getE _ _ r) in H.
  rewrite <- (HF (getE w' r)), <- (HF (getE w r)). by rewrite H.
Qed.

Lemma onRemoveComponent_field {X : Type} (F : E.t → X) (w : W.t)
    (entity : nat) (Component : CT.t) (r : nat) :
  (∀ e, F (strip e) = F e) →
  F (getE (World_onRemoveComponent w entity Component) r) = F (getE w r).
Proof. intros HF. apply notified_field, World_onRemoveComponent_notified. done. Qed.

Lemma onComponentAdded_field {X : Type} (F : E.t → X) (w : W.t)
    (entity : nat) (Component : CT.t) (r : nat) :
  (∀ e, F (strip e) = F e) →
  F (getE (World_onComponentAdded w entity Component) r) = F (getE w r).
Proof. intros HF. apply notified_field, World_onComponentAdded_notified. done. Qed.

Lemma getE_Component_dispose (w : W.t) (c : C.t) (r : nat) :
  getE (Component_dispose w c) r = getE w r.
Proof. unfold Component_dispose. by case_match. Qed.

Lemma getE_queueComponentRemoval (w : W.t) (entity r : nat) :
  getE (World_queueComponentRemoval w entity) r = getE w r.
Proof. unfold World_queueComponentRemoval. by case_match. Qed.

Lemma getE_queueEntityDisposal (w : W.t) (entity r : nat) :
  getE (World_queueEntityDisposal w entity) r = getE w r.
Proof. done. Qed.

Ltac proj_simpl :=
  cbn [E._id E.componentTypes E.components E._componentsToRemove E.queries
       E._componentTypesToRemove E._alive E._numSystemStateComponents E._pool
       E.set__id E.set_componentTypes E.set_components E.set__componentsToRemove
       E.set_queries E.set__componentTypesToRemove E.set__alive
       E.set__numSystemStateComponents E.set__pool
       andb orb negb].

Ltac entity_simpl :=
  repeat first
    [ rewrite getE_updE_eq
    | rewrite getE_Component_dispose
    | rewrite getE_queueComponentRemoval
    | rewrite getE_queueEntityDisposal
    | rewrite (onRemoveComponent_field E._alive) by done
    | rewrite (onRemoveComponent_field E.componentTypes) by done
    | rewrite (onRemoveComponent_field E.components) by done
    | rewrite (onRemoveComponent_field E._componentsToRemove) by done
    | rewrite (onRemoveComponent_field E._componentTypesToRemove) by done
    | rewrite (onRemoveComponent_field E._numSystemStateComponents) by done
    | progress proj_simpl ].

(** A deferred removal on a live entity, for a type with nothing pending
    under its name. *)
Lemma removeComponent_deferred_live (w : W.t) (this : nat) (T : CT.t) :
  E._alive (getE w this) = true →
  prop_get (E._componentsToRemove (getE w this)) (CT.name T) = None →
  let e := getE w this in
  let e' := getE (Entity_removeComponent w this T false) this in
  E.componentTypes e' = splice1 (E.componentTypes e) (indexOf (E.componentTypes e) T)
  ∧ E.components e' = obj_delete (E.components e) (CT.name T)
  ∧ E._componentsToRemove e'
    = <[CT.name T := obj_get (E.components e) (CT.name T)]> (E._componentsToRemove e)
  ∧ E._componentTypesToRemove e' = push (E._componentTypesToRemove e) T
  ∧ E._alive e' = true.
Proof.
  intros Halive Hpending. cbv zeta.
  unfold Entity_removeComponent. rewrite Hpending.
  entity_simpl. rewrite Halive. entity_simpl. rewrite Halive.
  destruct (CT.isSystemStateComponent T); entity_simpl;
    rewrite ?Halive, ?andb_false_r; entity_simpl; done.
Qed.

(** An immediate removal, on any entity. *)
Lemma removeComponent_immediate (w : W.t) (this : nat) (U : CT.t) :
  let e := getE w this in
  let e' := getE (Entity_removeComponent w this U true) this in
  let pending := prop_get (E._componentsToRemove e) (CT.name U) in
  E.components e'
    = (if pending is Some _ then E.components e else obj_delete (E.components e) (CT.name U))
  ∧ E._componentsToRemove e'
    = (if pending is Some _ then delete (CT.name U) (E._componentsToRemove e)
       else E._componentsToRemove e)
  ∧ E._componentTypesToRemove e'
    = (if pending is Some _ then
         if indexOf (E._componentTypesToRemove e) U =? -1
         then E._componentTypesToRemove e
         else splice1 (E._componentTypesToRemove e)
                      (indexOf (E._componentTypesToRemove e) U)
       else E._componentTypesToRemove e)
  ∧ (E._alive e = true → E._alive e' = true).
Proof.
  cbv zeta. unfold Entity_removeComponent, Entity_disposeDead.
  destruct (prop_get (E._componentsToRemove (getE w this)) (CT.name U))
    as [c|] eqn:Hpending;
  destruct (indexOf (E._componentTypesToRemove (getE w this)) U =? -1) eqn:Hidx;
  destruct (E._alive (getE w this)) eqn:Halive;
  destruct (CT.isSystemStateComponent U);
  destruct (obj_get (E.components (getE w this)) (CT.name U));
  destruct (E._numSystemStateComponents (getE w this) - 1 =? 0) eqn:Hnum;
  repeat (progress (entity_simpl; rewrite ?Hpending, ?Hidx, ?Halive, ?Hnum));
  done.
Qed.

(** * Draining the pending removals *)

Lemma last_removelast {A : Type} (l : list A) (x : A) :
  last l = Some x → l = removelast l ++ [x].
Proof.
  destruct l as [|y l _] using rev_ind; [done|].
  rewrite last_snoc. intros [= ->]. by rewrite removelast_last.
Qed.

Lemma splice1_length_le {A : Type} (l : list A) (i : Z) :
  (length (splice1 l i) ≤ length l)%nat.
Proof.
  unfold splice1. rewrite delete_take_drop, length_app, length_take, length_drop. lia.
Qed.

Lemma elem_of_delete_other {A : Type} (l : list A) (k : nat) (x y : A) :
  x ∈ l → l !! k = Some y → x ≠ y → x ∈ delete k l.
Proof.
  intros Hx Hk Hne. rewrite <- (take_drop_middle l k y Hk) in Hx.
  rewrite delete_take_drop. rewrite elem_of_app, elem_of_cons in Hx.
  rewrite elem_of_app. tauto.
Qed.

Lemma elem_of_splice1_indexOf `{EqDecision A} (l : list A) (x y : A) :
  x ∈ l → x ≠ y → (indexOf l y =? -1) = false → x ∈ splice1 l (indexOf l y).
Proof.
  intros Hx Hne Hidx. apply Z.eqb_neq in Hidx.
  assert (Hy : y ∈ l).
  { apply dec_stable. intros Hy. apply Hidx.
    by apply (indexOf_from_absent l y 0). }
  destruct (indexOf_lookup l y Hy) as (k & -> & Hk & _).
  rewrite splice1_nat by (by apply lookup_lt_Some in Hk).
  by apply (elem_of_delete_other _ _ _ y).
Qed.

(** Every round of [processRemovedComponents] shortens the pending list,
    so that the loop, entered with the length of the list as fuel, ends
    with the list empty: that is the state in which the [while] exits. *)
Lemma processRemovedComponents_loop_drains (fuel : nat) (w : W.t) (this : nat) :
  (length (E._componentTypesToRemove (getE w this)) ≤ fuel)%nat →
  E._componentTypesToRemove (getE (processRemovedComponents_loop fuel w this) this) = [].
Proof.
  revert w. induction fuel as [|fuel IH]; intros w Hlen; simpl.
  - destruct (E._componentTypesToRemove (getE w this)); [done|simpl in Hlen; lia].
  - unfold pop. destruct (last _) as [U|] eqn:Hlast.
    + apply IH.
      destruct (removeComponent_immediate
                  (updE w this (E.set__componentTypesToRemove
                     (removelast (E._componentTypesToRemove (getE w this))))) this U)
        as (_ & _ & -> & _).
      rewrite getE_updE_eq. simpl.
      apply last_removelast in Hlast. rewrite Hlast, length_app in Hlen.
      simpl in Hlen. repeat case_match; try lia.
      etrans; [apply splice1_length_le|lia].
    + by apply last_None in Hlast.
Qed.

Lemma processRemovedComponents_drains (w : W.t) (this : nat) :
  E._componentTypesToRemove (getE (Entity_processRemovedComponents w this) this) = [].
Proof. by apply processRemovedComponents_loop_drains. Qed.

Lemma obj_get_delete_eq {V : Type} (o : list (string * V)) (k : string) :
  obj_get (obj_delete o k) k = None.
Proof.
  induction o as [|[k' v] o IH]; simpl; [done|].
  destruct (decide (k' = k)); simpl; [done|]. by rewrite decide_False.
Qed.

Lemma obj_get_delete_ne {V : Type} (o : list (string * V)) (k k' : string) :
  k ≠ k' → obj_get (obj_delete o k) k' = obj_get o k'.
Proof.
  intros Hne. induction o as [|[k0 v] o IH]; simpl; [done|].
  destruct (decide (k0 = k)) as [->|]; simpl.
  - by rewrite decide_False.
  - by rewrite IH.
Qed.

Lemma obj_get_delete_None {V : Type} (o : list (string * V)) (k k' : string) :
  obj_get o k' = None → obj_get (obj_delete o k) k' = None.
Proof.
  intros H. destruct (decide (k = k')) as [->|Hne].
  - apply obj_get_delete_eq.
  - by rewrite obj_get_delete_ne.
Qed.

Lemma obj_get_set_eq {V : Type} (o : list (string * V)) (k : string) (v : V) :
  obj_get (obj_set o k v) k = Some v.
Proof.
  induction o as [|[k' v'] o IH]; simpl; [by rewrite decide_True|].
  destruct (decide (k' = k)); simpl; [by rewrite decide_True|].
  by rewrite decide_False.
Qed.

Lemma obj_get_set_ne {V : Type} (o : list (string * V)) (k k' : string) (v : V) :
  k ≠ k' → obj_get (obj_set o k v) k' = obj_get o k'.
Proof.
  intros Hne. induction o as [|[k0 v0] o IH]; simpl; [by rewrite decide_False|].
  destruct (decide (k0 = k)) as [->|]; simpl.
  - by rewrite !decide_False.
  - by rewrite IH.
Qed.

Lemma prop_get_insert_eq {V : Type} (m : gmap string (option V)) (k : string)
    (v : option V) :
  prop_get (<[k := v]> m) k = v.
Proof. unfold prop_get. by rewrite lookup_insert_eq. Qed.

Lemma prop_get_delete_eq {V : Type} (m : gmap string (option V)) (k : string) :
  prop_get (delete k m) k = None.
Proof. unfold prop_get. by rewrite lookup_delete_eq. Qed.

Lemma prop_get_delete_ne {V : Type} (m : gmap string (option V)) (k k' : string) :
  k ≠ k' → prop_get (delete k m) k' = prop_get m k'.
Proof. intros. unfold prop_get. by rewrite lookup_delete_ne. Qed.

Lemma indexOf_from_middle `{EqDecision A} (l1 l2 : list A) (x : A) (i : Z) :
  x ∉ l1 → indexOf_from (l1 ++ x :: l2) x i = i + Z.of_nat (length l1).
Proof.
  revert i. induction l1 as [|y l1 IH]; intros i Hx; simpl.
  - rewrite decide_True by done. lia.
  - apply not_elem_of_cons in Hx as [Hne Hx].
    rewrite decide_False by congruence. rewrite IH by done. lia.
Qed.

Lemma splice1_listed_once `{EqDecision A} (l : list A) (x : A) :
  listed_once l x → x ∉ splice1 l (indexOf l x).
Proof.
  intros (l1 & l2 & -> & H1 & H2).
  unfold indexOf. rewrite indexOf_from_middle by done. rewrite Z.add_0_l.
  rewrite splice1_nat.
  - rewrite delete_middle. rewrite elem_of_app. tauto.
  - rewrite length_app. simpl. lia.
Qed.

(** What the drain keeps true of a live entity, for a name [n]: nothing is
    stored live under [n], and whatever is pending under [n] has a type of
    that name waiting in [_componentTypesToRemove]. *)
Lemma processRemovedComponents_loop_name (n : string) (fuel : nat) (w : W.t)
    (this : nat) :
  E._alive (getE w this) = true →
  obj_get (E.components (getE w this)) n = None →
  (prop_get (E._componentsToRemove (getE w this)) n ≠ None →
   ∃ U, U ∈ E._componentTypesToRemove (getE w this) ∧ CT.name U = n) →
  let e' := getE (processRemovedComponents_loop fuel w this) this in
  E._alive e' = true
  ∧ obj_get (E.components e') n = None
  ∧ (prop_get (E._componentsToRemove e') n ≠ None →
     ∃ U, U ∈ E._componentTypesToRemove e' ∧ CT.name U = n).
Proof.
  revert w. induction fuel as [|fuel IH]; intros w Halive Hlive Hpend; simpl; [done|].
  unfold pop. destruct (last _) as [U|] eqn:Hlast; [|done].
  apply last_removelast in Hlast.
  set (rest := removelast _) in *.
  set (w1 := updE w this (E.set__componentTypesToRemove rest)).
  destruct (removeComponent_immediate w1 this U) as (Hc & Hr & Ht & Ha).
  subst w1. rewrite getE_updE_eq in Hc, Hr, Ht, Ha. simpl in Hc, Hr, Ht, Ha.
  apply IH.
  - by apply Ha.
  - rewrite Hc. case_match; [done|]. by apply obj_get_delete_None.
  - rewrite Hr, Ht. intros Hn.
    destruct (decide (CT.name U = n)) as [HU|HU].
    + exfalso. apply Hn. rewrite <- HU. case_match; [apply prop_get_delete_eq|done].
    + destruct Hpend as (U' & HU' & Hname).
      { intros Hp. apply Hn. case_match; [|done]. by rewrite prop_get_delete_ne. }
      assert (U' ≠ U) by congruence.
      assert (U' ∈ rest).
      { rewrite Hlast, elem_of_app, list_elem_of_singleton in HU'. tauto. }
      exists U'. split; [|done].
      repeat case_match; try done. by apply elem_of_splice1_indexOf.
Qed.

(** C5 (as amended). On a live entity that lists the type once, stores the
    instance under its name and has nothing pending under that name, a
    deferred [removeComponent] hides the type from [hasComponent], keeps
    the instance readable with [includeRemoved], and after
    [processRemovedComponents] the read gives undefined. *)
Theorem deferred_removal_visibility (w : W.t) (this : nat) (T : CT.t) (c : C.t) :
  E._alive (getE w this) = true →
  listed_once (E.componentTypes (getE w this)) T →
  obj_get (E.components (getE w this)) (CT.name T) = Some c →
  prop_get (E._componentsToRemove (getE w this)) (CT.name T) = None →
  let w1 := Entity_removeComponent w this T false in
  let w2 := Entity_processRemovedComponents w1 this in
  Entity_hasComponent (getE w1 this) T false = false
  ∧ Entity_getComponent (getE w1 this) T true = Some c
  ∧ Entity_getComponent (getE w2 this) T true = None
  ∧ E._componentTypesToRemove (getE w2 this) = [].
Proof.
  intros Halive Honce Hc Hpending w1 w2.
  destruct (removeComponent_deferred_live w this T Halive Hpending)
    as (Hct & Hcs & Hcr & Hcl & Ha).
  fold w1 in Hct, Hcs, Hcr, Hcl, Ha.
  assert (Hlive1 : obj_get (E.components (getE w1 this)) (CT.name T) = None).
  { rewrite Hcs. apply obj_get_delete_eq. }
  split; [|split; [|split]].
  - unfold Entity_hasComponent. rewrite andb_false_l, orb_false_r.
    apply includes_false. rewrite Hct. by apply splice1_listed_once.
  - unfold Entity_getComponent. rewrite Hlive1, Hcr, Hc.
    apply prop_get_insert_eq.
  - destruct (processRemovedComponents_loop_name (CT.name T)
                (length (E._componentTypesToRemove (getE w1 this))) w1 this)
      as (_ & Hlive2 & Hpend2); [done|done| |].
    { intros _. exists T. split; [|done]. rewrite Hcl. unfold push.
      rewrite elem_of_app, list_elem_of_singleton. by right. }
    fold (Entity_processRemovedComponents w1 this) in Hlive2, Hpend2.
    fold w2 in Hlive2, Hpend2.
    unfold Entity_getComponent. rewrite Hlive2.
    apply dec_stable. intros Hp. destruct (Hpend2 Hp) as (U & HU & _).
    subst w2. rewrite processRemovedComponents_drains in HU.
    by apply elem_of_nil in HU.
  - apply processRemovedComponents_drains.
Qed.

(** * Exclusion *)


(** * The queue of entities with pending removals *)

Lemma notified_wfield {X : Type} (F : W.t → X) (w w' : W.t) :
  (∀ w, F (rest w) = F w) → notified w w' → F w' = F w.
Proof.
  intros HF H. apply notified_rest in H.
  rewrite <- (HF w'), <- (HF w). by rewrite H.
Qed.

Lemma queue_onRemoveComponent (w : W.t) (entity : nat) (Component : CT.t) :
  W.entitiesWithComponentsToRemove (World_onRemoveComponent w entity Component)
  = W.entitiesWithComponentsToRemove w.
Proof.
  apply (notified_wfield W.entitiesWithComponentsToRemove); [done|].
  apply World_onRemoveComponent_notified.
Qed.

Lemma queue_Component_dispose (w : W.t) (c : C.t) :
  W.entitiesWithComponentsToRemove (Component_dispose w c)
  = W.entitiesWithComponentsToRemove w.
Proof. unfold Component_dispose. by case_match. Qed.

Ltac queue_simpl :=
  repeat first
    [ rewrite queue_onRemoveComponent
    | rewrite queue_Component_dispose
    | progress cbn [W.entitiesWithComponentsToRemove updE W.set_store
                    W.set_entitiesToRemove World_queueEntityDisposal] ].

Lemma queue_queueComponentRemoval (w : W.t) (entity : nat) :
  let q := W.entitiesWithComponentsToRemove in
  ((entity ∈ q w) ∧ q (World_queueComponentRemoval w entity) = q w)
  ∨ ((entity ∉ q w) ∧ q (World_queueComponentRemoval w entity) = q w ++ [entity]).
Proof.
  cbv zeta. unfold World_queueComponentRemoval.
  destruct (Z.eqb_spec (indexOf (W.entitiesWithComponentsToRemove w) entity) (-1))
    as [Hidx|Hidx].
  - right. split; [|done]. by apply (indexOf_from_absent _ _ 0).
  - left. split; [|done]. apply dec_stable. intros Hn. apply Hidx.
    by apply (indexOf_from_absent _ _ 0).
Qed.

(** [removeComponent] writes the queue only through
    [queueComponentRemoval], and not at all when it is immediate. *)
Lemma queue_removeComponent (w : W.t) (this : nat) (Component : CT.t)
    (immediately : bool) :
  let q := W.entitiesWithComponentsToRemove in
  q (Entity_removeComponent w this Component immediately) = q w
  ∨ (immediately = false ∧ (this ∉ q w)
     ∧ q (Entity_removeComponent w this Component immediately) = q w ++ [this]).
Proof.
  cbv zeta. unfold Entity_removeComponent, Entity_disposeDead.
  set (w1 := match prop_get _ _ with Some _ => w | None => _ end).
  assert (H1 : W.entitiesWithComponentsToRemove w1 = W.entitiesWithComponentsToRemove w).
  { subst w1. repeat case_match; by queue_simpl. }
  destruct immediately.
  - left. rewrite <- H1. repeat case_match; by queue_simpl.
  - destruct (E._alive (getE w1 this)) eqn:Halive.
    + set (w2 := updE (updE w1 this _) this _).
      destruct (queue_queueComponentRemoval w2 this) as [[_ Hq]|[Hn Hq]].
      * left. rewrite <- H1. change (W.entitiesWithComponentsToRemove w1)
          with (W.entitiesWithComponentsToRemove w2). rewrite <- Hq.
        repeat case_match; by queue_simpl.
      * right. split; [done|]. rewrite <- H1.
        change (W.entitiesWithComponentsToRemove w1)
          with (W.entitiesWithComponentsToRemove w2).
        split; [done|]. rewrite <- Hq. repeat case_match; by queue_simpl.
    + left. rewrite <- H1. repeat case_match; by queue_simpl.
Qed.

Lemma queue_removeComponent_NoDup (w : W.t) (this : nat) (Component : CT.t)
    (immediately : bool) :
  NoDup (W.entitiesWithComponentsToRemove w) →
  NoDup (W.entitiesWithComponentsToRemove
           (Entity_removeComponent w this Component immediately)).
Proof.
  intros Hnd. destruct (queue_removeComponent w this Component immediately)
    as [->|(_ & Hn & ->)]; [done|].
  apply NoDup_app. split; [done|]. split; [|apply NoDup_singleton].
  intros x Hx Hx'. apply list_elem_of_singleton in Hx' as ->. done.
Qed.

Lemma queue_processRemovedComponents_loop (fuel : nat) (w : W.t) (this : nat) :
  W.entitiesWithComponentsToRemove (processRemovedComponents_loop fuel w this)
  = W.entitiesWithComponentsToRemove w.
Proof.
  revert w. induction fuel as [|fuel IH]; intros w; [done|].
  cbn [processRemovedComponents_loop]. unfold pop.
  destruct (last _) as [U|]; [|done]. rewrite IH.
  destruct (queue_removeComponent
              (updE w this (E.set__componentTypesToRemove
                 (removelast (E._componentTypesToRemove (getE w this))))) this U true)
    as [->|(? & _)]; done.
Qed.

Lemma queue_processRemovedComponents (w : W.t) (this : nat) :
  W.entitiesWithComponentsToRemove (Entity_processRemovedComponents w this)
  = W.entitiesWithComponentsToRemove w.
Proof. apply queue_processRemovedComponents_loop. Qed.

(** The second loop of the flush, whose fuel is the length of the queue
    on entry, calls [processRemovedComponents] on the entries of the queue
    in turn, once for each entry. *)
Lemma flushQueued_foldl (w : W.t) :
  flushQueued (length (W.entitiesWithComponentsToRemove w)) 0 w
  = foldl Entity_processRemovedComponents w (W.entitiesWithComponentsToRemove w).
Proof.
  assert (H : ∀ (l : list nat) (w : W.t) (i : nat),
             drop i (W.entitiesWithComponentsToRemove w) = l →
             flushQueued (length l) i w = foldl Entity_processRemovedComponents w l).
  { induction l as [|e l IH]; intros w0 i Hd; [done|].
    cbn [flushQueued length foldl].
    assert (Hi : W.entitiesWithComponentsToRemove w0 !! i = Some e).
    { rewrite <- (Nat.add_0_r i), <- lookup_drop, Hd. done. }
    rewrite Hi. apply IH. rewrite queue_processRemovedComponents.
    erewrite drop_S in Hd by done. by injection Hd. }
  by apply H.
Qed.

(** C10. Whatever removals are asked for, on whatever entities and in
    either mode, a queue [entitiesWithComponentsToRemove] without
    duplicates stays without duplicates; and the flush calls
    [processRemovedComponents] on the entries of the queue in turn, once
    for each entry, hence at most once per entity. *)
Theorem removal_queue_holds_each_entity_once
    (ops : list (nat * CT.t * bool)) (w : W.t) :
  NoDup (W.entitiesWithComponentsToRemove w) →
  let w' := foldl (λ w op, Entity_removeComponent w op.1.1 op.1.2 op.2) w ops in
  NoDup (W.entitiesWithComponentsToRemove w')
  ∧ flushQueued (length (W.entitiesWithComponentsToRemove w')) 0 w'
    = foldl Entity_processRemovedComponents w' (W.entitiesWithComponentsToRemove w').
Proof.
  intros Hnd w'. split; [|apply flushQueued_foldl].
  subst w'. revert w Hnd. induction ops as [|[[e C] imm] ops IH]; intros w Hnd; [done|].
  cbn [foldl]. apply IH. by apply queue_removeComponent_NoDup.
Qed.

(** * Registration *)

Lemma validateSchema_spec (w : W.t) (Component : CT.t) (schema : list (string * SP.t)) :
  match validateSchema w Component schema with
  | Return w' =>
      forallb (λ p, field_complete p.2) schema = true
      ∧ W.set_console [] w' = W.set_console [] w
  | Throw w' _ =>
      forallb (λ p, field_complete p.2) schema = false
      ∧ W.set_console [] w' = W.set_console [] w
  end.
Proof.
  revert w. induction schema as [|[propName prop] schema IH]; intros w; [done|].
  cbn [validateSchema forallb]. unfold field_complete at 1 3. cbn [snd].
  destruct (SP.type prop) as [type|]; [|done].
  set (w1 := if falsy_name _ then _ else w).
  assert (H1 : W.set_console [] w1 = W.set_console [] w) by (subst w1; by case_match).
  destruct (PT.default type); [|done].
  destruct (PT.clone type); [|done].
  destruct (PT.copy type); [|done].
  cbn [andb]. rewrite !bool_decide_eq_true_2 by done. cbn [andb].
  specialize (IH w1). destruct (validateSchema w1 Component schema);
    destruct IH as [-> ->]; done.
Qed.

(** C8 (as amended). [registerComponent] on a name that is already
    registered only warns: registry, pools and counts stay as they were.
    On a name that is not registered it throws exactly when the schema is
    not complete, leaving registry, pools and counts as they were; and
    with a complete schema it registers the type with count 0 and sets
    the pool of the name: none for [false], a new empty pool when the
    argument is left out, the given pool otherwise. *)
Theorem registerComponent_outcomes (w : W.t) (Component : CT.t) (objectPool : poolArg) :
  (is_Some (W.componentTypes w !! CT.name Component) →
   ∃ msg, World_registerComponent w Component objectPool = Return (warn w msg)
          ∧ registry (warn w msg) = registry w)
  ∧ (W.componentTypes w !! CT.name Component = None →
     schema_complete Component = false →
     ∃ w' msg, World_registerComponent w Component objectPool = Throw w' msg
               ∧ registry w' = registry w)
  ∧ (W.componentTypes w !! CT.name Component = None →
     schema_complete Component = true →
     ∃ w', World_registerComponent w Component objectPool = Return w'
           ∧ W.componentTypes w' = <[CT.name Component := Component]> (W.componentTypes w)
           ∧ W.componentCounts w' = <[CT.name Component := Some 0]> (W.componentCounts w)
           ∧ W.componentPools w'
             = <[CT.name Component :=
                   match objectPool with
                   | PoolFalse => None
                   | PoolUndefined => Some (OP.mk [] 0%nat)
                   | PoolGiven p => Some p
                   end]> (W.componentPools w)).
Proof.
  unfold World_registerComponent, schema_complete. split; [|split].
  - intros [C0 ->]. by eexists.
  - intros -> Hs. destruct (CT.schema Component) as [schema|]; [|by eexists _, _].
    pose proof (validateSchema_spec w Component schema) as Hv.
    destruct (validateSchema w Component schema) as [w'|w' msg];
      destruct Hv as [Hv Hw]; [congruence|].
    pose proof (f_equal W.componentTypes Hw) as H1.
    pose proof (f_equal W.componentPools Hw) as H2.
    pose proof (f_equal W.componentCounts Hw) as H3.
    cbn in H1, H2, H3.
    eexists _, _. split; [done|].
    unfold registry. by rewrite H1, H2, H3.
  - intros -> Hs. destruct (CT.schema Component) as [schema|]; [|done].
    pose proof (validateSchema_spec w Component schema) as Hv.
    destruct (validateSchema w Component schema) as [w'|w' msg];
      destruct Hv as [Hv Hw]; [|congruence].
    pose proof (f_equal W.componentTypes Hw) as H1.
    pose proof (f_equal W.componentPools Hw) as H2.
    pose proof (f_equal W.componentCounts Hw) as H3.
    cbn in H1, H2, H3.
    destruct objectPool; eexists; (split; [done|]); cbn; by rewrite H1, H2, H3.
Qed.

(** * The code on the example worlds *)

(** C1 (the code at the failing input). [hero], created by [createEntity]
    with id 0 and then given a Position, is disposed immediately. The
    entity gets the fresh id 1 and is released to the entity pool, but
    [entitiesById] still maps the old id 0 to it and [entities] still
    lists it: [onEntityDisposed] looks the entity up under the id that
    [dispose] has just assigned. *)
Theorem dispose_immediate_at_world1 :
  E._alive (getE world1 hero) = true
  ∧ E._id (getE world1 hero) = 0%nat
  ∧ W.entitiesById world1 !! 0%nat = Some hero
  ∧ is_Some (Entity_dispose world1 hero true)
  ∧ let w := run (Entity_dispose world1 hero true) in
    E._id (getE w hero) = 1%nat
    ∧ OP.freeList (W.entityPool w) = [hero]
    ∧ W.entitiesById w !! 0%nat = Some hero
    ∧ W.entities w = [hero].
Proof. vm_compute. repeat split. by eexists. Qed.

(** C2 (the code at the failing input). On [world1] the query for Position
    lists [hero], which matches it. [hero.removeComponent(Velocity, true)],
    for a type [hero] does not hold, takes Position out of
    [componentTypes]; the query is not told and goes on listing [hero],
    which no longer matches it. *)
Theorem removeComponent_absent_at_world1_query :
  E._alive (getE world1 hero) = true
  ∧ Q.entities <$> W.queries world1 = [[hero]]
  ∧ (λ q, Query_match q (getE world1 hero)) <$> W.queries world1 = [true]
  ∧ let w := Entity_removeComponent world1 hero Velocity true in
    E._alive (getE w hero) = true
    ∧ Q.entities <$> W.queries w = [[hero]]
    ∧ (λ q, Query_match q (getE w hero)) <$> W.queries w = [false].
Proof. vm_compute. repeat split. Qed.

(** C3 (the code at the failing input). [hero] holds Position only and has
    nothing pending. Removing Velocity, immediately, empties
    [componentTypes] by [splice(-1, 1)]; removing the system-state type
    Dying, deferred, does the same, queues Dying for removal and takes the
    system-state counter from 0 to -1. *)
Theorem removeComponent_absent_at_world1 :
  E.componentTypes (getE world1 hero) = [Position]
  ∧ E._componentTypesToRemove (getE world1 hero) = []
  ∧ E._componentsToRemove (getE world1 hero) = ∅
  ∧ E._numSystemStateComponents (getE world1 hero) = 0
  ∧ (let w := Entity_removeComponent world1 hero Velocity true in
     E.componentTypes (getE w hero) = []
     ∧ W.componentCounts w !! "Velocity"%string = Some (Some (-1)))
  ∧ (let w := Entity_removeComponent world1 hero Dying false in
     E.componentTypes (getE w hero) = []
     ∧ E._componentTypesToRemove (getE w hero) = [Dying]
     ∧ E._componentsToRemove (getE w hero) = {[ "Dying"%string := None ]}
     ∧ E._numSystemStateComponents (getE w hero) = -1).
Proof. vm_compute. repeat split. Qed.

(** C4 (the code at the failing input). [hero] holds the system-state
    component Dying and nothing else. After [dispose(false)] and one
    flush, with no call of [removeComponent] by the caller, [hero] is in
    the free list of the entity pool: [dispose] itself removes every
    component, the system-state ones too, so nothing holds the disposal
    back. *)
Theorem dispose_deferred_at_world2 :
  E.componentTypes (getE world2 hero) = [Dying]
  ∧ E._numSystemStateComponents (getE world2 hero) = 1
  ∧ OP.freeList (W.entityPool world2) = []
  ∧ is_Some (Entity_dispose world2 hero false)
  ∧ let w1 := run (Entity_dispose world2 hero false) in
    OP.freeList (W.entityPool w1) = []
    ∧ W.entitiesToRemove w1 = [hero]
    ∧ E._numSystemStateComponents (getE w1 hero) = 0
    ∧ is_Some (World_processDeferredRemoval w1)
    ∧ let w2 := run (World_processDeferredRemoval w1) in
      OP.freeList (W.entityPool w2) = [hero]
      ∧ W.entitiesById w2 !! 0%nat = Some hero
      ∧ E._numSystemStateComponents (getE w2 hero) = -1.
Proof. vm_compute. repeat split; by eexists. Qed.

(** C5 (counterexample). On [world3], [hero] is live and holds Position
    with an instance, while an earlier deferred removal of Position is
    still pending. A deferred [removeComponent(Position)] then leaves
    [hasComponent(Position)] true. *)
Lemma deferred_removal_while_pending :
  E._alive (getE world3 hero) = true
  ∧ E.componentTypes (getE world3 hero) = [Position]
  ∧ is_Some (Entity_getComponent (getE world3 hero) Position false)
  ∧ Entity_hasComponent
      (getE (Entity_removeComponent world3 hero Position false) hero) Position false
    = true.
Proof. vm_compute. repeat split. by eexists. Qed.


(** C8 (counterexample). A class without a schema whose name is already
    registered: [registerComponent] warns and returns, it does not throw. *)
Lemma registerComponent_no_schema_returns :
  CT.schema PositionNoSchema = None
  ∧ ¬ throws (World_registerComponent world0 PositionNoSchema PoolUndefined)
  ∧ registry (returned (World_registerComponent world0 PositionNoSchema PoolUndefined))
    = registry world0.
Proof. vm_compute. repeat split. tauto. Qed.

(** * The theorems at the example worlds *)

Lemma deferred_removal_visibility_witness :
  E._alive (getE world1 hero) = true
  ∧ listed_once (E.componentTypes (getE world1 hero)) Position
  ∧ obj_get (E.components (getE world1 hero)) (CT.name Position)
    = Some (C.mk 4 Position true)
  ∧ prop_get (E._componentsToRemove (getE world1 hero)) (CT.name Position) = None
  ∧ Entity_hasComponent
      (getE (Entity_removeComponent world1 hero Position false) hero) Position false
    = false
  ∧ Entity_getComponent
      (getE (Entity_removeComponent world1 hero Position false) hero) Position true
    = Some (C.mk 4 Position true)
  ∧ Entity_getComponent
      (getE (Entity_processRemovedComponents
               (Entity_removeComponent world1 hero Position false) hero) hero)
      Position true
    = None.
Proof.
  assert (H1 : E._alive (getE world1 hero) = true) by (vm_compute; reflexivity).
  assert (H2 : listed_once (E.componentTypes (getE world1 hero)) Position).
  { exists [], []. split; [vm_compute; reflexivity|]. split; apply not_elem_of_nil. }
  assert (H3 : obj_get (E.components (getE world1 hero)) (CT.name Position)
               = Some (C.mk 4 Position true)) by (vm_compute; reflexivity).
  assert (H4 : prop_get (E._componentsToRemove (getE world1 hero)) (CT.name Position)
               = None) by (vm_compute; reflexivity).
  destruct (deferred_removal_visibility world1 hero Position _ H1 H2 H3 H4)
    as (H5 & H6 & H7 & _).
  exact (conj H1 (conj H2 (conj H3 (conj H4 (conj H5 (conj H6 H7)))))).
Defined.


Lemma attach_held_type_is_noop_witness :
  Position ∈ E.componentTypes (getE world1 hero)
  ∧ Entity_attachComponent world1 hero (C.mk 9 Position false) = world1
  ∧ Entity_addComponent policy world1 hero Position = world1.
Proof.
  assert (H1 : Position ∈ E.componentTypes (getE world1 hero)).
  { replace (E.componentTypes (getE world1 hero)) with [Position]
      by (vm_compute; reflexivity).
    apply list_elem_of_singleton, eq_refl. }
  destruct (attach_held_type_is_noop policy world1 hero Position
              (C.mk 9 Position false) H1 eq_refl) as [H2 H3].
  exact (conj H1 (conj H2 H3)).
Defined.

Lemma registerComponent_outcomes_witness :
  is_Some (W.componentTypes world0 !! CT.name PositionNoSchema)
  ∧ ¬ throws (World_registerComponent world0 PositionNoSchema PoolUndefined)
  ∧ W.componentTypes W.new !! CT.name PositionNoSchema = None
  ∧ schema_complete PositionNoSchema = false
  ∧ throws (World_registerComponent W.new PositionNoSchema PoolUndefined)
  ∧ schema_complete Position = true
  ∧ W.componentPools (returned (World_registerComponent W.new Position PoolFalse))
    = {[ "Position"%string := None ]}.
Proof.
  assert (H1 : is_Some (W.componentTypes world0 !! CT.name PositionNoSchema))
    by (vm_compute; by eexists).
  assert (H2 : W.componentTypes W.new !! CT.name PositionNoSchema = None)
    by (vm_compute; reflexivity).
  assert (H3 : schema_complete PositionNoSchema = false) by reflexivity.
  assert (H4 : schema_complete Position = true) by (vm_compute; reflexivity).
  destruct (registerComponent_outcomes world0 PositionNoSchema PoolUndefined)
    as (Ha & _ & _).
  destruct (registerComponent_outcomes W.new PositionNoSchema PoolUndefined)
    as (_ & Hb & _).
  destruct (registerComponent_outcomes W.new Position PoolFalse)
    as (_ & _ & Hc).
  destruct (Ha H1) as (msg & -> & _).
  destruct (Hb H2 H3) as (w' & msg' & -> & _).
  destruct (Hc H2 H4) as (w'' & -> & _ & _ & Hp).
  refine (conj H1 (conj (λ F, F) (conj H2 (conj H3 (conj I (conj H4 _)))))).
  cbn [returned]. rewrite Hp. vm_compute. reflexivity.
Defined.

Lemma removal_queue_witness :
  let ops := [(hero, Position, false); (hero, Velocity, false); (hero, Position, true)] in
  NoDup (W.entitiesWithComponentsToRemove world1)
  ∧ NoDup (W.entitiesWithComponentsToRemove
             (foldl (λ w op, Entity_removeComponent w op.1.1 op.1.2 op.2) world1 ops)).
Proof.
  cbv zeta.
  assert (H1 : NoDup (W.entitiesWithComponentsToRemove world1)).
  { replace (W.entitiesWithComponentsToRemove world1) with (@nil nat)
      by (vm_compute; reflexivity).
    apply NoDup_nil_2. }
  split; [exact H1|].
  exact (proj1 (removal_queue_holds_each_entity_once _ world1 H1)).
Defined.

(** * JSON round trips on the heap *)

Lemma json_ind' (P : json → Prop) :
  P JNull → (∀ b, P (JBool b)) → (∀ n, P (JNumber n)) → (∀ s, P (JString s)) →
  (∀ items, Forall P items → P (JArray items)) →
  (∀ members, Forall (λ m, P m.2) members → P (JObject members)) →
  ∀ j, P j.
Proof.
  intros HN HB Hn HS HA HO. fix IH 1.
  intros [|b|n|s|items|members]; [exact HN|apply HB|apply Hn|apply HS| |].
  - apply HA. revert items. fix IHl 1. intros [|j items]; constructor.
    + apply IH.
    + apply IHl.
  - apply HO. revert members. fix IHl 1. intros [|[k j] members]; constructor.
    + apply IH.
    + apply IHl.
Qed.

(** More fuel and a longer heap do not change a text once it is produced. *)
Lemma stringify_mono (f : nat) :
  ∀ (h : heap) (v : value) (r : option json) (f' : nat) (h' : heap),
    stringify f h v = Some r → (f ≤ f')%nat → h `prefix_of` h' →
    stringify f' h' v = Some r.
Proof.
  induction f as [|f IH]; intros h v r f' h' Hs Hf Hp.
  - destruct v; try (destruct f'; exact Hs). discriminate.
  - destruct v; try (destruct f'; exact Hs).
    destruct f' as [|f']; [lia|]. cbn [stringify] in *.
    destruct (h !! a) as [o|] eqn:Ha; [|discriminate].
    rewrite (prefix_lookup_Some _ _ _ _ Ha Hp).
    destruct o as [elems|props].
    + destruct (mapM _ elems) as [items|] eqn:Hm; [|discriminate].
      apply mapM_Some in Hm.
      erewrite (proj2 (mapM_Some _ _ _)); [exact Hs|].
      eapply Forall2_impl; [exact Hm|]. intros v j Hv. cbn beta in *.
      destruct (stringify f h v) as [r'|] eqn:Hr; [|discriminate].
      erewrite IH; [exact Hv|exact Hr|lia|done].
    + destruct (mapM _ props) as [members|] eqn:Hm; [|discriminate].
      apply mapM_Some in Hm.
      erewrite (proj2 (mapM_Some _ _ _)); [exact Hs|].
      eapply Forall2_impl; [exact Hm|]. intros p m Hv. cbn beta in *.
      destruct (stringify f h p.2) as [r'|] eqn:Hr; [|discriminate].
      erewrite IH; [exact Hv|exact Hr|lia|done].
Qed.

Lemma JSON_stringify_mono (h h' : heap) (v : value) (r : option json) :
  JSON_stringify h v = Some r → h `prefix_of` h' → JSON_stringify h' v = Some r.
Proof.
  intros Hs Hp. eapply stringify_mono; [exact Hs| |done].
  by apply prefix_length.
Qed.

(** What [JSON.parse] builds: new cells only, a value that is new when it
    is a reference, and that [JSON.stringify] turns back into the text. *)
Definition parses_back (j : json) : Prop :=
  ∀ h : heap,
    h `prefix_of` (JSON_parse j h).1
    ∧ (∀ a, (JSON_parse j h).2 = VRef a →
         (length h ≤ a < length (JSON_parse j h).1)%nat)
    ∧ (∀ f h'', (length (JSON_parse j h).1 - length h ≤ f)%nat →
         (JSON_parse j h).1 `prefix_of` h'' →
         stringify f h'' (JSON_parse j h).2 = Some (Some j)).

Lemma thread_prefix {A B : Type} (pf : A → heap → heap * B) (l : list A) :
  Forall (λ x, ∀ h, h `prefix_of` (pf x h).1) l →
  ∀ h, h `prefix_of` (thread pf l h).1.
Proof.
  induction 1 as [|x l Hx _ IH]; intros h; cbn [thread]; [done|].
  specialize (Hx h). destruct (pf x h) as [h1 y]. specialize (IH h1).
  destruct (thread pf l h1) as [h2 ys]. cbn [fst] in *. by etrans.
Qed.

Lemma thread_parse_items (items : list json) :
  Forall parses_back items →
  ∀ h f h'',
    (length (thread JSON_parse items h).1 - length h ≤ f)%nat →
    (thread JSON_parse items h).1 `prefix_of` h'' →
    Forall2 (λ v j, stringify f h'' v = Some (Some j))
            (thread JSON_parse items h).2 items.
Proof.
  induction 1 as [|j items Hj Hitems IH]; intros h f h'' Hf Hp; cbn [thread] in *;
    [constructor|].
  destruct (Hj h) as (Hp1 & _ & Hback).
  destruct (JSON_parse j h) as [h1 v]. cbn [fst snd] in *.
  specialize (IH h1 f h'').
  pose proof (thread_prefix JSON_parse items
                (Forall_impl _ _ _ Hitems (λ x Hx h, proj1 (Hx h))) h1) as Hp2.
  destruct (thread JSON_parse items h1) as [h2 vs]. cbn [fst snd] in *.
  apply prefix_length in Hp1 as Hl1. apply prefix_length in Hp2 as Hl2.
  constructor.
  - apply Hback; [lia|]. by etrans.
  - apply IH; [lia|done].
Qed.

Lemma thread_parse_members (members : list (string * json)) :
  Forall (λ m, parses_back m.2) members →
  ∀ h f h'',
    let r := thread (λ m h, let '(h, v) := JSON_parse m.2 h in (h, (m.1, v)))
                    members h in
    h `prefix_of` r.1
    ∧ ((length r.1 - length h ≤ f)%nat → r.1 `prefix_of` h'' →
       Forall2 (λ p m, pair p.1 <$> stringify f h'' p.2 = Some (m.1, Some m.2))
               r.2 members).
Proof.
  induction 1 as [|m members Hm _ IH]; intros h f h''; cbn [thread];
    [split; [done|constructor]|].
  destruct (Hm h) as (Hp1 & _ & Hback).
  destruct (JSON_parse m.2 h) as [h1 v]. cbn [fst snd] in *.
  destruct (IH h1 f h'') as [Hp2 Hrest]. cbv zeta in *.
  destruct (thread _ members h1) as [h2 ps]. cbn [fst snd] in *.
  apply prefix_length in Hp1 as Hl1. apply prefix_length in Hp2 as Hl2.
  split; [by etrans|]. intros Hf Hp. constructor.
  - cbn [fst snd]. rewrite Hback; [done|lia|by etrans].
  - apply Hrest; [lia|done].
Qed.

Lemma omap_members (members : list (string * json))
    (l : list (string * option json)) :
  Forall2 (λ x m, x = (m.1, Some m.2)) l members →
  omap (λ m : string * option json, pair m.1 <$> m.2) l = members.
Proof.
  induction 1 as [|x [k j] l members -> _ IH]; [done|].
  cbn. by rewrite IH.
Qed.

Lemma JSON_parse_parses_back (j : json) : parses_back j.
Proof.
  induction j as [|b|n|s|items IH|members IH] using json_ind'; intros h;
    try (split; [done|split; [done|]]; intros f h'' _ _; by destruct f).
  - cbn [JSON_parse].
    pose proof (thread_prefix JSON_parse items
                  (Forall_impl _ _ _ IH (λ x Hx h, proj1 (Hx h))) h) as Hp1.
    pose proof (thread_parse_items items IH h) as Hback.
    destruct (thread JSON_parse items h) as [h1 elems]. cbn [fst snd alloc] in *.
    apply prefix_length in Hp1 as Hl1.
    split; [by apply prefix_app_r|]. split.
    + intros a [= <-]. rewrite length_app. cbn. lia.
    + intros f h'' Hf Hp. rewrite length_app in Hf. cbn in Hf.
      destruct f as [|f]; [lia|]. cbn [stringify].
      assert (Hcell : h'' !! length h1 = Some (OArray elems)).
      { eapply prefix_lookup_Some; [|exact Hp]. by rewrite lookup_app_r, Nat.sub_diag. }
      rewrite Hcell.
      erewrite (proj2 (mapM_Some _ _ _)); [done|].
      eapply Forall2_impl; [apply (Hback f h'')|].
      * lia.
      * etrans; [|exact Hp]. by apply prefix_app_r.
      * intros v j ->. done.
  - cbn [JSON_parse].
    destruct (thread_parse_members members IH h) with (f := 0%nat) (h'' := h)
      as [Hp1 _].
    pose proof (λ f h'', proj2 (thread_parse_members members IH h f h'')) as Hback.
    cbv zeta in *.
    destruct (thread _ members h) as [h1 props]. cbn [fst snd alloc] in *.
    apply prefix_length in Hp1 as Hl1.
    split; [by apply prefix_app_r|]. split.
    + intros a [= <-]. rewrite length_app. cbn. lia.
    + intros f h'' Hf Hp. rewrite length_app in Hf. cbn in Hf.
      destruct f as [|f]; [lia|]. cbn [stringify].
      assert (Hcell : h'' !! length h1 = Some (OObject props)).
      { eapply prefix_lookup_Some; [|exact Hp]. by rewrite lookup_app_r, Nat.sub_diag. }
      rewrite Hcell.
      assert (Hm : mapM (λ p : string * value, pair p.1 <$> stringify f h'' p.2) props
                   = Some ((λ m : string * json, (m.1, Some m.2)) <$> members)).
      { apply mapM_Some. apply Forall2_fmap_r.
        eapply Forall2_impl; [apply (Hback f h'')|].
        - lia.
        - etrans; [|exact Hp]. by apply prefix_app_r.
        - done. }
      rewrite Hm. cbn. do 2 f_equal. f_equal.
      apply omap_members. apply Forall2_fmap_l, Forall2_same_length_lookup.
      split; [done|]. intros i x y Hx Hy. by simplify_eq.
Qed.

(** * Cloning values, components and entities *)

Lemma data_of_mono (type : PT.t) (h h' : heap) (v : value) (d : datum) :
  data_of type h v = Some d → h `prefix_of` h' → data_of type h' v = Some d.
Proof.
  unfold data_of. intros Hd Hp. destruct (PT.clone type) as [[]|]; [done| | |done].
  - destruct v; try done. destruct (h !! a) as [[]|] eqn:Ha; try done.
    by rewrite (prefix_lookup_Some _ _ _ _ Ha Hp).
  - destruct (JSON_stringify h v) as [[j|]|] eqn:Hj; try done.
    by rewrite (JSON_stringify_mono _ _ _ _ Hj Hp).
Qed.

Lemma has_type_mono (h h' : heap) (type : PT.t) (v : value) :
  has_type h type v → h `prefix_of` h' → has_type h' type v.
Proof.
  intros Ht Hp. destruct Ht; try by constructor.
  - econstructor. by eapply prefix_lookup_Some.
  - econstructor. by eapply JSON_stringify_mono.
Qed.

Lemma has_type_data (h : heap) (type : PT.t) (v : value) :
  has_type h type v → is_Some (data_of type h v).
Proof.
  intros Ht. destruct Ht; unfold data_of; cbn; try by eexists.
  - rewrite H. by eexists.
  - rewrite H. by eexists.
Qed.

(** The [clone] of a built-in type on a value of the type: it returns, it
    only adds cells, the result is of the type and stands for the same; it
    is the source itself for the types cloned by [cloneValue], and a new
    reference whenever it is a reference of another type than Object. *)
Lemma call_clone_spec (h : heap) (type : PT.t) (v : value) :
  has_type h type v →
  ∃ f h' v',
    PT.clone type = Some f
    ∧ call_clone f h v = Some (h', v')
    ∧ h `prefix_of` h'
    ∧ has_type h' type v'
    ∧ data_of type h' v' = data_of type h v
    ∧ (PT.clone type = Some FcloneValue → v' = v)
    ∧ (type ≠ PropTypes.Object → ∀ a, v' = VRef a → (length h ≤ a < length h')%nat).
Proof.
  intros Ht. destruct Ht as [n|b|s|v|a elems Ha|v j Hj].
  - exists FcloneValue, h, (VNumber n). repeat split; try done. constructor.
  - exists FcloneValue, h, (VBool b). repeat split; try done. constructor.
  - exists FcloneValue, h, (VString s). repeat split; try done. constructor.
  - exists FcloneValue, h, v. repeat split; try done. constructor.
  - exists FcloneArray, (h ++ [OArray elems]), (VRef (length h)).
    assert (Hnew : (h ++ [OArray elems]) !! length h = Some (OArray elems))
      by (by rewrite lookup_app_r, Nat.sub_diag).
    split; [done|]. split; [cbn; by rewrite Ha|]. split; [by apply prefix_app_r|].
    split; [by econstructor|]. split; [|split; [done|]].
    + unfold data_of. cbn. by rewrite Hnew, Ha.
    + intros _ a' [= <-]. rewrite length_app. cbn. lia.
  - destruct (JSON_parse_parses_back j h) as (Hp & Hfresh & Hback).
    exists FcloneJSON, (JSON_parse j h).1, (JSON_parse j h).2.
    assert (Hj' : JSON_stringify (JSON_parse j h).1 (JSON_parse j h).2 = Some (Some j)).
    { apply Hback; [lia|done]. }
    split; [done|]. split; [cbn; unfold cloneJSON; rewrite Hj; by destruct (JSON_parse j h)|].
    split; [done|]. split; [by econstructor|]. split; [|split; [done|]].
    + unfold data_of. cbn. by rewrite Hj', Hj.
    + intros _ a Ha. by apply Hfresh.
Qed.

Lemma field_mono (h h' : heap) (c : C.t) (key : string) (v : value) :
  field h c key = Some v → h `prefix_of` h' → field h' c key = Some v.
Proof.
  unfold field, getProp. intros Hf Hp.
  destruct (h !! C.ref c) as [[]|] eqn:Hc; try done.
  by rewrite (prefix_lookup_Some _ _ _ _ Hc Hp).
Qed.

Lemma well_typed_mono (h h' : heap) (c : C.t) :
  well_typed h c → h `prefix_of` h' → well_typed h' c.
Proof.
  intros (fields & schema & Hc & Hs & Hnd & Hf) Hp. exists fields, schema.
  split; [by eapply prefix_lookup_Some|]. split; [done|]. split; [done|].
  eapply Forall_impl; [exact Hf|]. intros p (type & Ht & Hv).
  exists type. split; [done|]. by eapply has_type_mono.
Qed.

(** The loop over the schema: every field is cloned as [call_clone_spec]
    says, with the keys of the schema in their order. *)
Lemma clone_fields_spec (schema : list (string * SP.t)) (fields : list (string * value)) :
  ∀ h : heap,
    Forall (λ p, ∃ type, SP.type p.2 = Some type
              ∧ has_type h type (default VUndefined (obj_get fields p.1))) schema →
    ∃ h' fields',
      clone_fields h schema fields = Some (h', fields')
      ∧ h `prefix_of` h'
      ∧ Forall2 (λ p q,
          q.1 = p.1 ∧ ∃ type, SP.type p.2 = Some type
            ∧ has_type h' type q.2
            ∧ data_of type h' q.2
              = data_of type h' (default VUndefined (obj_get fields p.1))
            ∧ (PT.clone type = Some FcloneValue →
               q.2 = default VUndefined (obj_get fields p.1))
            ∧ (type ≠ PropTypes.Object → ∀ a, q.2 = VRef a →
               (length h ≤ a < length h')%nat))
          schema fields'.
Proof.
  induction schema as [|[key prop] schema IH]; intros h Hf.
  - exists h, []. split; [done|]. split; [done|constructor].
  - apply Forall_cons in Hf as [(type & Ht & Hv) Hf]. cbn [fst snd] in *.
    destruct (call_clone_spec h type _ Hv)
      as (f & h1 & v1 & Hc & Hcall & Hp1 & Hv1 & Hd1 & Hsame & Hfresh).
    destruct (IH h1) as (h2 & rest & Hrest & Hp2 & Hall).
    { eapply Forall_impl; [exact Hf|]. intros p (ty & ? & ?).
      exists ty. split; [done|]. by eapply has_type_mono. }
    exists h2, ((key, v1) :: rest). cbn [clone_fields].
    rewrite Ht. cbn. rewrite Hc. cbn. rewrite Hcall. cbn. rewrite Hrest. cbn.
    apply prefix_length in Hp1 as Hl1. apply prefix_length in Hp2 as Hl2.
    split; [done|]. split; [by etrans|]. constructor.
    + cbn [fst snd]. split; [done|]. exists type. split; [done|].
      split; [by eapply has_type_mono|]. split; [|split; [done|]].
      * destruct (has_type_data _ _ _ Hv) as [d Hd].
        rewrite (data_of_mono _ _ _ _ _ Hd (transitivity Hp1 Hp2)).
        rewrite Hd in Hd1. by apply (data_of_mono _ h1).
      * intros Hn a Ha. specialize (Hfresh Hn a Ha). lia.
    + eapply Forall2_impl; [exact Hall|]. intros p q (Hk & ty & ? & ? & ? & ? & Hfr).
      split; [done|]. exists ty. repeat (split; [done|]).
      intros Hn a Ha. specialize (Hfr Hn a Ha). lia.
Qed.

Lemma obj_get_Forall2 {X Y : Type} (R : string * X → string * Y → Prop)
    (l : list (string * X)) (k : list (string * Y)) (key : string) (x : X) :
  Forall2 (λ p q, q.1 = p.1 ∧ R p q) l k →
  obj_get l key = Some x →
  ∃ y, obj_get k key = Some y ∧ R (key, x) (key, y).
Proof.
  induction 1 as [|[k1 x1] [k2 y1] l k [Hk HR] _ IH]; [done|].
  cbn in Hk. subst k2. cbn [obj_get].
  destruct (decide (k1 = key)) as [->|]; [|done].
  intros [= ->]. by exists y1.
Qed.

Lemma obj_get_elem_of {X : Type} (l : list (string * X)) (key : string) (x : X) :
  obj_get l key = Some x → (key, x) ∈ l.
Proof.
  induction l as [|[k y] l IH]; [done|]. cbn [obj_get].
  destruct (decide (k = key)) as [->|]; [intros [= ->]; left|right; auto].
Qed.

Lemma obj_get_NoDup {X : Type} (l : list (string * X)) (p : string * X) :
  NoDup l.*1 → p ∈ l → obj_get l p.1 = Some p.2.
Proof.
  induction l as [|[k y] l IH]; intros Hnd Hin; [by apply elem_of_nil in Hin|].
  cbn in Hnd. apply NoDup_cons in Hnd as [Hk Hnd]. cbn [obj_get].
  apply elem_of_cons in Hin as [->|Hin]; [by rewrite decide_True|].
  rewrite decide_False; [by apply IH|].
  intros ->. apply Hk. apply list_elem_of_fmap. by exists p.
Qed.

(** [Component.clone], as modelled, on a well-typed instance. *)
Lemma Component_clone_spec (h : heap) (c : C.t) :
  well_typed h c →
  ∃ h' c',
    Component_clone h c = Some (h', c')
    ∧ h `prefix_of` h'
    ∧ well_typed h' c'
    ∧ C.constructor c' = C.constructor c
    ∧ ∀ schema key type,
        CT.schema (C.constructor c) = Some schema →
        obj_get schema key = Some (SP.mk (Some type)) →
        ∃ v v', field h' c key = Some v ∧ field h' c' key = Some v'
          ∧ data_of type h' v' = data_of type h' v
          ∧ is_Some (data_of type h' v')
          ∧ (PT.clone type = Some FcloneValue → v' = v)
          ∧ (type ≠ PropTypes.Object → ∀ a, v' = VRef a →
             (length h ≤ a < length h')%nat).
Proof.
  intros (fields & schema & Hc & Hs & Hnd & Hf).
  destruct (clone_fields_spec schema fields h Hf) as (h1 & fields' & Hcl & Hp & Hall).
  exists (h1 ++ [OObject fields']), (C.mk (length h1) (C.constructor c) false).
  unfold Component_clone. rewrite Hc, Hs. cbn. rewrite Hcl. cbn.
  assert (Hp' : h `prefix_of` h1 ++ [OObject fields']) by (by apply prefix_app_r).
  assert (Hp1 : h1 `prefix_of` h1 ++ [OObject fields']) by (by apply prefix_app_r).
  assert (Hnew : (h1 ++ [OObject fields']) !! length h1 = Some (OObject fields'))
    by (by rewrite lookup_app_r, Nat.sub_diag).
  apply prefix_length in Hp as Hl.
  split; [done|]. split; [done|]. split; [|split; [done|]].
  - exists fields', schema. cbn [C.ref C.constructor].
    split; [done|]. split; [done|]. split; [done|].
    apply Forall_forall. intros [key prop] Hin.
    pose proof (obj_get_NoDup schema (key, prop) Hnd Hin) as Hget. cbn [fst snd] in *.
    destruct (obj_get_Forall2 _ _ _ _ _ Hall Hget) as (v' & Hv' & ty & Hty & Ht & _).
    exists ty. split; [done|]. rewrite Hv'. cbn. by eapply has_type_mono.
  - intros schema' key type Hs' Hget. rewrite ?Hs in Hs'. injection Hs' as <-.
    destruct (obj_get_Forall2 _ _ _ _ _ Hall Hget)
      as (v' & Hv' & ty & Hty & Ht & Hd & Hsame & Hfresh).
    cbn [fst snd] in *. injection Hty as <-.
    exists (default VUndefined (obj_get fields key)), v'.
    split; [unfold field, getProp; by rewrite (prefix_lookup_Some _ _ _ _ Hc Hp')|].
    split; [unfold field, getProp; cbn [C.ref]; by rewrite Hnew, Hv'|].
    destruct (has_type_data _ _ _ Ht) as [d Hd'].
    rewrite Hd' in Hd. symmetry in Hd.
    split; [by rewrite (data_of_mono _ _ _ _ _ Hd' Hp1), (data_of_mono _ _ _ _ _ Hd Hp1)|].
    split; [rewrite (data_of_mono _ _ _ _ _ Hd' Hp1); by eexists|].
    split; [done|]. intros Hn a Ha. specialize (Hfresh Hn a Ha).
    rewrite length_app. cbn. lia.
Qed.

(** * Comparing an entity with its copy *)

Lemma well_typed_field (h : heap) (c : C.t) (schema : list (string * SP.t))
    (key : string) (type : PT.t) :
  well_typed h c →
  CT.schema (C.constructor c) = Some schema →
  obj_get schema key = Some (SP.mk (Some type)) →
  ∃ v, field h c key = Some v ∧ has_type h type v.
Proof.
  intros (fields & schema' & Hc & Hs & Hnd & Hf) Hs' Hget.
  rewrite Hs in Hs'. injection Hs' as ->.
  apply obj_get_elem_of in Hget.
  apply (proj1 (Forall_forall _ _) Hf) in Hget as (ty & [= <-] & Ht).
  exists (default VUndefined (obj_get fields key)).
  split; [|done]. unfold field, getProp. by rewrite Hc.
Qed.

Lemma akin_refl (h : heap) (c : C.t) : well_typed h c → akin h c c.
Proof.
  intros Hw. split; [done|]. split; [done|]. split; [done|].
  intros schema key type Hs Hget.
  destruct (well_typed_field _ _ _ _ _ Hw Hs Hget) as (v & Hv & _).
  by exists v, v.
Qed.

Lemma akin_mono (h h' : heap) (c1 c2 : C.t) :
  akin h c1 c2 → h `prefix_of` h' → akin h' c1 c2.
Proof.
  intros (Hc & Hw1 & Hw2 & Hf) Hp.
  split; [done|]. split; [by eapply well_typed_mono|].
  split; [by eapply well_typed_mono|].
  intros schema key type Hs Hget.
  destruct (Hf schema key type Hs Hget) as (v1 & v2 & H1 & H2 & Hd).
  destruct (well_typed_field _ _ _ _ _ Hw1 Hs Hget) as (v & Hv & Ht).
  rewrite H1 in Hv. injection Hv as <-.
  destruct (has_type_data _ _ _ Ht) as [d Hd1]. rewrite Hd1 in Hd. symmetry in Hd.
  exists v1, v2. split; [by eapply field_mono|]. split; [by eapply field_mono|].
  by rewrite (data_of_mono _ _ _ _ _ Hd1 Hp), (data_of_mono _ _ _ _ _ Hd Hp).
Qed.

Lemma clone_akin (h h' : heap) (c c' : C.t) :
  well_typed h c → Component_clone h c = Some (h', c') →
  h `prefix_of` h' ∧ akin h' c c'.
Proof.
  intros Hw Hcl.
  destruct (Component_clone_spec h c Hw) as (h1 & c1 & Hcl1 & Hp & Hw1 & Hc & Hf).
  rewrite Hcl in Hcl1. injection Hcl1 as <- <-.
  split; [done|]. split; [done|]. split; [by eapply well_typed_mono|].
  split; [done|]. intros schema key type Hs Hget.
  destruct (Hf schema key type Hs Hget) as (v & v' & Hv & Hv' & Hd & _).
  by exists v, v'.
Qed.

(** Two instances that are akin, cloned one after the other. *)
Lemma clones_compare (h : heap) (c1 c2 : C.t) :
  akin h c1 c2 →
  ∃ h2 c1' h3 c2',
    Component_clone h c1 = Some (h2, c1')
    ∧ Component_clone h2 c2 = Some (h3, c2')
    ∧ ∀ schema key type,
        CT.schema (C.constructor c1) = Some schema →
        obj_get schema key = Some (SP.mk (Some type)) →
        ∃ va vb, field h3 c1' key = Some va ∧ field h3 c2' key = Some vb
          ∧ value_equal type h3 va vb
          ∧ (type ∈ builtin_copying → ¬ aliased va vb)
          ∧ (type = PropTypes.Object → va = vb).
Proof.
  intros (Hc & Hw1 & Hw2 & Hf).
  destruct (Component_clone_spec h c1 Hw1) as (h2 & c1' & Hcl1 & Hp12 & _ & _ & Hf1).
  destruct (Component_clone_spec h2 c2 (well_typed_mono _ _ _ Hw2 Hp12))
    as (h3 & c2' & Hcl2 & Hp23 & _ & _ & Hf2).
  exists h2, c1', h3, c2'. split; [done|]. split; [done|].
  intros schema key type Hs Hget.
  destruct (Hf schema key type Hs Hget) as (v1 & v2 & Hv1 & Hv2 & Hd).
  destruct (Hf1 schema key type Hs Hget) as (v1' & va & Hv1' & Hva & Hda & Hsa & Hsame1 & Hfresh1).
  rewrite (field_mono _ _ _ _ _ Hv1 Hp12) in Hv1'. injection Hv1' as <-.
  rewrite Hc in Hs.
  destruct (Hf2 schema key type Hs Hget) as (v2' & vb & Hv2' & Hvb & Hdb & _ & Hsame2 & Hfresh2).
  rewrite (field_mono _ _ _ _ _ Hv2 (transitivity Hp12 Hp23)) in Hv2'.
  injection Hv2' as <-.
  rewrite <- Hc in Hs.
  destruct (well_typed_field _ _ _ _ _ Hw1 Hs Hget) as (v & Hv & Ht).
  rewrite Hv1 in Hv. injection Hv as <-.
  destruct (has_type_data _ _ _ Ht) as [d Hd1].
  rewrite Hd1 in Hd. symmetry in Hd.
  rewrite (data_of_mono _ _ _ _ _ Hd1 Hp12) in Hda.
  rewrite (data_of_mono _ _ _ _ _ Hd (transitivity Hp12 Hp23)) in Hdb.
  exists va, vb. split; [by eapply field_mono|]. split; [done|]. split; [|split].
  - exists d. split; [by eapply data_of_mono|done].
  - intros Hin (a & -> & ->).
    assert (Hn : type ≠ PropTypes.Object).
    { intros ->. unfold builtin_copying in Hin.
      repeat (apply elem_of_cons in Hin as [Hin|Hin]; [discriminate|]).
      by apply elem_of_nil in Hin. }
    specialize (Hfresh1 Hn a eq_refl). specialize (Hfresh2 Hn a eq_refl). lia.
  - intros ->. rewrite (Hsame1 eq_refl), (Hsame2 eq_refl).
    unfold data_of in Hd1, Hd. cbn in Hd1, Hd. congruence.
Qed.

(** The loop of [copy]: every entry of the source is cloned and stored
    under its name; the other names of the destination stay. *)
Lemma copy_loop_spec (entries : list (string * C.t)) :
  ∀ (h : heap) (this : E.t),
    NoDup entries.*1 →
    Forall (λ entry, well_typed h entry.2) entries →
    ∃ h1 this',
      copy_loop h this entries = Some (h1, this')
      ∧ h `prefix_of` h1
      ∧ (∀ name, name ∉ entries.*1 →
           obj_get (E.components this') name = obj_get (E.components this) name)
      ∧ (∀ name c, obj_get entries name = Some c →
           ∃ c', obj_get (E.components this') name = Some c' ∧ akin h1 c c').
Proof.
  induction entries as [|[n c] entries IH]; intros h this Hnd Hw.
  - exists h, this. by repeat split.
  - cbn in Hnd. apply NoDup_cons in Hnd as [Hn Hnd].
    apply Forall_cons in Hw as [Hc Hw]. cbn [snd] in Hc.
    destruct (Component_clone_spec h c Hc) as (h' & c' & Hcl & Hp & _).
    destruct (clone_akin _ _ _ _ Hc Hcl) as [_ Hakin].
    set (this1 := E.set_componentTypes
                    (push (E.componentTypes (E.set_components
                       (obj_set (E.components this) n c') this)) (C.constructor c))
                    (E.set_components (obj_set (E.components this) n c') this)).
    destruct (IH h' this1 Hnd) as (h1 & this' & Hloop & Hp1 & Hkeep & Hnew).
    { eapply Forall_impl; [exact Hw|]. intros e He.
      exact (well_typed_mono _ _ _ He Hp). }
    exists h1, this'. cbn [copy_loop]. rewrite Hcl.
    change (copy_loop h' this1 entries = Some (h1, this')
            ∧ h `prefix_of` h1
            ∧ (∀ name, name ∉ ((n, c) :: entries).*1 →
                 obj_get (E.components this') name = obj_get (E.components this) name)
            ∧ (∀ name c0, obj_get ((n, c) :: entries) name = Some c0 →
                 ∃ c'0, obj_get (E.components this') name = Some c'0 ∧ akin h1 c0 c'0)).
    rewrite Hloop.
    split; [done|]. split; [by etrans|]. split.
    + intros name Hname. cbn in Hname. apply not_elem_of_cons in Hname as [Hne Hname].
      rewrite (Hkeep name Hname). subst this1. cbn. by apply obj_get_set_ne.
    + intros name c0. cbn [obj_get].
      destruct (decide (n = name)) as [<-|Hne]; [|by apply Hnew].
      intros [= <-]. exists c'. split; [|by eapply akin_mono].
      rewrite (Hkeep n Hn). subst this1. cbn. apply obj_get_set_eq.
Qed.

(** A reference that a field of a built-in type other than Object holds
    points into the heap. *)
Lemma has_type_ref_bound (h : heap) (type : PT.t) (v : value) (a : nat) :
  has_type h type v → type ≠ PropTypes.Object → v = VRef a → (a < length h)%nat.
Proof.
  intros Ht Hn ->. inversion Ht as [| | | |a' elems Ha|v' j Hj]; subst; try done.
  - by eapply lookup_lt_Some.
  - unfold JSON_stringify in Hj. destruct (length h) eqn:Hl; [done|].
    cbn [stringify] in Hj. destruct (h !! a) eqn:Ha; [|done].
    apply lookup_lt_Some in Ha. lia.
Qed.

(** The instance that the model of [Component.clone] returns is a new
    object. *)
Lemma Component_clone_ref (h h' : heap) (c c' : C.t) :
  well_typed h c → Component_clone h c = Some (h', c') →
  (C.ref c < length h)%nat ∧ (length h ≤ C.ref c' < length h')%nat.
Proof.
  intros (fields & schema & Hc & Hs & Hnd & Hf) Hcl.
  destruct (clone_fields_spec schema fields h Hf) as (h1 & fields' & Hcf & Hp & _).
  unfold Component_clone in Hcl. rewrite Hc, Hs in Hcl.
  cbn [mbind option_bind] in Hcl. rewrite Hcf in Hcl. cbn [mbind option_bind] in Hcl.
  injection Hcl as <- <-. cbn [C.ref].
  apply lookup_lt_Some in Hc. apply prefix_length in Hp. rewrite length_app. cbn. lia.
Qed.

(** The loop of [copy] once more, with what makes the copy independent of
    the source: the instance stored is a new object, and a reference in a
    field of a type other than Object is a new reference. *)
Lemma copy_loop_independent (entries : list (string * C.t)) :
  ∀ (h : heap) (this : E.t),
    NoDup entries.*1 →
    Forall (λ entry, well_typed h entry.2) entries →
    ∃ h1 this',
      copy_loop h this entries = Some (h1, this')
      ∧ h `prefix_of` h1
      ∧ (∀ name, name ∉ entries.*1 →
           obj_get (E.components this') name = obj_get (E.components this) name)
      ∧ (∀ name c, obj_get entries name = Some c →
           ∃ c', obj_get (E.components this') name = Some c'
             ∧ akin h1 c c'
             ∧ (length h ≤ C.ref c' < length h1)%nat
             ∧ ∀ schema key type,
                 CT.schema (C.constructor c) = Some schema →
                 obj_get schema key = Some (SP.mk (Some type)) →
                 ∃ v', field h1 c' key = Some v'
                   ∧ (type ≠ PropTypes.Object → ∀ a, v' = VRef a →
                      (length h ≤ a < length h1)%nat)).
Proof.
  induction entries as [|[n c] entries IH]; intros h this Hnd Hw.
  - exists h, this. by repeat split.
  - cbn in Hnd. apply NoDup_cons in Hnd as [Hn Hnd].
    apply Forall_cons in Hw as [Hc Hw]. cbn [snd] in Hc.
    destruct (Component_clone_spec h c Hc) as (h' & c' & Hcl & Hp & _ & _ & Hfields).
    destruct (clone_akin _ _ _ _ Hc Hcl) as [_ Hakin].
    destruct (Component_clone_ref _ _ _ _ Hc Hcl) as [_ Href].
    set (this1 := E.set_componentTypes
                    (push (E.componentTypes (E.set_components
                       (obj_set (E.components this) n c') this)) (C.constructor c))
                    (E.set_components (obj_set (E.components this) n c') this)).
    destruct (IH h' this1 Hnd) as (h1 & this' & Hloop & Hp1 & Hkeep & Hnew).
    { eapply Forall_impl; [exact Hw|]. intros e He.
      exact (well_typed_mono _ _ _ He Hp). }
    apply prefix_length in Hp as Hl. apply prefix_length in Hp1 as Hl1.
    exists h1, this'. cbn [copy_loop]. rewrite Hcl.
    change (copy_loop h' this1 entries = Some (h1, this')
            ∧ h `prefix_of` h1
            ∧ (∀ name, name ∉ ((n, c) :: entries).*1 →
                 obj_get (E.components this') name = obj_get (E.components this) name)
            ∧ (∀ name c0, obj_get ((n, c) :: entries) name = Some c0 →
                 ∃ c'0, obj_get (E.components this') name = Some c'0
                   ∧ akin h1 c0 c'0
                   ∧ (length h ≤ C.ref c'0 < length h1)%nat
                   ∧ ∀ schema key type,
                       CT.schema (C.constructor c0) = Some schema →
                       obj_get schema key = Some (SP.mk (Some type)) →
                       ∃ v', field h1 c'0 key = Some v'
                         ∧ (type ≠ PropTypes.Object → ∀ a, v' = VRef a →
                            (length h ≤ a < length h1)%nat))).
    split; [done|]. split; [by etrans|]. split.
    + intros name Hname. cbn in Hname. apply not_elem_of_cons in Hname as [Hne Hname].
      rewrite (Hkeep name Hname). subst this1. cbn. by apply obj_get_set_ne.
    + intros name c0. cbn [obj_get].
      destruct (decide (n = name)) as [<-|Hne].
      * intros [= <-]. exists c'. split.
        { rewrite (Hkeep n Hn). subst this1. cbn. apply obj_get_set_eq. }
        split; [by eapply akin_mono|]. split; [lia|].
        intros schema key type Hs Hget.
        destruct (Hfields schema key type Hs Hget) as (v & v' & _ & Hv' & _ & _ & _ & Hfr).
        exists v'. split; [by eapply field_mono|].
        intros Hty a Ha. specialize (Hfr Hty a Ha). lia.
      * intros Hc0. destruct (Hnew name c0 Hc0) as (c0' & H1 & H2 & H3 & H4).
        exists c0'. split; [done|]. split; [done|]. split; [lia|].
        intros schema key type Hs Hget.
        destruct (H4 schema key type Hs Hget) as (v' & Hv' & Hfr).
        exists v'. split; [done|]. intros Hty a Ha. specialize (Hfr Hty a Ha). lia.
Qed.

(** C9. After [this.copy(source)], for entities whose components are
    well typed, each component of the source has a counterpart under the
    same name: an instance of the same type and another object than the
    source's. Field by field, the source's value (which the copy leaves as
    it was), the counterpart's value and the values in a clone of each
    stand for the same data; for fields of the types JSON, Array, Number,
    Boolean and String no two of these four are one and the same
    reference, and for fields of the type Object all four are one and the
    same value. *)
Theorem copy_then_clone_compare (w : W.t) (h : heap) (this source : nat) :
  NoDup (E.components (getE w source)).*1 →
  Forall (λ entry, well_typed h entry.2) (E.components (getE w source)) →
  ∃ h1 w1,
    Entity_copy_in w h this source = Some (h1, w1)
    ∧ (this ≠ source → getE w1 source = getE w source)
    ∧ ∀ name ca, obj_get (E.components (getE w source)) name = Some ca →
        ∃ cA cb h2 cA' h3 cb',
          obj_get (E.components (getE w1 source)) name = Some cA
          ∧ (this ≠ source → cA = ca)
          ∧ obj_get (E.components (getE w1 this)) name = Some cb
          ∧ C.constructor cb = C.constructor ca
          ∧ C.ref cb ≠ C.ref ca
          ∧ Component_clone h1 cA = Some (h2, cA')
          ∧ Component_clone h2 cb = Some (h3, cb')
          ∧ ∀ schema key type,
              CT.schema (C.constructor ca) = Some schema →
              obj_get schema key = Some (SP.mk (Some type)) →
              ∃ sa sb va vb,
                field h ca key = Some sa
                ∧ field h3 ca key = Some sa
                ∧ field h3 cb key = Some sb
                ∧ field h3 cA' key = Some va
                ∧ field h3 cb' key = Some vb
                ∧ data_of type h3 sa = data_of type h sa
                ∧ value_equal type h3 sa sb
                ∧ value_equal type h3 sa va
                ∧ value_equal type h3 sa vb
                ∧ value_equal type h3 va vb
                ∧ (type ∈ builtin_copying →
                   ¬ aliased sa sb ∧ ¬ aliased va vb ∧ ¬ aliased sa va
                   ∧ ¬ aliased sa vb ∧ ¬ aliased sb va ∧ ¬ aliased sb vb)
                ∧ (type = PropTypes.Object → sb = sa ∧ va = sa ∧ vb = sa).
Proof.
  intros Hnd Hw.
  destruct (copy_loop_independent _ h (getE w this) Hnd Hw)
    as (h1 & this' & Hloop & Hp & _ & Hnew).
  exists h1, (updE w this (λ _, this')).
  unfold Entity_copy_in, Entity_copy. rewrite Hloop. split; [done|].
  split; [intros Hne; by rewrite getE_updE_ne|].
  intros name ca Hca.
  destruct (Hnew name ca Hca) as (cb & Hcb & Hakin & Hrefb & Hfreshb).
  assert (Hwa : well_typed h ca).
  { apply obj_get_elem_of in Hca.
    exact (proj1 (Forall_forall _ _) Hw _ Hca). }
  rewrite getE_updE_eq.
  set (cA := if decide (this = source) then cb else ca).
  assert (HcA : obj_get (E.components (getE (updE w this (λ _, this')) source)) name
                = Some cA ∧ (this ≠ source → cA = ca) ∧ akin h1 ca cA).
  { subst cA. destruct (decide (this = source)) as [->|Hne].
    - by rewrite getE_updE_eq.
    - rewrite getE_updE_ne by done. split; [done|]. split; [done|].
      destruct Hakin as (_ & Hw1 & _). by apply akin_refl. }
  destruct HcA as (HgetA & HsameA & HakinA). clearbody cA.
  destruct Hakin as (Hcons & Hw1a & Hw1b & Hfab).
  destruct HakinA as (HconsA & _ & Hw1A & HfaA).
  destruct (Component_clone_spec h1 cA Hw1A)
    as (h2 & cA' & Hcl1 & Hp12 & _ & _ & Hf1).
  destruct (Component_clone_spec h2 cb (well_typed_mono _ _ _ Hw1b Hp12))
    as (h3 & cb' & Hcl2 & Hp23 & _ & _ & Hf2).
  assert (Hp13 : h1 `prefix_of` h3) by (by etrans).
  assert (Hp03 : h `prefix_of` h3) by (by etrans).
  apply prefix_length in Hp as Hl01. apply prefix_length in Hp12 as Hl12.
  apply prefix_length in Hp23 as Hl23.
  exists cA, cb, h2, cA', h3, cb'.
  split; [done|]. split; [done|]. split; [done|]. split; [done|]. split.
  { destruct Hwa as (? & ? & Hra & _). apply lookup_lt_Some in Hra. lia. }
  split; [done|]. split; [done|].
  intros schema key type Hs Hget.
  destruct (well_typed_field _ _ _ _ _ Hwa Hs Hget) as (sa & Hsa & Hta).
  destruct (has_type_data _ _ _ Hta) as [d Hd].
  pose proof (data_of_mono _ _ _ _ _ Hd Hp) as Hd1.
  pose proof (data_of_mono _ _ _ _ _ Hd Hp03) as Hd3.
  destruct (Hfab schema key type Hs Hget) as (v1 & sb & Hv1 & Hsb & Hdab).
  rewrite (field_mono _ _ _ _ _ Hsa Hp) in Hv1. injection Hv1 as <-.
  rewrite Hd1 in Hdab. symmetry in Hdab.
  destruct (HfaA schema key type Hs Hget) as (v1 & sA & Hv1 & HsA & HdaA).
  rewrite (field_mono _ _ _ _ _ Hsa Hp) in Hv1. injection Hv1 as <-.
  rewrite Hd1 in HdaA. symmetry in HdaA.
  destruct (Hfreshb schema key type Hs Hget) as (sb' & Hsb' & Hfrb).
  rewrite Hsb in Hsb'. injection Hsb' as <-.
  rewrite HconsA in Hs.
  destruct (Hf1 schema key type Hs Hget)
    as (v & va & Hv & Hva & Hdva & _ & Hsame1 & Hfr1).
  rewrite (field_mono _ _ _ _ _ HsA Hp12) in Hv. injection Hv as <-.
  rewrite <- HconsA in Hs. rewrite Hcons in Hs.
  destruct (Hf2 schema key type Hs Hget)
    as (v & vb & Hv & Hvb & Hdvb & _ & Hsame2 & Hfr2).
  rewrite (field_mono _ _ _ _ _ Hsb Hp13) in Hv. injection Hv as <-.
  rewrite (data_of_mono _ _ _ _ _ HdaA Hp12) in Hdva.
  rewrite (data_of_mono _ _ _ _ _ Hdab Hp13) in Hdvb.
  pose proof (data_of_mono _ _ _ _ _ Hdva Hp23) as Hdva3.
  pose proof (data_of_mono _ _ _ _ _ Hdab Hp13) as Hdb3.
  exists sa, sb, va, vb.
  split; [done|]. split; [exact (field_mono _ _ _ _ _ Hsa Hp03)|].
  split; [exact (field_mono _ _ _ _ _ Hsb Hp13)|].
  split; [exact (field_mono _ _ _ _ _ Hva Hp23)|]. split; [done|].
  split; [by rewrite Hd3|].
  split; [by exists d|]. split; [by exists d|]. split; [by exists d|].
  split; [by exists d|]. split.
  - intros Hin.
    assert (Hn : type ≠ PropTypes.Object).
    { intros ->. unfold builtin_copying in Hin.
      repeat (apply elem_of_cons in Hin as [Hin|Hin]; [discriminate|]).
      by apply elem_of_nil in Hin. }
    pose proof (has_type_ref_bound h type sa) as Hba.
    specialize (Hfrb Hn). specialize (Hfr1 Hn). specialize (Hfr2 Hn).
    repeat split; intros (a & -> & Heq);
      try (pose proof (Hba a Hta Hn eq_refl));
      try (pose proof (Hfrb a Heq)); try (pose proof (Hfrb a eq_refl));
      try (pose proof (Hfr1 a Heq)); try (pose proof (Hfr1 a eq_refl));
      try (pose proof (Hfr2 a Heq)); try (pose proof (Hfr2 a eq_refl)); lia.
  - intros ->.
    assert (Hsb_eq : sb = sa).
    { unfold data_of in Hd1, Hdab. cbn in Hd1, Hdab. congruence. }
    assert (HsA_eq : sA = sa).
    { unfold data_of in Hd1, HdaA. cbn in Hd1, HdaA. congruence. }
    rewrite (Hsame1 eq_refl), (Hsame2 eq_refl). by rewrite HsA_eq, Hsb_eq.
Qed.

Lemma profile_well_typed : well_typed heapP profile.
Proof.
  exists [("tags", VRef 1); ("meta", VRef 2); ("score", VNumber 7); ("handle", VRef 3)],
         [("tags", SP.mk (Some PropTypes.Array));
          ("meta", SP.mk (Some PropTypes.JSON));
          ("score", SP.mk (Some PropTypes.Number));
          ("handle", SP.mk (Some PropTypes.Object))].
  split; [reflexivity|]. split; [reflexivity|]. split.
  - cbn. repeat (apply NoDup_cons; split;
              [rewrite ?not_elem_of_cons; repeat split; try discriminate;
               apply not_elem_of_nil|]).
    apply NoDup_nil_2.
  - repeat constructor.
    + exists PropTypes.Array. split; [reflexivity|].
      apply (has_Array heapP 1 [VNumber 1; VNumber 2]). reflexivity.
    + exists PropTypes.JSON. split; [reflexivity|].
      apply (has_JSON heapP (VRef 2)
               (JObject [("a", JNumber 1); ("b", JArray [JNumber 1; JNumber 2])])).
      vm_compute. reflexivity.
    + exists PropTypes.Number. split; [reflexivity|]. apply has_Number.
    + exists PropTypes.Object. split; [reflexivity|]. apply has_Object.
Defined.

Lemma copy_then_clone_compare_witness :
  NoDup (E.components (getE worldP 0%nat)).*1
  ∧ Forall (λ entry, well_typed heapP entry.2) (E.components (getE worldP 0%nat))
  ∧ ∃ h1 w1, Entity_copy_in worldP heapP 1%nat 0%nat = Some (h1, w1).
Proof.
  assert (Hc : E.components (getE worldP 0%nat) = [("Profile"%string, profile)])
    by (vm_compute; reflexivity).
  assert (H1 : NoDup (E.components (getE worldP 0%nat)).*1).
  { rewrite Hc. apply NoDup_singleton. }
  assert (H2 : Forall (λ entry, well_typed heapP entry.2)
                 (E.components (getE worldP 0%nat))).
  { rewrite Hc. constructor; [exact profile_well_typed|constructor]. }
  destruct (copy_then_clone_compare worldP heapP 1%nat 0%nat H1 H2)
    as (h1 & w1 & H3 & _).
  exact (conj H1 (conj H2 (ex_intro _ h1 (ex_intro _ w1 H3)))).
Defined.

(** * Matching, and the query index under attach and detach *)

Lemma hasComponent_live (e : E.t) (Component : CT.t) :
  Entity_hasComponent e Component false = true ↔ Component ∈ E.componentTypes e.
Proof.
  unfold Entity_hasComponent. rewrite andb_false_l, orb_false_r. apply includes_true.
Qed.

Lemma hasAllComponents_spec (e : E.t) (Components : list CT.t) :
  Entity_hasAllComponents e Components = true
  ↔ ∀ Component, Component ∈ Components → Component ∈ E.componentTypes e.
Proof.
  induction Components as [|X rest IH]; cbn [Entity_hasAllComponents].
  - split; [intros _ ? Hin; by apply elem_of_nil in Hin|done].
  - destruct (Entity_hasComponent e X false) eqn:HX; cbn [negb].
    + apply hasComponent_live in HX. rewrite IH. split.
      * intros H Y HY. apply elem_of_cons in HY as [->|HY]; auto.
      * intros H Y HY. apply H. by right.
    + split; [done|]. intros H. assert (HX' : X ∈ E.componentTypes e) by (apply H; left).
      apply hasComponent_live in HX'. congruence.
Qed.

Lemma hasAnyComponents_spec (e : E.t) (Components : list CT.t) :
  Entity_hasAnyComponents e Components = true
  ↔ ∃ Component, Component ∈ Components ∧ Component ∈ E.componentTypes e.
Proof.
  induction Components as [|X rest IH]; cbn [Entity_hasAnyComponents].
  - split; [done|]. intros (? & Hin & _). by apply elem_of_nil in Hin.
  - destruct (Entity_hasComponent e X false) eqn:HX.
    + apply hasComponent_live in HX. split; [|done]. intros _. exists X. split; [left|done].
    + rewrite IH. split.
      * intros (Y & HY & HY'). exists Y. split; [by right|done].
      * intros (Y & HY & HY'). apply elem_of_cons in HY as [->|HY].
        -- apply hasComponent_live in HY'. congruence.
        -- by exists Y.
Qed.

Lemma Query_match_spec (q : Q.t) (e : E.t) :
  Query_match q e = true
  ↔ (∀ X, X ∈ Q.Components q → X ∈ E.componentTypes e)
    ∧ (∀ X, X ∈ Q.NotComponents q → X ∉ E.componentTypes e).
Proof.
  unfold Query_match. rewrite andb_true_iff, negb_true_iff, hasAllComponents_spec.
  split; intros [H1 H2]; (split; [done|]).
  - intros X HX HX'. apply not_true_iff_false in H2. apply H2.
    apply hasAnyComponents_spec. by exists X.
  - apply not_true_iff_false. intros (X & HX & HX')%hasAnyComponents_spec.
    by apply (H2 X).
Qed.

Lemma Query_match_ext (q q' : Q.t) (e e' : E.t) :
  Q.Components q' = Q.Components q → Q.NotComponents q' = Q.NotComponents q →
  E.componentTypes e' = E.componentTypes e →
  Query_match q' e' = Query_match q e.
Proof.
  intros H1 H2 H3. apply eq_true_iff_eq. rewrite !Query_match_spec.
  by rewrite H1, H2, H3.
Qed.

Lemma Query_addEntity_at (w : W.t) (i entity : nat) (q : Q.t) :
  W.queries w !! i = Some q →
  W.queries (Query_addEntity w i entity) !! i
  = Some (Q.set_entities (push (Q.entities q) entity) q).
Proof.
  intros Hq. unfold Query_addEntity. rewrite Hq. cbn.
  by rewrite list_lookup_alter_eq, Hq.
Qed.

Lemma Query_removeEntity_at (w : W.t) (i entity : nat) (q : Q.t) :
  W.queries w !! i = Some q →
  W.queries (Query_removeEntity w i entity) !! i
  = Some (if indexOf (Q.entities q) entity =? -1 then q
          else Q.set_entities (splice1 (Q.entities q) (indexOf (Q.entities q) entity)) q).
Proof.
  intros Hq. unfold Query_removeEntity. rewrite Hq.
  destruct (_ =? -1); [done|]. cbn. by rewrite list_lookup_alter_eq, Hq.
Qed.

Lemma elem_of_push {A : Type} (l : list A) (x y : A) :
  y ∈ push l x ↔ y ∈ l ∨ y = x.
Proof. unfold push. by rewrite elem_of_app, list_elem_of_singleton. Qed.

Lemma NoDup_push {A : Type} (l : list A) (x : A) :
  NoDup l → x ∉ l → NoDup (push l x).
Proof.
  intros Hnd Hx. unfold push. apply NoDup_app. split; [done|].
  split; [|apply NoDup_singleton].
  intros y Hy Hy'. apply list_elem_of_singleton in Hy' as ->. done.
Qed.

(** Taking out the first occurrence of [x] from a list without duplicates. *)
Lemma splice1_indexOf_spec `{EqDecision A} (l : list A) (x : A) :
  NoDup l → x ∈ l →
  NoDup (splice1 l (indexOf l x))
  ∧ (x ∉ splice1 l (indexOf l x))
  ∧ (∀ y, y ≠ x → (y ∈ splice1 l (indexOf l x) ↔ y ∈ l)).
Proof.
  intros Hnd Hx. destruct (indexOf_lookup l x Hx) as (k & -> & Hk & _).
  rewrite splice1_nat by (by apply lookup_lt_Some in Hk).
  destruct (delete_index_spec l k x Hk Hnd) as [H1 H2].
  split; [|done]. rewrite delete_take_drop.
  rewrite <- (take_drop_middle l k x Hk) in Hnd.
  apply NoDup_app in Hnd as (Ht & Hdis & Hd). apply NoDup_cons in Hd as [_ Hd].
  apply NoDup_app. split; [done|]. split; [|done].
  intros y Hy Hy'. apply (Hdis y Hy). by right.
Qed.

(** The query at position [i] after the body of the loop of
    [onComponentAdded] for [i]: the entity is listed exactly when it
    matches, given that it was so before it got the type; the other entries
    are as before. *)
Lemma onComponentAdded_query_at (w : W.t) (entity : nat) (Component : CT.t)
    (i : nat) (q : Q.t) (types : list CT.t) :
  W.queries w !! i = Some q →
  E.componentTypes (getE w entity) = push types Component →
  NoDup (Q.entities q) →
  (entity ∈ Q.entities q
   ↔ (∀ X, X ∈ Q.Components q → X ∈ types)
     ∧ (∀ X, X ∈ Q.NotComponents q → X ∉ types)) →
  ∃ q',
    W.queries (onComponentAdded_query entity Component w i) !! i = Some q'
    ∧ Q.Components q' = Q.Components q
    ∧ Q.NotComponents q' = Q.NotComponents q
    ∧ NoDup (Q.entities q')
    ∧ (entity ∈ Q.entities q' ↔ Query_match q (getE w entity) = true)
    ∧ (∀ r, r ≠ entity → (r ∈ Q.entities q' ↔ r ∈ Q.entities q)).
Proof.
  intros Hq Htypes Hnd Hinv. unfold onComponentAdded_query. rewrite Hq.
  assert (Hmatch : Query_match q (getE w entity) = true
                   ↔ (∀ X, X ∈ Q.Components q → X ∈ types ∨ X = Component)
                     ∧ (∀ X, X ∈ Q.NotComponents q → (X ∉ types) ∧ X ≠ Component)).
  { rewrite Query_match_spec, Htypes. split; intros [H1 H2]; split; intros X HX.
    - by apply elem_of_push, H1.
    - specialize (H2 X HX). rewrite elem_of_push in H2. tauto.
    - by apply elem_of_push, H1.
    - rewrite elem_of_push. specialize (H2 X HX). tauto. }
  destruct (includes (Q.NotComponents q) Component) eqn:HN;
    [apply includes_true in HN|apply includes_false in HN];
  (destruct (includes (Q.entities q) entity) eqn:HE;
    [apply includes_true in HE|apply includes_false in HE]); cbn [andb].
  - (* excluded type, listed: removed *)
    rewrite (Query_removeEntity_at _ _ _ _ Hq).
    destruct (splice1_indexOf_spec _ _ Hnd HE) as (H1 & H2 & H3).
    destruct (indexOf_lookup _ _ HE) as (k & Hk & _).
    rewrite Hk. destruct (Z.eqb_spec (Z.of_nat k) (-1)); [lia|]. rewrite <- Hk.
    eexists. split; [done|]. cbn. split; [done|]. split; [done|]. split; [done|].
    split; [|done]. split; [done|]. intros Hm. apply Hmatch in Hm as [_ Hm].
    by destruct (Hm Component HN).
  - (* excluded type, not listed: nothing to do, and no match *)
    assert (Hno : Query_match q (getE w entity) = false).
    { apply not_true_iff_false. intros [_ Hm]%Hmatch. by destruct (Hm Component HN). }
    rewrite Hno. cbn. rewrite orb_true_r.
    exists q. split; [done|]. split; [done|]. split; [done|]. split; [done|].
    split; [|done]. split; [done|congruence].
  - (* not excluded, listed: stays, and still matches *)
    rewrite !orb_true_r. exists q.
    split; [done|]. split; [done|]. split; [done|]. split; [done|].
    split; [|done]. split; [|done]. intros _. apply Hmatch.
    apply Hinv in HE as [H1 H2]. split.
    + intros X HX. left. by apply H1.
    + intros X HX. split; [by apply H2|]. intros ->. done.
  - (* not excluded, not listed *)
    rewrite orb_false_r.
    destruct (includes (Q.Components q) Component) eqn:HC;
      [apply includes_true in HC|apply includes_false in HC]; cbn [negb orb].
    + destruct (Query_match q (getE w entity)) eqn:Hm; cbn [negb].
      * rewrite (Query_addEntity_at _ _ _ _ Hq). eexists. split; [done|]. cbn.
        split; [done|]. split; [done|]. split; [by apply NoDup_push|]. split.
        -- rewrite elem_of_push. tauto.
        -- intros r Hr. rewrite elem_of_push. tauto.
      * exists q. split; [done|]. split; [done|]. split; [done|]. split; [done|].
        split; [|done]. split; [done|congruence].
    + exists q. split; [done|]. split; [done|]. split; [done|]. split; [done|].
      split; [|done]. split; [done|].
      intros [H1 H2]%Hmatch. exfalso. apply HE, Hinv. split.
      * intros X HX. destruct (H1 X HX) as [Hx | ->]; done.
      * intros X HX. by destruct (H2 X HX).
Qed.

Lemma notified_query_lookup (w w' : W.t) (i : nat) (q' : Q.t) :
  notified w w' → W.queries w' !! i = Some q' →
  ∃ q, W.queries w !! i = Some q.
Proof.
  intros (_ & _ & Hq) Hq'. specialize (Hq i). rewrite Hq' in Hq.
  destruct (W.queries w !! i) as [q|]; [by exists q|done].
Qed.

(** The whole loop of [onComponentAdded], for an entity that has just got
    the type: afterwards every query lists it exactly when it matches, and
    what was true of the other entities stays true. *)
Lemma onComponentAdded_indexed (w : W.t) (entity : nat) (Component : CT.t)
    (types : list CT.t) :
  E.componentTypes (getE w entity) = push types Component →
  (∀ i q, W.queries w !! i = Some q →
     NoDup (Q.entities q)
     ∧ (entity ∈ Q.entities q
        ↔ (∀ X, X ∈ Q.Components q → X ∈ types)
          ∧ (∀ X, X ∈ Q.NotComponents q → X ∉ types))) →
  (∀ r, r ≠ entity → indexed w r) →
  ∀ r, indexed (World_onComponentAdded w entity Component) r.
Proof.
  intros Htypes Hinv Hothers r i q' Hq'.
  pose proof (World_onComponentAdded_notified w entity Component) as Hnot.
  unfold World_onComponentAdded in Hq', Hnot |- *.
  set (w0 := W.set_componentCounts _ _) in *.
  assert (Hw0 : W.queries w0 = W.queries w) by (subst w0; by case_match).
  assert (Hg0 : ∀ r, getE w0 r = getE w r) by (intros ?; subst w0; by case_match).
  assert (Hn0 : notified w0 (foldl (onComponentAdded_query entity Component) w0
                               (seq 0 (length (W.queries w0)))))
    by apply notified_foldl, onComponentAdded_query_notified.
  destruct (notified_query_lookup _ _ _ _ Hn0 Hq') as [q Hq].
  destruct (foldl_query_at (onComponentAdded_query entity Component) w0 i)
    as (wi & Hwi & -> & Hfin).
  { intros; by apply onComponentAdded_query_other. }
  { by apply lookup_lt_Some in Hq. }
  set (wi := foldl _ w0 (seq 0 i)) in *.
  assert (Hni : notified w0 wi) by apply notified_foldl, onComponentAdded_query_notified.
  rewrite Hq in Hwi. rewrite Hw0 in Hq.
  destruct (Hinv i q Hq) as [Hnd Hin].
  destruct (onComponentAdded_query_at wi entity Component i q types Hwi)
    as (q'' & Hq'' & HC & HN & Hnd' & Hent & Hoth); [|done|done|].
  { by rewrite (notified_componentTypes _ _ _ Hni), Hg0. }
  rewrite Hfin, Hq'' in Hq'. injection Hq' as <-.
  split; [done|].
  assert (Hty : ∀ r, E.componentTypes
                  (getE (foldl (onComponentAdded_query entity Component) w0
                           (seq 0 (length (W.queries w0)))) r)
                = E.componentTypes (getE w r)).
  { intros r0. by rewrite (notified_componentTypes _ _ _ Hn0), Hg0. }
  destruct (decide (r = entity)) as [->|Hne].
  - rewrite Hent. rewrite (Query_match_ext q q'' (getE wi entity)); [done..|].
    by rewrite Hty, (notified_componentTypes _ _ _ Hni), Hg0.
  - rewrite (Hoth r Hne). destruct (Hothers r Hne i q Hq) as [_ ->].
    rewrite (Query_match_ext q q'' (getE w r)); [done..|]. by rewrite Hty.
Qed.

(** X1. [attachComponent] on a live entity keeps the query index exact:
    if every cached query lists each entity exactly when the entity
    matches it (and lists none twice), the same holds after the call. *)
Theorem attachComponent_keeps_index (w : W.t) (this : nat) (component : C.t) :
  E._alive (getE w this) = true →
  (∀ r, indexed w r) →
  ∀ r, indexed (Entity_attachComponent w this component) r.
Proof.
  intros Halive Hidx. unfold Entity_attachComponent.
  destruct (includes _ _) eqn:Hinc; [done|].
  set (Component := C.constructor component) in *.
  set (w3 := updE _ this _).
  assert (Hq3 : W.queries w3 = W.queries w)
    by (subst w3; by destruct (CT.isSystemStateComponent Component)).
  assert (Ht3 : E.componentTypes (getE w3 this)
                = push (E.componentTypes (getE w this)) Component).
  { subst w3. destruct (CT.isSystemStateComponent Component);
      by rewrite !getE_updE_eq. }
  assert (Ha3 : E._alive (getE w3 this) = true).
  { subst w3. destruct (CT.isSystemStateComponent Component);
      by rewrite !getE_updE_eq. }
  assert (Ho3 : ∀ r, r ≠ this → getE w3 r = getE w r).
  { intros r Hr. subst w3. destruct (CT.isSystemStateComponent Component);
      by rewrite !getE_updE_ne. }
  rewrite Ha3. apply (onComponentAdded_indexed w3 this Component _ Ht3).
  - intros i q Hq. rewrite Hq3 in Hq. destruct (Hidx this i q Hq) as [Hnd Hin].
    split; [done|]. by rewrite Hin, Query_match_spec.
  - intros r Hr i q Hq. rewrite Hq3 in Hq. rewrite (Ho3 r Hr). by apply (Hidx r i q).
Qed.

Lemma expand_Component_new_frame (Component : CT.t) (pooled : bool) (n : nat) :
  ∀ (w : W.t) (fl : list C.t),
    W.queries (ObjectPool_expand (Component_new Component pooled) n w fl).1 = W.queries w
    ∧ W.store (ObjectPool_expand (Component_new Component pooled) n w fl).1 = W.store w.
Proof.
  induction n as [|n IH]; intros w fl; [done|].
  cbn [ObjectPool_expand Component_new].
  destruct (IH (W.set_nextObject (S (W.nextObject w)) w)
               (push fl (C.mk (W.nextObject w) Component pooled))) as [-> ->].
  done.
Qed.

Lemma acquire_Component_new_frame (expansion : nat → nat) (Component : CT.t)
    (pooled : bool) (w : W.t) (pool : OP.t C.t) :
  W.queries (ObjectPool_acquire expansion (Component_new Component pooled) w pool).1.1
  = W.queries w
  ∧ W.store (ObjectPool_acquire expansion (Component_new Component pooled) w pool).1.1
    = W.store w.
Proof.
  unfold ObjectPool_acquire, pop. destruct (last _); [done|].
  pose proof (expand_Component_new_frame Component pooled
                (expansion (OP.count pool)) w (OP.freeList pool)) as H.
  destruct (ObjectPool_expand _ _ w _) as [w1 fl]. by cbn in *.
Qed.

(** X2. [addComponent] on a live entity keeps the query index exact,
    whether the instance comes from the pool of the type or from [new]. *)
Theorem addComponent_keeps_index (expansion : nat → nat) (w : W.t) (this : nat)
    (Component : CT.t) :
  E._alive (getE w this) = true →
  (∀ r, indexed w r) →
  ∀ r, indexed (Entity_addComponent expansion w this Component) r.
Proof.
  intros Halive Hidx. unfold Entity_addComponent.
  destruct (includes _ _) eqn:Hinc; [done|].
  set (w2 := if CT.isSystemStateComponent Component then _ else _).
  assert (Hq2 : W.queries w2 = W.queries w)
    by (subst w2; by destruct (CT.isSystemStateComponent Component)).
  assert (Hg2 : E.componentTypes (getE w2 this)
                = push (E.componentTypes (getE w this)) Component
                ∧ E._alive (getE w2 this) = true).
  { subst w2. destruct (CT.isSystemStateComponent Component);
      by rewrite !getE_updE_eq. }
  assert (Ho2 : ∀ r, r ≠ this → getE w2 r = getE w r).
  { intros r Hr. subst w2. destruct (CT.isSystemStateComponent Component);
      by rewrite !getE_updE_ne. }
  set (acq := match World_getComponentPool w2 Component with
              | Some pool => _ | None => _ end).
  assert (Hacq : W.queries acq.1 = W.queries w2 ∧ W.store acq.1 = W.store w2).
  { subst acq. destruct (World_getComponentPool w2 Component) as [pool|]; [|done].
    pose proof (acquire_Component_new_frame expansion Component true w2 pool) as H.
    destruct (ObjectPool_acquire _ _ w2 pool) as [[w' p] c]. by cbn in *. }
  destruct acq as [wa component]. cbn [fst] in Hacq. destruct Hacq as [Hqa Hsa].
  assert (Hga : ∀ r, getE wa r = getE w2 r) by (intros r; unfold getE; by rewrite Hsa).
  set (w3 := updE wa this _).
  assert (Ht3 : E.componentTypes (getE w3 this)
                = push (E.componentTypes (getE w this)) Component
                ∧ E._alive (getE w3 this) = true).
  { subst w3. rewrite getE_updE_eq, Hga. cbn. exact Hg2. }
  destruct Ht3 as [Ht3 Ha3]. rewrite Ha3.
  apply (onComponentAdded_indexed w3 this Component _ Ht3).
  - intros i q Hq. change (W.queries w3) with (W.queries wa) in Hq.
    rewrite Hqa, Hq2 in Hq. destruct (Hidx this i q Hq) as [Hnd Hin].
    split; [done|]. by rewrite Hin, Query_match_spec.
  - intros r Hr i q Hq. change (W.queries w3) with (W.queries wa) in Hq.
    rewrite Hqa, Hq2 in Hq. subst w3. rewrite getE_updE_ne, Hga, (Ho2 r Hr) by done.
    by apply (Hidx r i q).
Qed.

(** The query at position [i] after the body of the loop of
    [onRemoveComponent] for [i], for an entity that has just lost one
    occurrence of the type. *)
Lemma onRemoveComponent_query_at (w : W.t) (entity : nat) (Component : CT.t)
    (i : nat) (q : Q.t) (types : list CT.t) :
  W.queries w !! i = Some q →
  (∀ X, X ≠ Component → (X ∈ E.componentTypes (getE w entity) ↔ X ∈ types)) →
  (Component ∈ E.componentTypes (getE w entity) → Component ∈ types) →
  NoDup (Q.entities q) →
  (entity ∈ Q.entities q
   ↔ (∀ X, X ∈ Q.Components q → X ∈ types)
     ∧ (∀ X, X ∈ Q.NotComponents q → X ∉ types)) →
  ∃ q',
    W.queries (onRemoveComponent_query entity Component w i) !! i = Some q'
    ∧ Q.Components q' = Q.Components q
    ∧ Q.NotComponents q' = Q.NotComponents q
    ∧ NoDup (Q.entities q')
    ∧ (entity ∈ Q.entities q' ↔ Query_match q (getE w entity) = true)
    ∧ (∀ r, r ≠ entity → (r ∈ Q.entities q' ↔ r ∈ Q.entities q)).
Proof.
  intros Hq Hrel1 Hrel2 Hnd Hinv. unfold onRemoveComponent_query. rewrite Hq.
  assert (Hsub : ∀ X, X ∈ E.componentTypes (getE w entity) → X ∈ types).
  { intros X HX. destruct (decide (X = Component)) as [->|Hne]; [auto|].
    by apply Hrel1. }
  assert (F1 : entity ∈ Q.entities q → Query_match q (getE w entity) = false →
               Component ∈ Q.Components q).
  { intros HE Hm. apply dec_stable. intros HC.
    apply not_true_iff_false in Hm. apply Hm, Query_match_spec.
    apply Hinv in HE as [H1 H2]. split.
    - intros X HX. apply Hrel1; [by intros ->|by apply H1].
    - intros X HX HX'. by apply (H2 X HX), Hsub. }
  assert (F2 : entity ∉ Q.entities q → Query_match q (getE w entity) = true →
               Component ∈ Q.NotComponents q).
  { intros HE [H1 H2]%Query_match_spec. apply dec_stable. intros HN.
    apply HE, Hinv. split.
    - intros X HX. by apply Hsub, H1.
    - intros X HX HX'. apply (H2 X HX). apply Hrel1; [by intros ->|done]. }
  destruct (includes (Q.entities q) entity) eqn:HE;
    [apply includes_true in HE|apply includes_false in HE];
  (destruct (Query_match q (getE w entity)) eqn:Hm); cbn [negb].
  - rewrite !andb_false_r. cbn [andb].
    exists q. split; [done|]. split; [done|]. split; [done|]. split; [done|].
    split; [done|done].
  - rewrite !andb_false_r. cbn [andb].
    rewrite (proj2 (includes_true _ _) (F1 HE eq_refl)). cbn [andb].
    rewrite (Query_removeEntity_at _ _ _ _ Hq).
    destruct (splice1_indexOf_spec _ _ Hnd HE) as (H1 & H2 & H3).
    destruct (indexOf_lookup _ _ HE) as (k & Hk & _).
    rewrite Hk. destruct (Z.eqb_spec (Z.of_nat k) (-1)); [lia|]. rewrite <- Hk.
    eexists. split; [done|]. cbn. split; [done|]. split; [done|]. split; [done|].
    split; [|done]. split; [done|congruence].
  - rewrite (proj2 (includes_true _ _) (F2 HE eq_refl)). cbn [andb].
    rewrite (Query_addEntity_at _ _ _ _ Hq). eexists. split; [done|]. cbn.
    split; [done|]. split; [done|]. split; [by apply NoDup_push|]. split.
    + rewrite elem_of_push. tauto.
    + intros r Hr. rewrite elem_of_push. tauto.
  - rewrite !andb_false_r. cbn [andb].
    exists q. split; [done|]. split; [done|]. split; [done|]. split; [done|].
    split; [|done]. split; [done|congruence].
Qed.

(** The whole loop of [onRemoveComponent], for an entity that has just
    lost one occurrence of the type. *)
Lemma onRemoveComponent_indexed (w : W.t) (entity : nat) (Component : CT.t)
    (types : list CT.t) :
  (∀ X, X ≠ Component → (X ∈ E.componentTypes (getE w entity) ↔ X ∈ types)) →
  (Component ∈ E.componentTypes (getE w entity) → Component ∈ types) →
  (∀ i q, W.queries w !! i = Some q →
     NoDup (Q.entities q)
     ∧ (entity ∈ Q.entities q
        ↔ (∀ X, X ∈ Q.Components q → X ∈ types)
          ∧ (∀ X, X ∈ Q.NotComponents q → X ∉ types))) →
  (∀ r, r ≠ entity → indexed w r) →
  ∀ r, indexed (World_onRemoveComponent w entity Component) r.
Proof.
  intros Hrel1 Hrel2 Hinv Hothers r i q' Hq'.
  unfold World_onRemoveComponent in Hq' |- *.
  set (w0 := W.set_componentCounts _ _) in *.
  assert (Hn0 : notified w0 (foldl (onRemoveComponent_query entity Component) w0
                               (seq 0 (length (W.queries w0)))))
    by apply notified_foldl, onRemoveComponent_query_notified.
  destruct (notified_query_lookup _ _ _ _ Hn0 Hq') as [q Hq].
  destruct (foldl_query_at (onRemoveComponent_query entity Component) w0 i)
    as (wi & Hwi & -> & Hfin).
  { intros; by apply onRemoveComponent_query_other. }
  { by apply lookup_lt_Some in Hq. }
  set (wi := foldl _ w0 (seq 0 i)) in *.
  assert (Hni : notified w0 wi) by apply notified_foldl, onRemoveComponent_query_notified.
  rewrite Hq in Hwi. change (W.queries w0) with (W.queries w) in Hq.
  destruct (Hinv i q Hq) as [Hnd Hin].
  assert (Hti : ∀ r, E.componentTypes (getE wi r) = E.componentTypes (getE w r)).
  { intros r0. by rewrite (notified_componentTypes _ _ _ Hni). }
  destruct (onRemoveComponent_query_at wi entity Component i q types Hwi)
    as (q'' & Hq'' & HC & HN & Hnd' & Hent & Hoth); [| |done|done|].
  { intros X HX. rewrite Hti. by apply Hrel1. }
  { rewrite Hti. exact Hrel2. }
  rewrite Hfin, Hq'' in Hq'. injection Hq' as <-.
  split; [done|].
  assert (Hty : ∀ r, E.componentTypes
                  (getE (foldl (onRemoveComponent_query entity Component) w0
                           (seq 0 (length (W.queries w0)))) r)
                = E.componentTypes (getE w r)).
  { intros r0. by rewrite (notified_componentTypes _ _ _ Hn0). }
  destruct (decide (r = entity)) as [->|Hne].
  - rewrite Hent. rewrite (Query_match_ext q q'' (getE wi entity)); [done..|].
    by rewrite Hty, Hti.
  - rewrite (Hoth r Hne). destruct (Hothers r Hne i q Hq) as [_ ->].
    rewrite (Query_match_ext q q'' (getE w r)); [done..|]. by rewrite Hty.
Qed.

(** ** Steps that leave the queries and every list of types alone *)

Lemma same_types_refl (w : W.t) : same_types w w.
Proof. by split. Qed.

Lemma same_types_updE (w w' : W.t) (r : nat) (f : E.t → E.t) :
  (∀ e, E.componentTypes (f e) = E.componentTypes e) →
  same_types w w' → same_types w (updE w' r f).
Proof.
  intros Hf [Hq Ht]. split; [done|]. intros r'.
  destruct (decide (r' = r)) as [->|Hne].
  - by rewrite getE_updE_eq, Hf.
  - by rewrite getE_updE_ne.
Qed.

Lemma same_types_Component_dispose (w w' : W.t) (c : C.t) :
  same_types w w' → same_types w (Component_dispose w' c).
Proof.
  intros [Hq Ht]. split.
  - rewrite <- Hq. unfold Component_dispose. by case_match.
  - intros r. by rewrite getE_Component_dispose.
Qed.

Lemma same_types_queueComponentRemoval (w w' : W.t) (entity : nat) :
  same_types w w' → same_types w (World_queueComponentRemoval w' entity).
Proof.
  intros [Hq Ht]. split.
  - rewrite <- Hq. unfold World_queueComponentRemoval. by case_match.
  - intros r. by rewrite getE_queueComponentRemoval.
Qed.

Lemma same_types_indexed (w w' : W.t) :
  same_types w w' → (∀ r, indexed w r) → ∀ r, indexed w' r.
Proof.
  intros [Hq Ht] Hidx r i q Hi. rewrite Hq in Hi.
  destruct (Hidx r i q Hi) as [Hnd Hin]. split; [done|].
  rewrite Hin. by rewrite (Query_match_ext q q (getE w r) (getE w' r)).
Qed.

Ltac same_types_step :=
  first
    [ apply same_types_refl
    | apply same_types_Component_dispose
    | apply same_types_queueComponentRemoval
    | apply same_types_updE; [intros ?; proj_simpl; try case_match; done|] ].

(** [removeComponent] on a live entity, for a type that the entity holds
    unless a removal is pending under its name. What follows the
    notification touches neither the queries nor a list of types. *)
Lemma removeComponent_index (w : W.t) (this : nat) (Component : CT.t)
    (immediately : bool) :
  E._alive (getE w this) = true →
  (prop_get (E._componentsToRemove (getE w this)) (CT.name Component) = None →
   Component ∈ E.componentTypes (getE w this)) →
  (∀ r, indexed w r) →
  (∀ r, indexed (Entity_removeComponent w this Component immediately) r)
  ∧ E._alive (getE (Entity_removeComponent w this Component immediately) this) = true.
Proof.
  intros Halive Hheld Hidx. unfold Entity_removeComponent.
  set (component := obj_get _ _).
  set (w1 := match prop_get _ _ with Some _ => w | None => _ end).
  assert (H1 : (∀ r, indexed w1 r) ∧ E._alive (getE w1 this) = true).
  { subst w1. destruct (prop_get _ _); [done|]. specialize (Hheld eq_refl).
    entity_simpl. rewrite Halive. split; [|by entity_simpl].
    set (w' := updE _ this _).
    set (types := E.componentTypes (getE w this)) in *.
    assert (Ht' : E.componentTypes (getE w' this) = splice1 types (indexOf types Component)).
    { subst w'. by entity_simpl. }
    assert (Ho' : ∀ r, r ≠ this → getE w' r = getE w r).
    { intros r Hr. subst w'. by rewrite !getE_updE_ne. }
    destruct (indexOf_lookup _ _ Hheld) as (k & Hk & Hlk & _).
    rewrite Hk, splice1_nat in Ht' by (by apply lookup_lt_Some in Hlk).
    apply (onRemoveComponent_indexed w' this Component types).
    - intros X HX. rewrite Ht'. split.
      + apply list_elem_of_delete_inv.
      + intros HX'. by apply (elem_of_delete_other _ _ _ Component).
    - rewrite Ht'. apply list_elem_of_delete_inv.
    - intros i q Hq. change (W.queries w') with (W.queries w) in Hq.
      destruct (Hidx this i q Hq) as [Hnd Hin]. split; [done|].
      by rewrite Hin, Query_match_spec.
    - intros r Hr i q Hq. change (W.queries w') with (W.queries w) in Hq.
      rewrite (Ho' r Hr). by apply (Hidx r i q). }
  destruct H1 as [Hidx1 Halive1]. clearbody w1 component. clear Hheld Hidx Halive.
  set (w2 := if immediately then _ else _).
  assert (H2 : same_types w1 w2 ∧ E._alive (getE w2 this) = true).
  { subst w2. destruct immediately.
    - destruct component as [c|]; (destruct (prop_get _ _); split);
        repeat same_types_step; entity_simpl; try case_match; done.
    - rewrite Halive1. split; [repeat same_types_step|]. by entity_simpl. }
  destruct H2 as [Hs2 Halive2]. clearbody w2.
  destruct (CT.isSystemStateComponent Component).
  - entity_simpl. rewrite Halive2, andb_false_r. split; [|by entity_simpl].
    apply (same_types_indexed w1); [|done]. by same_types_step.
  - split; [|done]. by apply (same_types_indexed w1).
Qed.

(** X3. [removeComponent] of a type that a live entity holds keeps the
    query index exact, in both modes: the entity leaves the queries that
    require the type and joins those that it matches once the type is
    gone. *)
Theorem removeComponent_keeps_index (w : W.t) (this : nat) (Component : CT.t)
    (immediately : bool) :
  E._alive (getE w this) = true →
  Component ∈ E.componentTypes (getE w this) →
  (∀ r, indexed w r) →
  ∀ r, indexed (Entity_removeComponent w this Component immediately) r.
Proof.
  intros Halive Hheld Hidx.
  by apply (removeComponent_index w this Component immediately).
Qed.

(** [removeAllComponents] on a live entity: every round removes a type
    read from the list itself. *)
Lemma removeAllComponents_from_index (immediately : bool) (this : nat) (j1 : nat) :
  ∀ w w',
    E._alive (getE w this) = true →
    (∀ r, indexed w r) →
    removeAllComponents_from j1 w this immediately = Some w' →
    (∀ r, indexed w' r) ∧ E._alive (getE w' this) = true.
Proof.
  induction j1 as [|j IH]; intros w w' Halive Hidx Hrun; cbn in Hrun.
  - by injection Hrun as <-.
  - destruct (E.componentTypes (getE w this) !! j) as [Component|] eqn:Hj; [|done].
    destruct (removeComponent_index w this Component immediately Halive) as [Hidx' Halive'];
      [by intros _; apply (list_elem_of_lookup_2 _ j)|done|].
    exact (IH _ w' Halive' Hidx' Hrun).
Qed.

(** X4. [removeAllComponents] on a live entity keeps the query index
    exact, in both modes. *)
Theorem removeAllComponents_keeps_index (w w' : W.t) (this : nat)
    (immediately : bool) :
  E._alive (getE w this) = true →
  (∀ r, indexed w r) →
  Entity_removeAllComponents w this immediately = Some w' →
  ∀ r, indexed w' r.
Proof.
  intros Halive Hidx Hrun.
  by destruct (removeAllComponents_from_index immediately this _ w w' Halive Hidx Hrun).
Qed.

(** * No round of a removal loop reads past the end of the array *)

Lemma getE_onEntityDisposed (w : W.t) (entity r : nat) :
  getE (World_onEntityDisposed w entity) r = getE w r.
Proof. unfold World_onEntityDisposed. by repeat case_match. Qed.

Lemma queries_onEntityDisposed (w : W.t) (entity : nat) :
  W.queries (World_onEntityDisposed w entity) = W.queries w.
Proof. unfold World_onEntityDisposed. by repeat case_match. Qed.

Lemma getE_set_nextEntityId (w : W.t) (n r : nat) :
  getE (W.set_nextEntityId n w) r = getE w r.
Proof. done. Qed.

Lemma same_types_disposeDead (w w' : W.t) (this : nat) (immediately : bool) :
  same_types w w' → same_types w (Entity_disposeDead w' this immediately).
Proof.
  intros Hs. unfold Entity_disposeDead. destruct immediately.
  - set (w2 := World_onEntityDisposed _ this).
    assert (H2 : same_types w w2).
    { subst w2. destruct Hs as [Hq Ht]. split.
      - by rewrite queries_onEntityDisposed.
      - intros r. rewrite getE_onEntityDisposed, <- Ht.
        destruct (decide (r = this)) as [->|Hne].
        + by rewrite getE_updE_eq, getE_set_nextEntityId, getE_updE_eq.
        + by rewrite getE_updE_ne, getE_set_nextEntityId, getE_updE_ne. }
    clearbody w2. destruct H2 as [Hq2 Ht2]. destruct (E._pool _); by split.
  - destruct Hs as [Hq Ht]. split; [done|]. intros r.
    rewrite getE_queueEntityDisposal, <- Ht.
    destruct (decide (r = this)) as [->|Hne].
    + by rewrite !getE_updE_eq.
    + by rewrite !getE_updE_ne.
Qed.

(** What [removeComponent] leaves in the lists of types: one element less
    in the entity's own list, unless a removal is pending under the name;
    the element is the first occurrence of the type or, for a type that
    the list does not hold, the last element. *)
Lemma removeComponent_componentTypes (w : W.t) (this : nat) (Component : CT.t)
    (immediately : bool) (r : nat) :
  E.componentTypes (getE (Entity_removeComponent w this Component immediately) r)
  = if decide (r = this) then
      let types := E.componentTypes (getE w this) in
      match prop_get (E._componentsToRemove (getE w this)) (CT.name Component) with
      | Some _ => types
      | None => splice1 types (indexOf types Component)
      end
    else E.componentTypes (getE w r).
Proof.
  unfold Entity_removeComponent.
  set (component := obj_get _ _).
  set (w1 := match prop_get _ _ with Some _ => w | None => _ end).
  assert (H1 : E.componentTypes (getE w1 r)
               = if decide (r = this) then
                   let types := E.componentTypes (getE w this) in
                   match prop_get (E._componentsToRemove (getE w this)) (CT.name Component) with
                   | Some _ => types
                   | None => splice1 types (indexOf types Component)
                   end
                 else E.componentTypes (getE w r)).
  { subst w1. cbv zeta. destruct (prop_get _ _).
    - by destruct (decide (r = this)) as [->|Hne].
    - entity_simpl.
      assert (E.componentTypes
                (getE (updE (updE w this (λ e, E.set_components
                                 (obj_delete (E.components e) (CT.name Component)) e))
                            this (λ e, E.set_componentTypes
                                 (splice1 (E.componentTypes e)
                                    (indexOf (E.componentTypes e) Component)) e)) r)
              = if decide (r = this)
                then splice1 (E.componentTypes (getE w this))
                       (indexOf (E.componentTypes (getE w this)) Component)
                else E.componentTypes (getE w r)) as <-.
      { destruct (decide (r = this)) as [->|Hne].
        - by entity_simpl.
        - by rewrite !getE_updE_ne. }
      destruct (E._alive (getE w this)); [|done].
      by rewrite (onRemoveComponent_field E.componentTypes). }
  refine (eq_trans _ H1). clearbody w1 component. clear H1.
  set (w2 := if immediately then _ else _).
  assert (H2 : same_types w1 w2).
  { subst w2. repeat first [same_types_step | case_match]. }
  clearbody w2.
  assert (H3 : same_types w1
                 (if CT.isSystemStateComponent Component
                  then
                    if (E._numSystemStateComponents
                          (getE (updE w2 this (λ e, E.set__numSystemStateComponents
                                   (E._numSystemStateComponents e - 1) e)) this) =? 0)
                       && negb (E._alive
                          (getE (updE w2 this (λ e, E.set__numSystemStateComponents
                                   (E._numSystemStateComponents e - 1) e)) this))
                    then Entity_disposeDead
                           (updE w2 this (λ e, E.set__numSystemStateComponents
                                   (E._numSystemStateComponents e - 1) e)) this false
                    else updE w2 this (λ e, E.set__numSystemStateComponents
                                   (E._numSystemStateComponents e - 1) e)
                  else w2)).
  { repeat case_match; try done.
    - apply same_types_disposeDead. by same_types_step.
    - by same_types_step. }
  by destruct H3 as [_ ->].
Qed.

Lemma splice1_length_ge {A : Type} (l : list A) (i : Z) :
  (length l ≤ S (length (splice1 l i)))%nat.
Proof.
  unfold splice1. rewrite delete_take_drop, length_app, length_take, length_drop. lia.
Qed.

Lemma removeAllComponents_from_total (immediately : bool) (this : nat) (j1 : nat) :
  ∀ w, (j1 ≤ length (E.componentTypes (getE w this)))%nat →
       is_Some (removeAllComponents_from j1 w this immediately).
Proof.
  induction j1 as [|j IH]; intros w Hlen; cbn; [done|].
  destruct (lookup_lt_is_Some_2 (E.componentTypes (getE w this)) j) as [Component ->];
    [lia|].
  apply IH. rewrite removeComponent_componentTypes.
  destruct (decide (this = this)); [|done]. cbv zeta.
  destruct (prop_get _ _); [lia|].
  pose proof (splice1_length_ge (E.componentTypes (getE w this))
                (indexOf (E.componentTypes (getE w this)) Component)). lia.
Qed.

Lemma disposeQueued_total (fuel : nat) :
  ∀ i w, is_Some (disposeQueued fuel i w).
Proof.
  induction fuel as [|fuel IH]; intros i w; cbn; [done|].
  destruct (W.entitiesToRemove w !! i) as [entity|]; [|done].
  unfold Entity_dispose. destruct (E._alive _); cbn; [|by apply IH].
  destruct (removeAllComponents_from_total true entity _ w (le_n _)) as [w' Hw'].
  unfold Entity_removeAllComponents. rewrite Hw'. cbn. apply IH.
Qed.

(** X5. [removeAllComponents] never reads its array past the end, so it,
    [dispose] and [processDeferredRemoval] always return: each call to
    [removeComponent] takes at most one element from the list, whatever
    the state of the entity. *)
Theorem dispose_returns (w : W.t) (this : nat) (immediately : bool) :
  is_Some (Entity_removeAllComponents w this immediately)
  ∧ is_Some (Entity_dispose w this immediately)
  ∧ is_Some (World_processDeferredRemoval w).
Proof.
  assert (H : is_Some (Entity_removeAllComponents w this immediately))
    by (by apply removeAllComponents_from_total).
  split; [done|]. split.
  - unfold Entity_dispose.
    destruct (E._alive _); [|done]. by destruct H as [w' ->].
  - unfold World_processDeferredRemoval. destruct (negb _); [done|].
    by destruct (disposeQueued_total (length (W.entitiesToRemove w)) 0 w) as [w' ->].
Qed.

(** * [removeAllComponents] and [dispose] strip the entity *)

(** The pending removals under the other names are left alone. *)
Lemma removeComponent_pending_other (w : W.t) (this : nat) (U : CT.t)
    (immediately : bool) (name : string) :
  name ≠ CT.name U →
  E._componentsToRemove (getE (Entity_removeComponent w this U immediately) this) !! name
  = E._componentsToRemove (getE w this) !! name.
Proof.
  intros Hne. unfold Entity_removeComponent, Entity_disposeDead.
  destruct (prop_get (E._componentsToRemove (getE w this)) (CT.name U))
    as [c|] eqn:Hpending;
  destruct immediately;
  destruct (indexOf (E._componentTypesToRemove (getE w this)) U =? -1) eqn:Hidx;
  destruct (E._alive (getE w this)) eqn:Halive;
  destruct (CT.isSystemStateComponent U);
  destruct (obj_get (E.components (getE w this)) (CT.name U));
  destruct (E._numSystemStateComponents (getE w this) - 1 =? 0) eqn:Hnum;
  repeat (progress (entity_simpl; rewrite ?Hpending, ?Hidx, ?Halive, ?Hnum));
  rewrite ?lookup_delete_ne, ?lookup_insert_ne by done; done.
Qed.

Lemma removeAllComponents_from_empties (immediately : bool) (this : nat) :
  ∀ (types : list CT.t) (w : W.t),
    E.componentTypes (getE w this) = types →
    NoDup (CT.name <$> types) →
    (∀ T, T ∈ types →
       prop_get (E._componentsToRemove (getE w this)) (CT.name T) = None) →
    ∃ w', removeAllComponents_from (length types) w this immediately = Some w'
          ∧ E.componentTypes (getE w' this) = [].
Proof.
  induction types as [|T ts IH] using rev_ind; intros w Htypes Hnd Hpend.
  - by exists w.
  - rewrite length_app, Nat.add_1_r. cbn [removeAllComponents_from].
    rewrite Htypes, lookup_app_r, Nat.sub_diag by done. cbn [lookup list_lookup].
    rewrite fmap_app, NoDup_app in Hnd. destruct Hnd as (Hnd & Hnot & _).
    assert (HT : T ∉ ts).
    { intros HT. apply (Hnot (CT.name T)).
      - by apply list_elem_of_fmap_2.
      - cbn. apply list_elem_of_here. }
    apply IH; [|done|].
    + rewrite removeComponent_componentTypes. destruct (decide (this = this)); [|done].
      cbv zeta. rewrite (Hpend T) by (rewrite elem_of_app, list_elem_of_singleton; by right).
      rewrite Htypes. unfold indexOf. rewrite indexOf_from_middle by done.
      rewrite Z.add_0_l, splice1_nat by (rewrite length_app; cbn; lia).
      rewrite delete_take_drop, take_app_length.
      rewrite drop_ge by (rewrite length_app; cbn; lia). by rewrite app_nil_r.
    + intros T' HT'. unfold prop_get.
      rewrite removeComponent_pending_other.
      * apply (Hpend T'). rewrite elem_of_app. by left.
      * intros Heq. apply (Hnot (CT.name T')).
        -- by apply list_elem_of_fmap_2.
        -- rewrite Heq. cbn. apply list_elem_of_here.
Qed.

(** X6. [removeAllComponents] empties the list of types of an entity
    whose types have pairwise distinct names and none of them a removal
    pending under its name, in both modes and whether or not the entity is
    alive. *)
Theorem removeAllComponents_empties (w : W.t) (this : nat) (immediately : bool) :
  NoDup (CT.name <$> E.componentTypes (getE w this)) →
  (∀ T, T ∈ E.componentTypes (getE w this) →
     prop_get (E._componentsToRemove (getE w this)) (CT.name T) = None) →
  ∃ w', Entity_removeAllComponents w this immediately = Some w'
        ∧ E.componentTypes (getE w' this) = [].
Proof.
  intros Hnd Hpend.
  by apply (removeAllComponents_from_empties immediately this _ w).
Qed.

Lemma componentTypes_disposeDead (w : W.t) (this : nat) (immediately : bool) (r : nat) :
  E.componentTypes (getE (Entity_disposeDead w this immediately) r)
  = E.componentTypes (getE w r).
Proof.
  by destruct (same_types_disposeDead w w this immediately (same_types_refl w)) as [_ ->].
Qed.

Lemma alive_disposeDead (w : W.t) (this : nat) (immediately : bool) :
  E._alive (getE (Entity_disposeDead w this immediately) this) = false.
Proof.
  unfold Entity_disposeDead. destruct immediately.
  - set (w2 := World_onEntityDisposed _ this).
    assert (H2 : E._alive (getE w2 this) = false).
    { subst w2.
      by rewrite getE_onEntityDisposed, getE_updE_eq, getE_set_nextEntityId,
                 getE_updE_eq. }
    clearbody w2. by destruct (E._pool _).
  - by rewrite getE_queueEntityDisposal, getE_updE_eq.
Qed.

(** X7. [dispose] leaves no ghost: on a live entity whose types have
    pairwise distinct names and nothing pending under them, it returns
    with the entity dead and holding no type at all, system-state types
    included, so such an entity never waits for a system to remove its
    system-state components. *)
Theorem dispose_strips_every_type (w : W.t) (this : nat) (immediately : bool) :
  E._alive (getE w this) = true →
  NoDup (CT.name <$> E.componentTypes (getE w this)) →
  (∀ T, T ∈ E.componentTypes (getE w this) →
     prop_get (E._componentsToRemove (getE w this)) (CT.name T) = None) →
  ∃ w', Entity_dispose w this immediately = Some w'
        ∧ E.componentTypes (getE w' this) = []
        ∧ E._alive (getE w' this) = false.
Proof.
  intros Halive Hnd Hpend. unfold Entity_dispose. rewrite Halive.
  destruct (removeAllComponents_from_empties immediately this _ w eq_refl Hnd Hpend)
    as (w' & Hrun & Hempty).
  unfold Entity_removeAllComponents. rewrite Hrun. cbn.
  eexists. split; [done|]. split.
  - by rewrite componentTypes_disposeDead, getE_updE_eq.
  - apply alive_disposeDead.
Qed.

(** * The world's roster of entities *)

(** A field of the world that does not depend on what the notifications,
    the pools and the two queues write is left alone by [removeComponent]. *)
Section Frame.
Context {X : Type} (F : W.t → X).
Hypothesis F_rest : ∀ w, F (rest w) = F w.
Hypothesis F_pools : ∀ w v, F (W.set_componentPools v w) = F w.
Hypothesis F_queue : ∀ w v, F (W.set_entitiesWithComponentsToRemove v w) = F w.
Hypothesis F_dead : ∀ w v, F (W.set_entitiesToRemove v w) = F w.

Lemma wfield_updE (w : W.t) (r : nat) (f : E.t → E.t) : F (updE w r f) = F w.
Proof. by rewrite <- (F_rest (updE w r f)), <- (F_rest w). Qed.

Lemma wfield_onRemoveComponent (w : W.t) (entity : nat) (Component : CT.t) :
  F (World_onRemoveComponent w entity Component) = F w.
Proof. apply (notified_wfield F); [done|]. apply World_onRemoveComponent_notified. Qed.

Lemma wfield_Component_dispose (w : W.t) (c : C.t) : F (Component_dispose w c) = F w.
Proof. unfold Component_dispose. by case_match. Qed.

Lemma wfield_queueComponentRemoval (w : W.t) (entity : nat) :
  F (World_queueComponentRemoval w entity) = F w.
Proof. unfold World_queueComponentRemoval. by case_match. Qed.

Lemma wfield_disposeDead_deferred (w : W.t) (this : nat) :
  F (Entity_disposeDead w this false) = F w.
Proof.
  unfold Entity_disposeDead, World_queueEntityDisposal.
  by rewrite F_dead, wfield_updE.
Qed.

Lemma wfield_removeComponent (w : W.t) (this : nat) (Component : CT.t)
    (immediately : bool) :
  F (Entity_removeComponent w this Component immediately) = F w.
Proof.
  unfold Entity_removeComponent.
  repeat case_match;
    repeat first
      [ rewrite wfield_updE | rewrite wfield_onRemoveComponent
      | rewrite wfield_Component_dispose | rewrite wfield_queueComponentRemoval
      | rewrite wfield_disposeDead_deferred ];
    done.
Qed.

Lemma wfield_removeAllComponents_from (immediately : bool) (this : nat) (j1 : nat) :
  ∀ w w', removeAllComponents_from j1 w this immediately = Some w' → F w' = F w.
Proof.
  induction j1 as [|j IH]; intros w w' Hrun; cbn in Hrun.
  - by injection Hrun as <-.
  - destruct (E.componentTypes (getE w this) !! j) as [Component|]; [|done].
    by rewrite (IH _ _ Hrun), wfield_removeComponent.
Qed.

End Frame.

(** X8. [dispose(true)] never takes the entity off the world's roster: the
    entity gets a new id before the world is told, and the world looks
    the entity up under that id. In a world that maps no id from
    [nextEntityId] on (which the call preserves), [entitiesById] and
    [entities] come out as they went in. *)
Theorem dispose_immediate_keeps_roster (w : W.t) (this : nat) :
  ids_fresh w →
  ∃ w', Entity_dispose w this true = Some w'
        ∧ W.entitiesById w' = W.entitiesById w
        ∧ W.entities w' = W.entities w
        ∧ E._id (getE w' this) = W.nextEntityId w
        ∧ W.nextEntityId w' = S (W.nextEntityId w)
        ∧ ids_fresh w'.
Proof.
  intros Hfresh.
  assert (Hdead : ∀ w1, W.entitiesById w1 = W.entitiesById w →
                        W.entities w1 = W.entities w →
                        W.nextEntityId w1 = W.nextEntityId w →
            let w' := Entity_disposeDead w1 this true in
            W.entitiesById w' = W.entitiesById w
            ∧ W.entities w' = W.entities w
            ∧ E._id (getE w' this) = W.nextEntityId w
            ∧ W.nextEntityId w' = S (W.nextEntityId w)
            ∧ ids_fresh w').
  { intros w1 Hb He Hn. cbv zeta. unfold Entity_disposeDead.
    set (w4 := updE (W.set_nextEntityId _ _) this _).
    assert (H4 : World_onEntityDisposed w4 this = w4).
    { unfold World_onEntityDisposed. subst w4. rewrite getE_updE_eq.
      cbn [E._id E.set__id]. change (W.entitiesById (updE _ _ _)) with (W.entitiesById w1).
      change (W.nextEntityId (updE w1 this (E.set__alive false)))
        with (W.nextEntityId w1).
      by rewrite Hb, Hn, (Hfresh (W.nextEntityId w)). }
    rewrite H4.
    assert (H5 : W.entitiesById w4 = W.entitiesById w ∧ W.entities w4 = W.entities w
                 ∧ E._id (getE w4 this) = W.nextEntityId w
                 ∧ W.nextEntityId w4 = S (W.nextEntityId w)).
    { subst w4. rewrite getE_updE_eq. cbn [E._id E.set__id].
      split; [done|]. split; [done|]. split; [exact Hn|]. cbn. by rewrite <- Hn. }
    clearbody w4. destruct H5 as (H51 & H52 & H53 & H54).
    assert (H6 : ids_fresh w4).
    { intros id Hid. rewrite H51. apply Hfresh. lia. }
    destruct (E._pool _); done. }
  unfold Entity_dispose. destruct (E._alive (getE w this)).
  - destruct (removeAllComponents_from_total true this _ w (le_n _)) as [w1 Hrun].
    unfold Entity_removeAllComponents. rewrite Hrun. cbn.
    exists (Entity_disposeDead (updE w1 this (E.set_queries [])) this true).
    split; [done|]. apply (Hdead (updE w1 this (E.set_queries []))).
    + change (W.entitiesById (updE w1 _ _)) with (W.entitiesById w1).
      by apply (wfield_removeAllComponents_from W.entitiesById) in Hrun.
    + change (W.entities (updE w1 _ _)) with (W.entities w1).
      by apply (wfield_removeAllComponents_from W.entities) in Hrun.
    + change (W.nextEntityId (updE w1 _ _)) with (W.nextEntityId w1).
      by apply (wfield_removeAllComponents_from W.nextEntityId) in Hrun.
  - exists (Entity_disposeDead w this true). split; [done|]. by apply (Hdead w).
Qed.

(** * [addEntity] and the query index *)

(** The step of the loop of [onComponentAdded] that writes the query at
    position [i]. *)
Lemma onComponentAdded_loop_at (w : W.t) (entity : nat) (Component : CT.t)
    (i : nat) (q' : Q.t) :
  W.queries (World_onComponentAdded w entity Component) !! i = Some q' →
  ∃ wi q,
    W.queries w !! i = Some q
    ∧ W.queries wi !! i = Some q
    ∧ (∀ r, E.componentTypes (getE wi r) = E.componentTypes (getE w r))
    ∧ W.queries (onComponentAdded_query entity Component wi i) !! i = Some q'.
Proof.
  intros Hq'. unfold World_onComponentAdded in Hq'.
  set (w0 := W.set_componentCounts _ _) in *.
  assert (Hw0 : W.queries w0 = W.queries w) by (subst w0; by case_match).
  assert (Hg0 : ∀ r, getE w0 r = getE w r) by (intros ?; subst w0; by case_match).
  assert (Hn0 : notified w0 (foldl (onComponentAdded_query entity Component) w0
                               (seq 0 (length (W.queries w0)))))
    by apply notified_foldl, onComponentAdded_query_notified.
  destruct (notified_query_lookup _ _ _ _ Hn0 Hq') as [q Hq].
  destruct (foldl_query_at (onComponentAdded_query entity Component) w0 i)
    as (wi & Hwi & -> & Hfin).
  { intros; by apply onComponentAdded_query_other. }
  { by apply lookup_lt_Some in Hq. }
  set (wi := foldl _ w0 (seq 0 i)) in *.
  assert (Hni : notified w0 wi) by apply notified_foldl, onComponentAdded_query_notified.
  exists wi, q. rewrite <- Hw0. split; [done|]. split; [by rewrite Hwi|]. split.
  - intros r. by rewrite (notified_componentTypes _ _ _ Hni), Hg0.
  - by rewrite <- Hfin.
Qed.

Lemma onComponentAdded_componentTypes (w : W.t) (entity : nat) (Component : CT.t)
    (r : nat) :
  E.componentTypes (getE (World_onComponentAdded w entity Component) r)
  = E.componentTypes (getE w r).
Proof. by apply (onComponentAdded_field E.componentTypes). Qed.

(** The body of the loop for a type that the entity already holds, as in
    [addEntity]: a listed entity stays, an unlisted one is added if it
    matches and the type is required. *)
Lemma onComponentAdded_query_held (w : W.t) (entity : nat) (Component : CT.t)
    (i : nat) (q : Q.t) :
  W.queries w !! i = Some q →
  Component ∈ E.componentTypes (getE w entity) →
  NoDup (Q.entities q) →
  (entity ∈ Q.entities q → Query_match q (getE w entity) = true) →
  ∃ q',
    W.queries (onComponentAdded_query entity Component w i) !! i = Some q'
    ∧ Q.Components q' = Q.Components q
    ∧ Q.NotComponents q' = Q.NotComponents q
    ∧ NoDup (Q.entities q')
    ∧ (entity ∈ Q.entities q'
       ↔ entity ∈ Q.entities q
         ∨ (Component ∈ Q.Components q ∧ Query_match q (getE w entity) = true))
    ∧ (∀ r, r ≠ entity → (r ∈ Q.entities q' ↔ r ∈ Q.entities q)).
Proof.
  intros Hq Hheld Hnd Hinv. unfold onComponentAdded_query. rewrite Hq.
  destruct (includes (Q.entities q) entity) eqn:HE;
    [apply includes_true in HE|apply includes_false in HE].
  - assert (HN : includes (Q.NotComponents q) Component = false).
    { apply includes_false. intros HN.
      destruct (proj1 (Query_match_spec _ _) (Hinv HE)) as [_ H2].
      by apply (H2 Component). }
    rewrite HN, !orb_true_r. cbn [andb].
    exists q. split; [done|]. split; [done|]. split; [done|]. split; [done|].
    split; [|done]. split; [by left|done].
  - rewrite andb_false_r, orb_false_r.
    destruct (includes (Q.Components q) Component) eqn:HC;
      [apply includes_true in HC|apply includes_false in HC];
    (destruct (Query_match q (getE w entity)) eqn:Hm); cbn [negb orb].
    + rewrite (Query_addEntity_at _ _ _ _ Hq). eexists. split; [done|]. cbn.
      split; [done|]. split; [done|]. split; [by apply NoDup_push|]. split.
      * rewrite elem_of_push. tauto.
      * intros r Hr. rewrite elem_of_push. tauto.
    + exists q. split; [done|]. split; [done|]. split; [done|]. split; [done|].
      split; [|done]. split; [by left|]. by intros [?|[_ ?]].
    + exists q. split; [done|]. split; [done|]. split; [done|]. split; [done|].
      split; [|done]. split; [by left|]. by intros [?|[? _]].
    + exists q. split; [done|]. split; [done|]. split; [done|]. split; [done|].
      split; [|done]. split; [by left|]. by intros [?|[? _]].
Qed.

(** One round of the loop of [addEntity]. *)
Lemma onComponentAdded_listed_for (w : W.t) (entity : nat) (Component : CT.t)
    (P : list CT.t) :
  Component ∈ E.componentTypes (getE w entity) →
  listed_for w entity P →
  (∀ r, r ≠ entity → indexed w r) →
  listed_for (World_onComponentAdded w entity Component) entity (P ++ [Component])
  ∧ (∀ r, r ≠ entity → indexed (World_onComponentAdded w entity Component) r).
Proof.
  intros Hheld Hinv Hothers.
  assert (Hstep : ∀ i q', W.queries (World_onComponentAdded w entity Component) !! i
                          = Some q' →
            ∃ q, W.queries w !! i = Some q
              ∧ Q.Components q' = Q.Components q
              ∧ Q.NotComponents q' = Q.NotComponents q
              ∧ NoDup (Q.entities q')
              ∧ (entity ∈ Q.entities q'
                 ↔ entity ∈ Q.entities q
                   ∨ (Component ∈ Q.Components q
                      ∧ Query_match q (getE w entity) = true))
              ∧ (∀ r, r ≠ entity → (r ∈ Q.entities q' ↔ r ∈ Q.entities q))).
  { intros i q' Hq'.
    destruct (onComponentAdded_loop_at _ _ _ _ _ Hq') as (wi & q & Hq & Hqi & Hti & Hfin).
    destruct (Hinv i q Hq) as [Hnd Hin].
    destruct (onComponentAdded_query_held wi entity Component i q Hqi)
      as (q'' & Hq'' & HC & HN & Hnd' & Hent & Hoth); [by rewrite Hti|done| |].
    { intros HE. rewrite (Query_match_ext q q (getE w entity)); [|done..].
      by apply Hin. }
    rewrite Hq'' in Hfin. injection Hfin as ->.
    exists q. split; [done|]. split; [done|]. split; [done|]. split; [done|].
    split; [|done]. rewrite Hent.
    by rewrite (Query_match_ext q q (getE w entity) (getE wi entity)). }
  split.
  - intros i q' Hq'. destruct (Hstep i q' Hq') as (q & Hq & HC & HN & Hnd & Hent & _).
    split; [done|]. rewrite Hent. destruct (Hinv i q Hq) as [_ ->].
    rewrite (Query_match_ext q q' (getE w entity)
               (getE (World_onComponentAdded w entity Component) entity));
      [|done|done|by rewrite onComponentAdded_componentTypes].
    rewrite HC. split.
    + intros [[Hm (C & HP & HCq)]|[HCq Hm]].
      * split; [done|]. exists C. rewrite elem_of_app. by split; [left|].
      * split; [done|]. exists Component.
        rewrite elem_of_app, list_elem_of_singleton. by split; [right|].
    + intros [Hm (C & [HP| ->%list_elem_of_singleton]%elem_of_app & HCq)].
      * left. split; [done|]. by exists C.
      * by right.
  - intros r Hr i q' Hq'.
    destruct (Hstep i q' Hq') as (q & Hq & HC & HN & Hnd & _ & Hoth).
    split; [done|]. rewrite (Hoth r Hr). destruct (Hothers r Hr i q Hq) as [_ ->].
    by rewrite (Query_match_ext q q' (getE w r)
                  (getE (World_onComponentAdded w entity Component) r));
      [|done|done|by rewrite onComponentAdded_componentTypes].
Qed.

Lemma addEntity_loop (entity : nat) (l : list CT.t) :
  ∀ (w : W.t) (P : list CT.t),
    (∀ C, C ∈ l → C ∈ E.componentTypes (getE w entity)) →
    listed_for w entity P →
    (∀ r, r ≠ entity → indexed w r) →
    let w' := foldl (λ w C, World_onComponentAdded w entity C) w l in
    listed_for w' entity (P ++ l)
    ∧ (∀ r, r ≠ entity → indexed w' r).
Proof.
  induction l as [|C l IH]; intros w P Hl Hinv Hothers; cbv zeta; cbn [foldl].
  - by rewrite app_nil_r.
  - destruct (onComponentAdded_listed_for w entity C P) as [Hinv' Hothers'];
      [apply Hl, list_elem_of_here|done|done|].
    rewrite (assoc_L _ P [C] l : P ++ C :: l = (P ++ [C]) ++ l).
    apply IH; [|done|done].
    intros C' HC'. rewrite onComponentAdded_componentTypes.
    by apply Hl, list_elem_of_further.
Qed.

(** X9. [addEntity] brings the new entity into the query index: if the
    entity's id is not mapped yet, no query lists the entity, every query
    requires at least one type and the index is exact for the other
    entities, then after the call the index is exact for every entity. *)
Theorem addEntity_indexes_the_entity (w : W.t) (entity : nat) :
  W.entitiesById w !! E._id (getE w entity) = None →
  (∀ i q, W.queries w !! i = Some q →
     NoDup (Q.entities q) ∧ (entity ∉ Q.entities q) ∧ Q.Components q ≠ []) →
  (∀ r, r ≠ entity → indexed w r) →
  ∀ r, indexed (World_addEntity w entity) r.
Proof.
  intros Hid Hq Hothers. unfold World_addEntity. rewrite Hid.
  set (w0 := updE _ entity (E.set__alive true)).
  assert (Ht0 : ∀ r, E.componentTypes (getE w0 r) = E.componentTypes (getE w r)).
  { intros r. subst w0. destruct (decide (r = entity)) as [->|Hne].
    - by rewrite getE_updE_eq.
    - by rewrite getE_updE_ne. }
  destruct (addEntity_loop entity (E.componentTypes (getE w0 entity)) w0 [])
    as [Hinv Hoth]; [done| | |].
  { intros i q Hi. change (W.queries w0) with (W.queries w) in Hi.
    destruct (Hq i q Hi) as (Hnd & Hnot & _). split; [done|].
    split; [done|]. by intros [_ (C & HC%elem_of_nil & _)]. }
  { intros r Hr i q Hi. change (W.queries w0) with (W.queries w) in Hi.
    destruct (Hothers r Hr i q Hi) as [Hnd Hin]. split; [done|].
    by rewrite Hin, (Query_match_ext q q (getE w r) (getE w0 r)). }
  assert (Hn : notified w0 (foldl (λ w C, World_onComponentAdded w entity C) w0
                              (E.componentTypes (getE w0 entity))))
    by (apply notified_foldl; intros; apply World_onComponentAdded_notified).
  set (w' := foldl _ w0 _) in *. clearbody w'.
  intros r. destruct (decide (r = entity)) as [->|Hne]; [|by apply Hoth].
  intros i q' Hi. destruct (Hinv i q' Hi) as [Hnd Hin]. split; [done|].
  rewrite Hin. split; [by intros [? _]|]. intros Hm. split; [done|].
  pose proof (notified_componentTypes w0 w' entity Hn) as Htw.
  destruct Hn as (_ & _ & Hnq). specialize (Hnq i). rewrite Hi in Hnq.
  change (W.queries w0) with (W.queries w) in Hnq.
  destruct (W.queries w !! i) as [q|] eqn:Hqi; [|done].
  apply (f_equal (fmap Q.Components)) in Hnq. cbn in Hnq. injection Hnq as Hnq.
  destruct (Hq i q Hqi) as (_ & _ & Hne).
  destruct (Q.Components q') as [|C Cs] eqn:HCs; [by rewrite <- Hnq in Hne|].
  exists C. split; [|apply list_elem_of_here].
  rewrite app_nil_l. apply Query_match_spec in Hm as [Hm _].
  rewrite <- Htw. apply Hm. rewrite HCs. apply list_elem_of_here.
Qed.

Lemma addEntity_loop_notified (entity : nat) (l : list CT.t) (w : W.t) :
  notified w (foldl (λ w C, World_onComponentAdded w entity C) w l).
Proof. apply notified_foldl. intros. apply World_onComponentAdded_notified. Qed.

(** [addEntity] for an id that is not mapped: the three writes, then
    notifications only. *)
Lemma addEntity_notified (w : W.t) (entity : nat) :
  W.entitiesById w !! E._id (getE w entity) = None →
  notified
    (updE (W.set_entities (push (W.entities w) entity)
             (W.set_entitiesById
                (<[E._id (getE w entity) := entity]> (W.entitiesById w)) w))
          entity (E.set__alive true))
    (World_addEntity w entity).
Proof.
  intros Hid. unfold World_addEntity. rewrite Hid. apply addEntity_loop_notified.
Qed.

(** X10. [addEntity] registers an entity whose id is not mapped: the id
    then maps to the entity, the entity is the last element of
    [entities], it is alive, and it keeps its id and its types. *)
Theorem addEntity_registers (w : W.t) (entity : nat) :
  W.entitiesById w !! E._id (getE w entity) = None →
  let w' := World_addEntity w entity in
  W.entitiesById w' = <[E._id (getE w entity) := entity]> (W.entitiesById w)
  ∧ W.entities w' = push (W.entities w) entity
  ∧ E._alive (getE w' entity) = true
  ∧ E._id (getE w' entity) = E._id (getE w entity)
  ∧ E.componentTypes (getE w' entity) = E.componentTypes (getE w entity).
Proof.
  intros Hid. cbv zeta. pose proof (addEntity_notified w entity Hid) as Hn.
  set (w' := World_addEntity w entity) in *. clearbody w'.
  rewrite (notified_wfield W.entitiesById _ w' (λ _, eq_refl) Hn),
    (notified_wfield W.entities _ w' (λ _, eq_refl) Hn),
    (notified_field E._alive _ w' entity (λ _, eq_refl) Hn),
    (notified_field E._id _ w' entity (λ _, eq_refl) Hn),
    (notified_field E.componentTypes _ w' entity (λ _, eq_refl) Hn).
  by rewrite getE_updE_eq.
Qed.

(** X11. Adding an entity twice registers it once: whatever the first
    call did, the second finds the id mapped and only writes a warning. *)
Theorem addEntity_twice (w : W.t) (entity : nat) :
  let w' := World_addEntity w entity in
  World_addEntity w' entity
  = warn w' ("Entity " +:+ pretty (E._id (getE w' entity)) +:+ " already added.").
Proof.
  cbv zeta.
  assert (Hmapped : is_Some (W.entitiesById (World_addEntity w entity)
                               !! E._id (getE (World_addEntity w entity) entity))).
  { destruct (W.entitiesById w !! E._id (getE w entity)) as [r|] eqn:Hid.
    - unfold World_addEntity. rewrite Hid. by exists r.
    - pose proof (addEntity_notified w entity Hid) as Hn.
      set (w' := World_addEntity w entity) in *. clearbody w'.
      rewrite (notified_wfield W.entitiesById _ w' (λ _, eq_refl) Hn),
        (notified_field E._id _ w' entity (λ _, eq_refl) Hn).
      rewrite getE_updE_eq. exists entity. apply lookup_insert_eq. }
  destruct Hmapped as [r Hr]. unfold World_addEntity at 1. by rewrite Hr.
Qed.

(** * The checks that run are sound *)

Lemma index_ok_on_indexed (P : nat → bool) (w : W.t) :
  index_ok_on P w = true → ∀ r, P r = true → indexed w r.
Proof.
  unfold index_ok_on. rewrite forallb_forall. intros Hok r HP i q Hq.
  apply list_elem_of_lookup_2, list_elem_of_In, Hok in Hq.
  rewrite !andb_true_iff, negb_true_iff, !forallb_forall in Hq.
  destruct Hq as [[[Hnd Hst] Hm] Hblank]. apply bool_decide_eq_true in Hnd.
  split; [done|]. unfold getE.
  destruct (W.store w !! r) as [e|] eqn:Hr; cbn [default from_option id].
  - assert (Hin : In (r, e) (map_to_list (W.store w)))
      by (by apply list_elem_of_In, elem_of_map_to_list).
    apply Hm in Hin. cbn [fst snd] in Hin. rewrite HP in Hin.
    apply Bool.eqb_prop in Hin. by rewrite <- Hin, includes_true.
  - rewrite Hblank. split; [|done]. intros Hin%list_elem_of_In%Hst.
    apply bool_decide_eq_true in Hin. rewrite Hr in Hin. by destruct Hin.
Qed.

Lemma index_ok_indexed (w : W.t) : index_ok w = true → ∀ r, indexed w r.
Proof. intros Hok r. by apply (index_ok_on_indexed (λ _, true) w). Qed.

Lemma ids_ok_fresh (w : W.t) : ids_ok w = true → ids_fresh w.
Proof.
  unfold ids_ok. rewrite forallb_forall. intros Hok id Hge.
  destruct (W.entitiesById w !! id) as [r|] eqn:Hid; [|done].
  assert (Hin : In (id, r) (map_to_list (W.entitiesById w)))
    by (by apply list_elem_of_In, elem_of_map_to_list).
  apply Hok, Nat.ltb_lt in Hin. cbn [fst] in Hin. lia.
Qed.

(** * Readers, the flush of an entity, and the arrays of PropTypes.js *)

(** X12. [hasAllComponents] holds exactly when the list of types of the
    entity holds every type asked for, and [hasAnyComponents] exactly when
    it holds one of them; types whose removal is pending do not count. *)
Theorem hasAll_hasAny_components (e : E.t) (Components : list CT.t) :
  (Entity_hasAllComponents e Components = true
   ↔ ∀ Component, Component ∈ Components → Component ∈ E.componentTypes e)
  ∧ (Entity_hasAnyComponents e Components = true
     ↔ ∃ Component, Component ∈ Components ∧ Component ∈ E.componentTypes e).
Proof. split; [apply hasAllComponents_spec|apply hasAnyComponents_spec]. Qed.

(** X13. [processRemovedComponents] run a second time changes nothing:
    the first run leaves the list of pending types empty. *)
Theorem processRemovedComponents_twice (w : W.t) (this : nat) :
  Entity_processRemovedComponents (Entity_processRemovedComponents w this) this
  = Entity_processRemovedComponents w this.
Proof.
  unfold Entity_processRemovedComponents at 1.
  by rewrite processRemovedComponents_drains.
Qed.

(** X14. [copyArray] between two arrays: the destination keeps its
    identity and the other cells of the heap stay; it ends with the
    elements of the source, unless the source is the destination itself,
    which ends empty. *)
Theorem copyArray_on_arrays (h : heap) (src dest : nat) (key : string)
    (sa da : nat) (es ed : list value) :
  getProp h src key = Some (VRef sa) →
  getProp h dest key = Some (VRef da) →
  h !! sa = Some (OArray es) →
  h !! da = Some (OArray ed) →
  copyArray h src dest key
  = Some (<[da := OArray (if decide (sa = da) then [] else es)]> h, VRef da).
Proof.
  intros Hs Hd Hsa Hda. unfold copyArray. rewrite Hs, Hd. cbn. rewrite Hda.
  assert (Hlt : (da < length h)%nat) by (by apply lookup_lt_Some in Hda).
  destruct (decide (sa = da)) as [->|Hne].
  - rewrite list_lookup_insert_eq by done. by rewrite list_insert_insert_eq.
  - rewrite list_lookup_insert_ne by done. rewrite Hsa.
    by rewrite list_insert_insert_eq.
Qed.

(** X15. [cloneJSON] of a value that [JSON.stringify] turns into a text:
    the clone is built in new cells of the heap only, the old cells stay,
    and the clone gives the same text again. *)
Theorem cloneJSON_round_trip (h : heap) (v : value) (j : json) :
  JSON_stringify h v = Some (Some j) →
  ∃ h' v',
    cloneJSON h v = Some (h', v')
    ∧ h `prefix_of` h'
    ∧ (∀ a, v' = VRef a → (length h ≤ a < length h')%nat)
    ∧ JSON_stringify h' v' = Some (Some j).
Proof.
  intros Hs. unfold cloneJSON. rewrite Hs.
  destruct (JSON_parse_parses_back j h) as (Hp & Hnew & Hback).
  destruct (JSON_parse j h) as [h' v'] eqn:Hparse. cbn [fst snd] in *.
  exists h', v'. split; [done|]. split; [done|]. split; [done|].
  apply Hback; [lia|done].
Qed.

(** The loop of [copy] pushes the constructor of every entry. *)
Lemma copy_loop_componentTypes (entries : list (string * C.t)) :
  ∀ (h h1 : heap) (this this' : E.t),
    copy_loop h this entries = Some (h1, this') →
    E.componentTypes this'
    = E.componentTypes this ++ ((λ entry, C.constructor entry.2) <$> entries).
Proof.
  induction entries as [|[n c] entries IH]; intros h h1 this this' Hloop.
  - injection Hloop as _ <-. by rewrite app_nil_r.
  - cbn [copy_loop] in Hloop.
    destruct (Component_clone h c) as [[h' c']|]; [|done]. cbn in Hloop.
    apply IH in Hloop. rewrite Hloop. cbn. unfold push. by rewrite <- app_assoc.
Qed.

(** X16. [copy(source)] appends the type of every component of the source
    to the list of types without looking at what the list holds, so
    copying onto an entity that holds a type of the source, as in
    [e.copy(e)], leaves that type in the list twice. *)
Theorem copy_appends_types (h h1 : heap) (this this' source : E.t) :
  Entity_copy h this source = Some (h1, this') →
  E.componentTypes this'
  = E.componentTypes this ++ ((λ entry, C.constructor entry.2) <$> E.components source).
Proof. apply copy_loop_componentTypes. Qed.

(** * Attach, then remove at once *)

Lemma counts_foldl {X : Type} (body : W.t → X → W.t) (l : list X) :
  (∀ w x, W.componentCounts (body w x) = W.componentCounts w) →
  ∀ w, W.componentCounts (foldl body w l) = W.componentCounts w.
Proof.
  intros Hb. induction l as [|x l IH]; intros w; cbn [foldl]; [done|].
  by rewrite IH, Hb.
Qed.

Lemma counts_Query_addEntity (w : W.t) (i entity : nat) :
  W.componentCounts (Query_addEntity w i entity) = W.componentCounts w.
Proof. unfold Query_addEntity. by case_match. Qed.

Lemma counts_Query_removeEntity (w : W.t) (i entity : nat) :
  W.componentCounts (Query_removeEntity w i entity) = W.componentCounts w.
Proof. unfold Query_removeEntity. by repeat case_match. Qed.

Lemma counts_onComponentAdded (w : W.t) (entity : nat) (Component : CT.t) :
  W.componentCounts (World_onComponentAdded w entity Component)
  = counts_incr (W.componentCounts w) (CT.name Component) 1.
Proof.
  unfold World_onComponentAdded. rewrite counts_foldl.
  - by case_match.
  - intros w' i. unfold onComponentAdded_query.
    repeat case_match;
      by rewrite ?counts_Query_addEntity, ?counts_Query_removeEntity.
Qed.

Lemma counts_onRemoveComponent (w : W.t) (entity : nat) (Component : CT.t) :
  W.componentCounts (World_onRemoveComponent w entity Component)
  = counts_incr (W.componentCounts w) (CT.name Component) (-1).
Proof.
  unfold World_onRemoveComponent. rewrite counts_foldl; [done|].
  intros w' i. unfold onRemoveComponent_query.
  repeat case_match;
    by rewrite ?counts_Query_addEntity, ?counts_Query_removeEntity.
Qed.

Lemma counts_Component_dispose (w : W.t) (c : C.t) :
  W.componentCounts (Component_dispose w c) = W.componentCounts w.
Proof. unfold Component_dispose. by case_match. Qed.

Lemma obj_delete_set_absent {V : Type} (o : list (string * V)) (k : string) (v : V) :
  obj_get o k = None → obj_delete (obj_set o k v) k = o.
Proof.
  induction o as [|[k' v'] o IH]; cbn; intros Hk.
  - by rewrite decide_True.
  - destruct (decide (k' = k)) as [->|Hne]; [done|]. cbn.
    rewrite decide_False by done. by rewrite IH.
Qed.

Lemma counts_incr_back (m : gmap string (option Z)) (k : string) (n : Z) :
  m !! k = Some (Some n) → counts_incr (counts_incr m k 1) k (-1) = m.
Proof.
  intros Hk. unfold counts_incr. rewrite lookup_insert_eq, Hk, insert_insert_eq.
  replace (n + 1 + -1) with n by lia. by apply insert_id.
Qed.

(** X17. Attaching an instance of a new type to a live entity and
    removing the type at once brings back the entity's list of types, its
    components, its number of system-state components and the world's
    counts, for a registered type whose name is free on the entity. *)
Theorem attach_then_remove_restores (w : W.t) (this : nat) (component : C.t) (n : Z) :
  let Component := C.constructor component in
  E._alive (getE w this) = true →
  Component ∉ E.componentTypes (getE w this) →
  obj_get (E.components (getE w this)) (CT.name Component) = None →
  prop_get (E._componentsToRemove (getE w this)) (CT.name Component) = None →
  W.componentCounts w !! CT.name Component = Some (Some n) →
  let w' := Entity_removeComponent (Entity_attachComponent w this component)
              this Component true in
  E.componentTypes (getE w' this) = E.componentTypes (getE w this)
  ∧ E.components (getE w' this) = E.components (getE w this)
  ∧ E._numSystemStateComponents (getE w' this)
    = E._numSystemStateComponents (getE w this)
  ∧ W.componentCounts w' = W.componentCounts w.
Proof.
  intros Component Halive Hnew Hfree Hpend Hcount. cbv zeta.
  set (w1 := Entity_attachComponent w this component).
  assert (H1 : E.componentTypes (getE w1 this) = push (E.componentTypes (getE w this)) Component
               ∧ E.components (getE w1 this)
                 = obj_set (E.components (getE w this)) (CT.name Component) component
               ∧ E._componentsToRemove (getE w1 this) = E._componentsToRemove (getE w this)
               ∧ E._alive (getE w1 this) = true
               ∧ E._numSystemStateComponents (getE w1 this)
                 = E._numSystemStateComponents (getE w this)
                   + (if CT.isSystemStateComponent Component then 1 else 0)
               ∧ W.componentCounts w1
                 = counts_incr (W.componentCounts w) (CT.name Component) 1).
  { subst w1. unfold Entity_attachComponent. fold Component.
    rewrite (proj2 (includes_false _ _) Hnew).
    destruct (CT.isSystemStateComponent Component);
      rewrite !getE_updE_eq; proj_simpl; rewrite Halive;
      rewrite !(onComponentAdded_field E.componentTypes),
        !(onComponentAdded_field E.components),
        !(onComponentAdded_field E._componentsToRemove),
        !(onComponentAdded_field E._alive),
        !(onComponentAdded_field E._numSystemStateComponents) by done;
      rewrite counts_onComponentAdded, !getE_updE_eq; proj_simpl;
      rewrite ?Z.add_0_r; done. }
  destruct H1 as (Ht1 & Hc1 & Hp1 & Ha1 & Hn1 & Hk1). clearbody w1.
  assert (Hpend1 : prop_get (E._componentsToRemove (getE w1 this)) (CT.name Component)
                   = None) by (by rewrite Hp1).
  assert (H2 : E._numSystemStateComponents
                 (getE (Entity_removeComponent w1 this Component true) this)
               = E._numSystemStateComponents (getE w1 this)
                 - (if CT.isSystemStateComponent Component then 1 else 0)
               ∧ W.componentCounts (Entity_removeComponent w1 this Component true)
                 = counts_incr (W.componentCounts w1) (CT.name Component) (-1)).
  { unfold Entity_removeComponent. rewrite Hpend1. entity_simpl. rewrite Ha1.
    destruct (obj_get (E.components (getE w1 this)) (CT.name Component));
      entity_simpl; rewrite Hpend1;
      (destruct (CT.isSystemStateComponent Component);
        entity_simpl; rewrite ?Ha1, ?andb_false_r; entity_simpl;
        cbn [W.componentCounts updE W.set_store];
        rewrite ?counts_Component_dispose, ?counts_onRemoveComponent, ?Z.sub_0_r;
        done). }
  destruct H2 as [Hn2 Hk2].
  split; [|split; [|split]].
  - rewrite removeComponent_componentTypes. destruct (decide (this = this)); [|done].
    cbv zeta. rewrite Hpend1, Ht1. unfold push, indexOf.
    rewrite indexOf_from_middle by done. rewrite Z.add_0_l, splice1_nat
      by (rewrite length_app; cbn; lia).
    rewrite delete_take_drop, take_app_length.
    rewrite drop_ge by (rewrite length_app; cbn; lia). by rewrite app_nil_r.
  - destruct (removeComponent_immediate w1 this Component) as (Hc & _).
    rewrite Hc, Hpend1, Hc1. by apply obj_delete_set_absent.
  - rewrite Hn2, Hn1. destruct (CT.isSystemStateComponent Component); lia.
  - rewrite Hk2, Hk1. by apply (counts_incr_back _ _ n).
Qed.

(** * [clone] *)

Lemma copy_loop_frame (entries : list (string * C.t)) :
  ∀ (h h1 : heap) (this this' : E.t),
    copy_loop h this entries = Some (h1, this') →
    E._id this' = E._id this ∧ E._alive this' = E._alive this
    ∧ E.queries this' = E.queries this.
Proof.
  induction entries as [|[n c] entries IH]; intros h h1 this this' Hloop.
  - by injection Hloop as _ <-.
  - cbn [copy_loop] in Hloop.
    destruct (Component_clone h c) as [[h' c']|]; [|done]. cbn in Hloop.
    by apply IH in Hloop.
Qed.

(** X18. [clone()] of an entity whose components are well typed returns a
    new entity that the world does not list: it has the next id, is not
    alive and is in no query, holds the types of the components of the
    source in the order of their names, and under each name a component
    that stands for the same as the source's. The source is left as it
    is. *)
Theorem clone_is_detached_copy (w : W.t) (h : heap) (this : nat) :
  this ≠ W.nextObject w →
  NoDup (E.components (getE w this)).*1 →
  Forall (λ entry, well_typed h entry.2) (E.components (getE w this)) →
  ∃ h1 w1,
    Entity_clone w h this = Some (h1, w1, W.nextObject w)
    ∧ E._id (getE w1 (W.nextObject w)) = W.nextEntityId w
    ∧ E._alive (getE w1 (W.nextObject w)) = false
    ∧ E.queries (getE w1 (W.nextObject w)) = []
    ∧ E.componentTypes (getE w1 (W.nextObject w))
      = (λ entry, C.constructor entry.2) <$> E.components (getE w this)
    ∧ (∀ name c, obj_get (E.components (getE w this)) name = Some c →
         ∃ c', obj_get (E.components (getE w1 (W.nextObject w))) name = Some c'
               ∧ akin h1 c c')
    ∧ W.entities w1 = W.entities w
    ∧ W.entitiesById w1 = W.entitiesById w
    ∧ getE w1 this = getE w this.
Proof.
  intros Hne Hnd Hw. unfold Entity_clone, Entity_new, Entity_copy_in, Entity_copy.
  set (w0 := W.set_store _ _).
  assert (Hsrc : getE w0 this = getE w this).
  { subst w0. unfold getE. cbn. by rewrite lookup_insert_ne. }
  assert (Hnew : getE w0 (W.nextObject w) = E.fresh (W.nextEntityId w)).
  { subst w0. unfold getE. cbn. by rewrite lookup_insert_eq. }
  rewrite Hsrc, Hnew.
  destruct (copy_loop_spec _ h (E.fresh (W.nextEntityId w)) Hnd Hw)
    as (h1 & e' & Hloop & _ & _ & Hakin).
  rewrite Hloop. cbn.
  destruct (copy_loop_frame _ _ _ _ _ Hloop) as (Hid & Halive & Hqs).
  pose proof (copy_loop_componentTypes _ _ _ _ _ Hloop) as Htypes.
  exists h1, (updE w0 (W.nextObject w) (λ _, e')). split; [done|].
  rewrite getE_updE_eq, getE_updE_ne by done.
  by rewrite Hid, Halive, Hqs, Htypes.
Qed.

(** * [createEntity] from an empty pool *)

Lemma expand_newPooled_frame (n : nat) :
  ∀ (w : W.t) (fl : list nat),
    let w' := (ObjectPool_expand Entity_newPooled n w fl).1 in
    W.entitiesById w' = W.entitiesById w
    ∧ W.entities w' = W.entities w
    ∧ W.console w' = W.console w
    ∧ W.nextEntityId w' = (W.nextEntityId w + n)%nat.
Proof.
  induction n as [|n IH]; intros w fl; cbv zeta.
  - cbn. by rewrite Nat.add_0_r.
  - cbn [ObjectPool_expand].
    destruct (Entity_newPooled w) as [w1 r] eqn:Hnp.
    assert (Hw1 : W.entitiesById w1 = W.entitiesById w
                  ∧ W.entities w1 = W.entities w
                  ∧ W.console w1 = W.console w
                  ∧ W.nextEntityId w1 = S (W.nextEntityId w)).
    { unfold Entity_newPooled, Entity_new in Hnp. by injection Hnp as <- <-. }
    specialize (IH w1 (push fl r)). cbv zeta in IH.
    destruct IH as (-> & -> & -> & ->). destruct Hw1 as (-> & -> & -> & ->).
    split; [done|]. split; [done|]. split; [done|]. lia.
Qed.

(** X19. [createEntity] when the entity pool has no free entity: the
    entity returned is new, alive, without types, the last element of
    [entities] and mapped under its own id, which no other entity has;
    nothing is written to the console. The world maps no id from
    [nextEntityId] on before the call, and none after. *)
Theorem createEntity_from_empty_pool (expansion : nat → nat) (w : W.t) :
  ids_fresh w →
  OP.freeList (W.entityPool w) = [] →
  let w' := (World_createEntity expansion w).1 in
  let entity := (World_createEntity expansion w).2 in
  E._alive (getE w' entity) = true
  ∧ E.componentTypes (getE w' entity) = []
  ∧ W.entitiesById w !! E._id (getE w' entity) = None
  ∧ W.entitiesById w' = <[E._id (getE w' entity) := entity]> (W.entitiesById w)
  ∧ W.entities w' = push (W.entities w) entity
  ∧ W.console w' = W.console w
  ∧ ids_fresh w'.
Proof.
  intros Hfresh Hempty. cbv zeta.
  unfold World_createEntity, World_createDetachedEntity, ObjectPool_acquire.
  rewrite Hempty. cbn [pop last removelast].
  pose proof (expand_newPooled_frame (expansion (OP.count (W.entityPool w))) w [])
    as Hexp. cbv zeta in Hexp.
  destruct (ObjectPool_expand Entity_newPooled _ w []) as [w1 fl].
  cbn [fst] in Hexp. destruct Hexp as (Hb1 & He1 & Hc1 & Hn1).
  unfold Entity_newPooled, Entity_new. cbv zeta. cbn [fst snd].
  set (entity := W.nextObject w1).
  set (w3 := W.set_entityPool _ _).
  assert (H3 : getE w3 entity = E.set__pool true (E.fresh (W.nextEntityId w1))).
  { subst w3.
    match goal with
    | |- getE (W.set_entityPool _ ?w') _ = _ => change (getE w' entity = E.set__pool true (E.fresh (W.nextEntityId w1)))
    end.
    rewrite getE_updE_eq. f_equal. unfold getE. cbn [W.store W.set_store].
    by rewrite lookup_insert_eq. }
  assert (Hb3 : W.entitiesById w3 = W.entitiesById w) by exact Hb1.
  assert (He3 : W.entities w3 = W.entities w) by exact He1.
  assert (Hc3 : W.console w3 = W.console w) by exact Hc1.
  assert (Hn3 : W.nextEntityId w3 = S (W.nextEntityId w1)) by reflexivity.
  clearbody w3.
  assert (Hid : W.entitiesById w !! W.nextEntityId w1 = None) by (apply Hfresh; lia).
  unfold World_addEntity. rewrite H3. cbn [E._id E.set__pool E.fresh]. rewrite Hb3, Hid.
  set (w4 := updE _ entity (E.set__alive true)).
  assert (H4 : getE w4 entity
               = E.set__alive true (E.set__pool true (E.fresh (W.nextEntityId w1)))).
  { subst w4. rewrite getE_updE_eq. f_equal. exact H3. }
  rewrite H4. cbn [E.componentTypes E.set__alive E.set__pool E.fresh foldl]. rewrite H4.
  split; [done|]. split; [done|]. split; [done|]. split; [done|].
  split; [cbn; by rewrite He3|]. split; [by cbn|].
  intros id Hge. cbn in Hge |- *. rewrite Hn3 in Hge.
  rewrite lookup_insert_ne by lia. apply Hfresh. lia.
Qed.

(** * The further theorems at the example worlds *)

Lemma attachComponent_keeps_index_witness :
  E._alive (getE created.1 hero) = true
  ∧ (∀ r, indexed created.1 r)
  ∧ ∀ r, indexed (Entity_attachComponent created.1 hero (C.mk 9 Position false)) r.
Proof.
  assert (H1 : E._alive (getE created.1 hero) = true) by (vm_compute; reflexivity).
  assert (H2 : ∀ r, indexed created.1 r)
    by (apply index_ok_indexed; vm_compute; reflexivity).
  exact (conj H1 (conj H2
    (attachComponent_keeps_index created.1 hero (C.mk 9 Position false) H1 H2))).
Defined.

Lemma addComponent_keeps_index_witness :
  E._alive (getE created.1 hero) = true
  ∧ (∀ r, indexed created.1 r)
  ∧ ∀ r, indexed (Entity_addComponent policy created.1 hero Position) r.
Proof.
  assert (H1 : E._alive (getE created.1 hero) = true) by (vm_compute; reflexivity).
  assert (H2 : ∀ r, indexed created.1 r)
    by (apply index_ok_indexed; vm_compute; reflexivity).
  exact (conj H1 (conj H2
    (addComponent_keeps_index policy created.1 hero Position H1 H2))).
Defined.

Lemma removeComponent_keeps_index_witness :
  E._alive (getE world1 hero) = true
  ∧ Position ∈ E.componentTypes (getE world1 hero)
  ∧ (∀ r, indexed world1 r)
  ∧ ∀ r, indexed (Entity_removeComponent world1 hero Position false) r.
Proof.
  assert (H1 : E._alive (getE world1 hero) = true) by (vm_compute; reflexivity).
  assert (H2 : Position ∈ E.componentTypes (getE world1 hero)).
  { replace (E.componentTypes (getE world1 hero)) with [Position]
      by (vm_compute; reflexivity).
    apply list_elem_of_singleton, eq_refl. }
  assert (H3 : ∀ r, indexed world1 r)
    by (apply index_ok_indexed; vm_compute; reflexivity).
  exact (conj H1 (conj H2 (conj H3
    (removeComponent_keeps_index world1 hero Position false H1 H2 H3)))).
Defined.

Lemma removeAllComponents_keeps_index_witness :
  E._alive (getE world1 hero) = true
  ∧ (∀ r, indexed world1 r)
  ∧ Entity_removeAllComponents world1 hero false = Some (stripped world1 hero false)
  ∧ ∀ r, indexed (stripped world1 hero false) r.
Proof.
  assert (H1 : E._alive (getE world1 hero) = true) by (vm_compute; reflexivity).
  assert (H2 : ∀ r, indexed world1 r)
    by (apply index_ok_indexed; vm_compute; reflexivity).
  assert (H3 : Entity_removeAllComponents world1 hero false
               = Some (stripped world1 hero false)) by (vm_compute; reflexivity).
  exact (conj H1 (conj H2 (conj H3
    (removeAllComponents_keeps_index world1 _ hero false H1 H2 H3)))).
Defined.

Lemma removeAllComponents_empties_witness :
  NoDup (CT.name <$> E.componentTypes (getE world1 hero))
  ∧ (∀ T, T ∈ E.componentTypes (getE world1 hero) →
       prop_get (E._componentsToRemove (getE world1 hero)) (CT.name T) = None)
  ∧ ∃ w', Entity_removeAllComponents world1 hero false = Some w'
          ∧ E.componentTypes (getE w' hero) = [].
Proof.
  assert (Ht : E.componentTypes (getE world1 hero) = [Position])
    by (vm_compute; reflexivity).
  assert (H1 : NoDup (CT.name <$> E.componentTypes (getE world1 hero))).
  { rewrite Ht. apply NoDup_singleton. }
  assert (H2 : ∀ T, T ∈ E.componentTypes (getE world1 hero) →
                 prop_get (E._componentsToRemove (getE world1 hero)) (CT.name T) = None).
  { rewrite Ht. intros T ->%list_elem_of_singleton. vm_compute. reflexivity. }
  exact (conj H1 (conj H2 (removeAllComponents_empties world1 hero false H1 H2))).
Defined.

Lemma dispose_strips_every_type_witness :
  E._alive (getE world2 hero) = true
  ∧ E.componentTypes (getE world2 hero) = [Dying]
  ∧ NoDup (CT.name <$> E.componentTypes (getE world2 hero))
  ∧ (∀ T, T ∈ E.componentTypes (getE world2 hero) →
       prop_get (E._componentsToRemove (getE world2 hero)) (CT.name T) = None)
  ∧ ∃ w', Entity_dispose world2 hero false = Some w'
          ∧ E.componentTypes (getE w' hero) = []
          ∧ E._alive (getE w' hero) = false.
Proof.
  assert (H1 : E._alive (getE world2 hero) = true) by (vm_compute; reflexivity).
  assert (Ht : E.componentTypes (getE world2 hero) = [Dying])
    by (vm_compute; reflexivity).
  assert (H2 : NoDup (CT.name <$> E.componentTypes (getE world2 hero))).
  { rewrite Ht. apply NoDup_singleton. }
  assert (H3 : ∀ T, T ∈ E.componentTypes (getE world2 hero) →
                 prop_get (E._componentsToRemove (getE world2 hero)) (CT.name T) = None).
  { rewrite Ht. intros T ->%list_elem_of_singleton. vm_compute. reflexivity. }
  exact (conj H1 (conj Ht (conj H2 (conj H3
    (dispose_strips_every_type world2 hero false H1 H2 H3))))).
Defined.

Lemma dispose_immediate_keeps_roster_witness :
  ids_fresh world1
  ∧ hero ∈ W.entities world1
  ∧ ∃ w', Entity_dispose world1 hero true = Some w'
          ∧ W.entitiesById w' = W.entitiesById world1
          ∧ W.entities w' = W.entities world1.
Proof.
  assert (H1 : ids_fresh world1) by (apply ids_ok_fresh; vm_compute; reflexivity).
  assert (H2 : hero ∈ W.entities world1).
  { replace (W.entities world1) with [hero] by (vm_compute; reflexivity).
    apply list_elem_of_singleton, eq_refl. }
  destruct (dispose_immediate_keeps_roster world1 hero H1)
    as (w' & H3 & H4 & H5 & _).
  exact (conj H1 (conj H2 (ex_intro _ w' (conj H3 (conj H4 H5))))).
Defined.

Lemma addEntity_indexes_the_entity_witness :
  W.entitiesById world5 !! E._id (getE world5 detached.2) = None
  ∧ (∀ i q, W.queries world5 !! i = Some q →
       NoDup (Q.entities q) ∧ (detached.2 ∉ Q.entities q) ∧ Q.Components q ≠ [])
  ∧ (∀ r, r ≠ detached.2 → indexed world5 r)
  ∧ ∀ r, indexed (World_addEntity world5 detached.2) r.
Proof.
  assert (H1 : W.entitiesById world5 !! E._id (getE world5 detached.2) = None)
    by (vm_compute; reflexivity).
  assert (H2 : ∀ i q, W.queries world5 !! i = Some q →
                 NoDup (Q.entities q) ∧ (detached.2 ∉ Q.entities q)
                 ∧ Q.Components q ≠ []).
  { replace (W.queries world5) with [Q.mk "Position" [Position] [] [] false]
      by (vm_compute; reflexivity).
    intros [|i] q Hq; [|by destruct i]. injection Hq as <-. cbn.
    split; [apply NoDup_nil_2|]. split; [apply not_elem_of_nil|discriminate]. }
  assert (H3 : ∀ r, r ≠ detached.2 → indexed world5 r).
  { intros r Hr.
    apply (index_ok_on_indexed (λ r, negb (r =? detached.2)%nat) world5).
    - vm_compute. reflexivity.
    - apply negb_true_iff, Nat.eqb_neq, Hr. }
  exact (conj H1 (conj H2 (conj H3
    (addEntity_indexes_the_entity world5 detached.2 H1 H2 H3)))).
Defined.

Lemma addEntity_registers_witness :
  W.entitiesById world5 !! E._id (getE world5 detached.2) = None
  ∧ W.entities (World_addEntity world5 detached.2) = push (W.entities world5) detached.2
  ∧ E._alive (getE (World_addEntity world5 detached.2) detached.2) = true.
Proof.
  assert (H1 : W.entitiesById world5 !! E._id (getE world5 detached.2) = None)
    by (vm_compute; reflexivity).
  destruct (addEntity_registers world5 detached.2 H1) as (_ & H2 & H3 & _).
  exact (conj H1 (conj H2 H3)).
Defined.

Lemma copyArray_on_arrays_witness :
  getProp heapP 4 "tags" = Some (VRef 1)
  ∧ heapP !! 1%nat = Some (OArray [VNumber 1; VNumber 2])
  ∧ copyArray heapP 4 4 "tags" = Some (<[1%nat := OArray []]> heapP, VRef 1).
Proof.
  assert (H1 : getProp heapP 4 "tags" = Some (VRef 1)) by reflexivity.
  assert (H2 : heapP !! 1%nat = Some (OArray [VNumber 1; VNumber 2])) by reflexivity.
  exact (conj H1 (conj H2
    (copyArray_on_arrays heapP 4 4 "tags" 1 1 _ _ H1 H1 H2 H2))).
Defined.

Lemma cloneJSON_round_trip_witness :
  let j := JObject [("a"%string, JNumber 1); ("b"%string, JArray [JNumber 1; JNumber 2])] in
  JSON_stringify heapP (VRef 2) = Some (Some j)
  ∧ ∃ h' v',
      cloneJSON heapP (VRef 2) = Some (h', v')
      ∧ heapP `prefix_of` h'
      ∧ JSON_stringify h' v' = Some (Some j).
Proof.
  cbv zeta.
  assert (H1 : JSON_stringify heapP (VRef 2)
               = Some (Some (JObject [("a"%string, JNumber 1);
                                      ("b"%string, JArray [JNumber 1; JNumber 2])])))
    by (vm_compute; reflexivity).
  destruct (cloneJSON_round_trip heapP (VRef 2) _ H1) as (h' & v' & H2 & H3 & _ & H4).
  exact (conj H1 (ex_intro _ h' (ex_intro _ v' (conj H2 (conj H3 H4))))).
Defined.

Lemma copy_appends_types_witness :
  let e := getE worldP holder in
  Entity_copy heapP e e = Some (copied heapP e e)
  ∧ E.componentTypes e = [Profile]
  ∧ E.componentTypes (copied heapP e e).2 = [Profile; Profile].
Proof.
  cbv zeta.
  assert (H1 : Entity_copy heapP (getE worldP holder) (getE worldP holder)
               = Some (copied heapP (getE worldP holder) (getE worldP holder)))
    by (vm_compute; reflexivity).
  assert (H2 : E.componentTypes (getE worldP holder) = [Profile])
    by (vm_compute; reflexivity).
  assert (H3 : E.components (getE worldP holder) = [("Profile"%string, profile)])
    by (vm_compute; reflexivity).
  pose proof (copy_appends_types heapP _ (getE worldP holder) _ (getE worldP holder)
                (eq_trans H1 (f_equal Some (surjective_pairing _)))) as H4.
  rewrite H2, H3 in H4.
  exact (conj H1 (conj H2 H4)).
Defined.

Lemma attach_then_remove_restores_witness :
  let w' := Entity_removeComponent
              (Entity_attachComponent created.1 hero (C.mk 9 Position false))
              hero Position true in
  E._alive (getE created.1 hero) = true
  ∧ (Position ∉ E.componentTypes (getE created.1 hero))
  ∧ obj_get (E.components (getE created.1 hero)) "Position" = None
  ∧ prop_get (E._componentsToRemove (getE created.1 hero)) "Position" = None
  ∧ W.componentCounts created.1 !! "Position"%string = Some (Some 0)
  ∧ E.componentTypes (getE w' hero) = E.componentTypes (getE created.1 hero)
  ∧ W.componentCounts w' = W.componentCounts created.1.
Proof.
  cbv zeta.
  assert (H1 : E._alive (getE created.1 hero) = true) by (vm_compute; reflexivity).
  assert (H2 : Position ∉ E.componentTypes (getE created.1 hero)).
  { replace (E.componentTypes (getE created.1 hero)) with (@nil CT.t)
      by (vm_compute; reflexivity).
    apply not_elem_of_nil. }
  assert (H3 : obj_get (E.components (getE created.1 hero)) "Position" = None)
    by (vm_compute; reflexivity).
  assert (H4 : prop_get (E._componentsToRemove (getE created.1 hero)) "Position" = None)
    by (vm_compute; reflexivity).
  assert (H5 : W.componentCounts created.1 !! "Position"%string = Some (Some 0))
    by (vm_compute; reflexivity).
  destruct (attach_then_remove_restores created.1 hero (C.mk 9 Position false) 0
              H1 H2 H3 H4 H5) as (H6 & _ & _ & H7).
  exact (conj H1 (conj H2 (conj H3 (conj H4 (conj H5 (conj H6 H7)))))).
Defined.

Lemma clone_is_detached_copy_witness :
  holder ≠ W.nextObject worldP
  ∧ NoDup (E.components (getE worldP holder)).*1
  ∧ Forall (λ entry, well_typed heapP entry.2) (E.components (getE worldP holder))
  ∧ ∃ h1 w1,
      Entity_clone worldP heapP holder = Some (h1, w1, W.nextObject worldP)
      ∧ E._alive (getE w1 (W.nextObject worldP)) = false
      ∧ E.componentTypes (getE w1 (W.nextObject worldP)) = [Profile].
Proof.
  assert (H1 : holder ≠ W.nextObject worldP) by (vm_compute; discriminate).
  assert (Hc : E.components (getE worldP holder) = [("Profile"%string, profile)])
    by (vm_compute; reflexivity).
  assert (H2 : NoDup (E.components (getE worldP holder)).*1).
  { rewrite Hc. apply NoDup_singleton. }
  assert (H3 : Forall (λ entry, well_typed heapP entry.2)
                 (E.components (getE worldP holder))).
  { rewrite Hc. constructor; [exact profile_well_typed|constructor]. }
  destruct (clone_is_detached_copy worldP heapP holder H1 H2 H3)
    as (h1 & w1 & H4 & _ & H5 & _ & H6 & _).
  rewrite Hc in H6.
  exact (conj H1 (conj H2 (conj H3
    (ex_intro _ h1 (ex_intro _ w1 (conj H4 (conj H5 H6))))))).
Defined.

Lemma createEntity_from_empty_pool_witness :
  ids_fresh world0
  ∧ OP.freeList (W.entityPool world0) = []
  ∧ E._alive (getE created.1 hero) = true
  ∧ W.entities created.1 = push (W.entities world0) hero
  ∧ ids_fresh created.1.
Proof.
  assert (H1 : ids_fresh world0) by (apply ids_ok_fresh; vm_compute; reflexivity).
  assert (H2 : OP.freeList (W.entityPool world0) = []) by (vm_compute; reflexivity).
  destruct (createEntity_from_empty_pool policy world0 H1 H2)
    as (H3 & _ & _ & _ & H4 & _ & H5).
  exact (conj H1 (conj H2 (conj H3 (conj H4 H5)))).
Defined.

(** * An entity's methods write no other entity *)

Lemma getE_Query_addEntity_ne (w : W.t) (i entity r : nat) :
  r ≠ entity → getE (Query_addEntity w i entity) r = getE w r.
Proof.
  intros Hr. unfold Query_addEntity. destruct (W.queries w !! i); [|done].
  change (getE (updQ ?w' _ _) r) with (getE w' r). by rewrite getE_updE_ne.
Qed.

Lemma getE_Query_removeEntity_ne (w : W.t) (i entity r : nat) :
  r ≠ entity → getE (Query_removeEntity w i entity) r = getE w r.
Proof.
  intros Hr. unfold Query_removeEntity. destruct (W.queries w !! i); [|done].
  destruct (_ =? -1); [done|]. by rewrite getE_updE_ne.
Qed.

Lemma getE_foldl_ne {X : Type} (body : W.t → X → W.t) (l : list X) (r : nat) :
  (∀ w x, getE (body w x) r = getE w r) →
  ∀ w, getE (foldl body w l) r = getE w r.
Proof.
  intros Hb. induction l as [|x l IH]; intros w; cbn [foldl]; [done|].
  by rewrite IH, Hb.
Qed.

Lemma getE_onRemoveComponent_ne (w : W.t) (entity : nat) (Component : CT.t) (r : nat) :
  r ≠ entity → getE (World_onRemoveComponent w entity Component) r = getE w r.
Proof.
  intros Hr. unfold World_onRemoveComponent. rewrite getE_foldl_ne; [done|].
  intros w' i. unfold onRemoveComponent_query.
  repeat case_match;
    by rewrite ?getE_Query_addEntity_ne, ?getE_Query_removeEntity_ne.
Qed.

Lemma getE_onComponentAdded_ne (w : W.t) (entity : nat) (Component : CT.t) (r : nat) :
  r ≠ entity → getE (World_onComponentAdded w entity Component) r = getE w r.
Proof.
  intros Hr. unfold World_onComponentAdded. rewrite getE_foldl_ne.
  - by case_match.
  - intros w' i. unfold onComponentAdded_query.
    repeat case_match;
      by rewrite ?getE_Query_addEntity_ne, ?getE_Query_removeEntity_ne.
Qed.

Lemma getE_disposeDead_ne (w : W.t) (this : nat) (immediately : bool) (r : nat) :
  r ≠ this → getE (Entity_disposeDead w this immediately) r = getE w r.
Proof.
  intros Hr. unfold Entity_disposeDead. destruct immediately.
  - set (w2 := World_onEntityDisposed _ this).
    assert (H2 : getE w2 r = getE w r).
    { subst w2.
      by rewrite getE_onEntityDisposed, getE_updE_ne, getE_set_nextEntityId,
                 getE_updE_ne. }
    clearbody w2. by destruct (E._pool _).
  - by rewrite getE_queueEntityDisposal, getE_updE_ne.
Qed.

Ltac other_simpl :=
  repeat first
    [ rewrite getE_updE_ne by done
    | rewrite getE_Component_dispose
    | rewrite getE_queueComponentRemoval
    | rewrite getE_onRemoveComponent_ne by done
    | rewrite getE_onComponentAdded_ne by done
    | rewrite getE_disposeDead_ne by done ].

Lemma getE_removeComponent_ne (w : W.t) (this : nat) (Component : CT.t)
    (immediately : bool) (r : nat) :
  r ≠ this → getE (Entity_removeComponent w this Component immediately) r = getE w r.
Proof.
  intros Hr. unfold Entity_removeComponent. repeat case_match; by other_simpl.
Qed.

Lemma getE_processRemovedComponents_loop_ne (fuel : nat) (this r : nat) :
  r ≠ this → ∀ w, getE (processRemovedComponents_loop fuel w this) r = getE w r.
Proof.
  intros Hr. induction fuel as [|fuel IH]; intros w; [done|].
  cbn [processRemovedComponents_loop]. unfold pop.
  destruct (last _) as [U|]; [|done].
  by rewrite IH, getE_removeComponent_ne, getE_updE_ne.
Qed.

(** X20. [attachComponent], [removeComponent] and
    [processRemovedComponents] write the entity they are called on and no
    other: the object of every other entity, its back-references to
    queries included, is the same after the call. *)
Theorem methods_write_no_other_entity (w : W.t) (this r : nat) :
  r ≠ this →
  (∀ component, getE (Entity_attachComponent w this component) r = getE w r)
  ∧ (∀ Component immediately,
       getE (Entity_removeComponent w this Component immediately) r = getE w r)
  ∧ getE (Entity_processRemovedComponents w this) r = getE w r.
Proof.
  intros Hr. split; [|split].
  - intros component. unfold Entity_attachComponent.
    repeat case_match; by other_simpl.
  - intros Component immediately. by apply getE_removeComponent_ne.
  - by apply getE_processRemovedComponents_loop_ne.
Qed.

(** * The flush *)

(** [processRemovedComponents] on any entity leaves an empty list of
    pending types empty. *)
Lemma processRemovedComponents_keeps_drained (w : W.t) (this e : nat) :
  E._componentTypesToRemove (getE w e) = [] →
  E._componentTypesToRemove (getE (Entity_processRemovedComponents w this) e) = [].
Proof.
  intros He. destruct (decide (e = this)) as [->|Hne].
  - apply processRemovedComponents_drains.
  - unfold Entity_processRemovedComponents.
    by rewrite getE_processRemovedComponents_loop_ne.
Qed.

Lemma foldl_processRemovedComponents_drains (l : list nat) :
  ∀ (w : W.t) (e : nat),
    e ∈ l ∨ E._componentTypesToRemove (getE w e) = [] →
    E._componentTypesToRemove (getE (foldl Entity_processRemovedComponents w l) e) = [].
Proof.
  induction l as [|x l IH]; intros w e He; cbn [foldl].
  - destruct He as [He|He]; [by apply elem_of_nil in He|done].
  - apply IH. destruct He as [[->|He]%elem_of_cons|He].
    + right. apply processRemovedComponents_drains.
    + by left.
    + right. by apply processRemovedComponents_keeps_drained.
Qed.

Lemma queue_disposeDead_immediate (w : W.t) (this : nat) :
  W.entitiesWithComponentsToRemove (Entity_disposeDead w this true)
  = W.entitiesWithComponentsToRemove w.
Proof.
  unfold Entity_disposeDead.
  set (w2 := World_onEntityDisposed _ this).
  assert (H2 : W.entitiesWithComponentsToRemove w2 = W.entitiesWithComponentsToRemove w).
  { subst w2. unfold World_onEntityDisposed. by repeat case_match. }
  clearbody w2. by destruct (E._pool _).
Qed.

Lemma queue_removeAllComponents_from (this : nat) (j1 : nat) :
  ∀ w w', removeAllComponents_from j1 w this true = Some w' →
          W.entitiesWithComponentsToRemove w' = W.entitiesWithComponentsToRemove w.
Proof.
  induction j1 as [|j IH]; intros w w' Hrun; cbn in Hrun.
  - by injection Hrun as <-.
  - destruct (E.componentTypes (getE w this) !! j) as [Component|]; [|done].
    rewrite (IH _ _ Hrun).
    by destruct (queue_removeComponent w this Component true) as [->|(? & _)].
Qed.

Lemma queue_disposeQueued (fuel : nat) :
  ∀ i w w', disposeQueued fuel i w = Some w' →
            W.entitiesWithComponentsToRemove w' = W.entitiesWithComponentsToRemove w.
Proof.
  induction fuel as [|fuel IH]; intros i w w' Hrun; cbn in Hrun.
  - by injection Hrun as <-.
  - destruct (W.entitiesToRemove w !! i) as [entity|]; [|by injection Hrun as <-].
    destruct (Entity_dispose w entity true) as [w1|] eqn:Hd; [|done]. cbn in Hrun.
    rewrite (IH _ _ _ Hrun). unfold Entity_dispose in Hd.
    destruct (E._alive (getE w entity)).
    + destruct (Entity_removeAllComponents w entity true) as [w0|] eqn:Hr; [|done].
      cbn [mbind option_bind] in Hd. injection Hd as <-.
      unfold Entity_removeAllComponents in Hr.
      rewrite <- (queue_removeAllComponents_from _ _ _ _ Hr).
      exact (queue_disposeDead_immediate (updE w0 entity (E.set_queries [])) entity).
    + injection Hd as <-. exact (queue_disposeDead_immediate w entity).
Qed.

(** X21. The flush drains every queued entity: after
    [processDeferredRemoval], with deferred removal enabled, every entity
    that was in [entitiesWithComponentsToRemove] has an empty list of
    pending types, and the queue is empty. *)
Theorem processDeferredRemoval_drains (w w' : W.t) (e : nat) :
  W.deferredRemovalEnabled w = true →
  World_processDeferredRemoval w = Some w' →
  e ∈ W.entitiesWithComponentsToRemove w →
  E._componentTypesToRemove (getE w' e) = []
  ∧ W.entitiesWithComponentsToRemove w' = [].
Proof.
  intros Hen Hrun He. unfold World_processDeferredRemoval in Hrun.
  rewrite Hen in Hrun. cbn [negb] in Hrun.
  destruct (disposeQueued _ 0 w) as [w1|] eqn:Hd; [|done].
  cbn [mbind option_bind] in Hrun. injection Hrun as <-. split; [|done].
  apply queue_disposeQueued in Hd.
  change (getE (W.set_entitiesWithComponentsToRemove [] ?w0) e) with (getE w0 e).
  change (length (W.entitiesWithComponentsToRemove w1))
    with (length (W.entitiesWithComponentsToRemove (W.set_entitiesToRemove [] w1))).
  rewrite flushQueued_foldl. apply foldl_processRemovedComponents_drains. left.
  change (W.entitiesWithComponentsToRemove (W.set_entitiesToRemove [] w1))
    with (W.entitiesWithComponentsToRemove w1).
  by rewrite Hd.
Qed.

Lemma methods_write_no_other_entity_witness :
  1%nat ≠ holder
  ∧ is_Some (W.store worldP !! 1%nat)
  ∧ getE (Entity_removeComponent worldP holder Profile false) 1 = getE worldP 1
  ∧ getE (Entity_processRemovedComponents worldP holder) 1 = getE worldP 1.
Proof.
  assert (H1 : 1%nat ≠ holder) by (vm_compute; discriminate).
  assert (H0 : is_Some (W.store worldP !! 1%nat)) by (vm_compute; by eexists).
  destruct (methods_write_no_other_entity worldP holder 1 H1) as (_ & H2 & H3).
  exact (conj H1 (conj H0 (conj (H2 Profile false) H3))).
Defined.

Lemma processDeferredRemoval_drains_witness :
  W.deferredRemovalEnabled world6 = true
  ∧ World_processDeferredRemoval world6 = Some (run (World_processDeferredRemoval world6))
  ∧ hero ∈ W.entitiesWithComponentsToRemove world6
  ∧ E._componentTypesToRemove (getE world6 hero) = [Position]
  ∧ E._componentTypesToRemove (getE (run (World_processDeferredRemoval world6)) hero) = [].
Proof.
  assert (H1 : W.deferredRemovalEnabled world6 = true) by (vm_compute; reflexivity).
  assert (H2 : World_processDeferredRemoval world6
               = Some (run (World_processDeferredRemoval world6)))
    by (vm_compute; reflexivity).
  assert (H3 : hero ∈ W.entitiesWithComponentsToRemove world6).
  { replace (W.entitiesWithComponentsToRemove world6) with [hero]
      by (vm_compute; reflexivity).
    apply list_elem_of_singleton, eq_refl. }
  assert (H4 : E._componentTypesToRemove (getE world6 hero) = [Position])
    by (vm_compute; reflexivity).
  destruct (processDeferredRemoval_drains world6 _ hero H1 H2 H3) as [H5 _].
  exact (conj H1 (conj H2 (conj H3 (conj H4 H5)))).
Defined.

(** * Schemas over the types of PropTypes.js *)

(** The six built-in [PropTypes] are what [createType] builds from their
    four properties. *)
Lemma PropTypes_created (type : PT.t) :
  type ∈ [PropTypes.Number; PropTypes.Boolean; PropTypes.String; PropTypes.Object;
          PropTypes.Array; PropTypes.JSON] →
  ∃ name d cl cp, type = createType (Some name) d (Some cl) (Some cp).
Proof.
  rewrite !elem_of_cons, elem_of_nil.
  intros [->|[->|[->|[->|[->|[->|[]]]]]]]; by eexists _, _, _, _.
Qed.

(** A field whose type [createType] built is complete exactly when the
    call was given a [clone] and a [copy]: the default is always there. *)
Lemma schema_created_complete (schema : list (string * SP.t)) :
  Forall (λ p, ∃ name d cl cp, SP.type p.2 = Some (createType name d cl cp)) schema →
  forallb (λ p, field_complete p.2) schema = true
  ↔ Forall (λ p, ∃ type, SP.type p.2 = Some type
              ∧ is_Some (PT.clone type) ∧ is_Some (PT.copy type)) schema.
Proof.
  induction 1 as [|[key prop] schema (name & d & cl & cp & Htype) _ IH];
    [by split; [constructor|]|].
  cbn [forallb]. rewrite andb_true_iff, IH, Forall_cons. cbn [snd] in *.
  unfold field_complete. rewrite Htype.
  cbn [createType PT.default PT.clone PT.copy].
  rewrite !andb_true_iff, !bool_decide_eq_true.
  split.
  - intros [[[_ Hcl] Hcp] Hrest]. split; [|done].
    eexists. split; [reflexivity|]. by split.
  - intros [(type & [= <-] & Hcl & Hcp) Hrest].
    split; [|done]. split; [|done]. split; [by eexists|done].
Qed.

(** X22. For a schema whose fields use types built by [createType],
    [registerComponent] depends on the [clone] and the [copy] only: with
    both given for every field, as for the six built-in [PropTypes], the
    call returns and registers the type; with one of them left out for
    some field, as in [createType('T', 0)], it throws. The default never
    matters, since [createType] always sets the property, were it to
    undefined. *)
Theorem registerComponent_created_types (w : W.t) (Component : CT.t)
    (objectPool : poolArg) (schema : list (string * SP.t)) :
  W.componentTypes w !! CT.name Component = None →
  CT.schema Component = Some schema →
  Forall (λ p, ∃ name d cl cp, SP.type p.2 = Some (createType name d cl cp)) schema →
  let given :=
    Forall (λ p, ∃ type, SP.type p.2 = Some type
              ∧ is_Some (PT.clone type) ∧ is_Some (PT.copy type)) schema in
  (given →
   ∃ w', World_registerComponent w Component objectPool = Return w'
         ∧ W.componentTypes w' !! CT.name Component = Some Component)
  ∧ (¬ given → throws (World_registerComponent w Component objectPool)).
Proof.
  intros Hnew Hschema Hcreated given.
  pose proof (schema_created_complete schema Hcreated) as Hiff.
  pose proof (validateSchema_spec w Component schema) as Hv.
  unfold World_registerComponent. rewrite Hnew, Hschema.
  destruct (validateSchema w Component schema) as [w1|w1 msg]; destruct Hv as [Hv Hw].
  - split; [|intros Hno; destruct Hno; by apply Hiff].
    intros _. destruct objectPool; eexists; (split; [done|]);
      cbn [W.componentTypes W.set_componentPools W.set_componentCounts
           W.set_componentTypes ObjectPool_new W.set_nextObject];
      apply lookup_insert_eq.
  - split; [|done]. intros Hgiven%Hiff. congruence.
Qed.

Lemma registerComponent_created_types_witness :
  W.componentTypes W.new !! CT.name Broken = None
  ∧ throws (World_registerComponent W.new Broken PoolUndefined)
  ∧ W.componentTypes W.new !! CT.name Profile = None
  ∧ ¬ throws (World_registerComponent W.new Profile PoolUndefined).
Proof.
  assert (H1 : W.componentTypes W.new !! CT.name Broken = None)
    by (vm_compute; reflexivity).
  assert (H2 : Forall (λ p, ∃ name d cl cp,
                         SP.type p.2 = Some (createType name d cl cp))
                 [("t"%string, SP.mk (Some (createType (Some "T"%string) (VNumber 0)
                                              None None)))]).
  { repeat constructor. by eexists _, _, _, _. }
  assert (H3 : ¬ Forall (λ p, ∃ type, SP.type p.2 = Some type
                           ∧ is_Some (PT.clone type) ∧ is_Some (PT.copy type))
                 [("t"%string, SP.mk (Some (createType (Some "T"%string) (VNumber 0)
                                              None None)))]).
  { intros [(type & [= <-] & [cl Hcl] & _) _]%Forall_cons. discriminate Hcl. }
  assert (H4 : W.componentTypes W.new !! CT.name Profile = None)
    by (vm_compute; reflexivity).
  assert (H5 : Forall (λ p, ∃ name d cl cp,
                         SP.type p.2 = Some (createType name d cl cp))
                 [("tags"%string, SP.mk (Some PropTypes.Array));
                  ("meta"%string, SP.mk (Some PropTypes.JSON));
                  ("score"%string, SP.mk (Some PropTypes.Number));
                  ("handle"%string, SP.mk (Some PropTypes.Object))]).
  { repeat constructor; by eexists _, _, _, _. }
  assert (H6 : Forall (λ p, ∃ type, SP.type p.2 = Some type
                         ∧ is_Some (PT.clone type) ∧ is_Some (PT.copy type))
                 [("tags"%string, SP.mk (Some PropTypes.Array));
                  ("meta"%string, SP.mk (Some PropTypes.JSON));
                  ("score"%string, SP.mk (Some PropTypes.Number));
                  ("handle"%string, SP.mk (Some PropTypes.Object))]).
  { repeat constructor; eexists; (split; [reflexivity|]); by split; eexists. }
  destruct (registerComponent_created_types W.new Broken PoolUndefined _ H1 eq_refl H2)
    as [_ Hthrows].
  destruct (registerComponent_created_types W.new Profile PoolUndefined _ H4 eq_refl H5)
    as [Hreturns _].
  destruct (Hreturns H6) as (w' & Hw' & _).
  refine (conj H1 (conj (Hthrows H3) (conj H4 _))).
  rewrite Hw'. exact (λ F, F).
Defined.
